(** * Arbiata: the settlement contract, the decision endpoint and the
      cost estimators, embedded from the sources and checked against the
      written specification.

    - [Arbfarm]  : the Solidity settlement contract (deposit, withdraw,
                   executeArb) as transactions over an explicit ledger.
    - [Js]       : the values of the scripting language: numbers as the
                   rationals that doubles are, with each operation rounded
                   to the nearest double.
    - [Decide]   : the /api/decide route (deterministic gate, advisory
                   override, rule-based fallback).
    - [Estimate] : the gas and bridge estimators and the ETH/USD reference
                   each of them reads.
    - [ArbfarmMore], [DecideMore] : the contract's flexible path, the
                   history route, and the pages that call the contract and
                   the decision route.
    - [Services] : the slippage and liquidity services.
    - [Routes]   : the detection, price-stream, estimate and bridging-fees
                   routes.
    - [EstimateCycle] : one estimate, as far as amounts in ETH are turned
                   into USD. *)

From Stdlib Require Import ZArith NArith QArith Qround Qabs String List Lia.
From Stdlib Require Import Ascii DecimalString Lqa Qpower.
From stdpp Require Import base option gmap strings list.

Local Open Scope N_scope.

(* ===================================================================== *)
(** ** The settlement contract (contract Arbfarm)                         *)
(* ===================================================================== *)

Module Arbfarm.

(** Accounts are 160-bit identifiers; [uint256] quantities are naturals with
    the compiler's checked arithmetic (Solidity ^0.8) written out. *)
Definition address := N.

Definition MAX_UINT256 : N := 2 ^ 256 - 1.

Definition POOL_FEE : N := 3000.

Inductive revert_reason :=
| ZeroDeposit              (* "Zero deposit" *)
| ZeroWithdraw             (* "Zero withdraw" *)
| InsufficientBalance      (* "Insufficient balance" *)
| ZeroAmount               (* "Zero amount" *)
| SwapFailedWethUsdc       (* "WETH->USDC swap failed" *)
| SwapFailedUsdcWeth       (* "USDC->WETH swap failed" *)
| Unprofitable             (* "Unprofitable: profit below minimum" *)
| ArithmeticPanic          (* checked arithmetic: Panic(0x11) *)
| ExternalRevert.          (* a callee reverted, or an ether transfer failed *)

Record Transaction := {
  timestamp : N;
  amountIn : N;
  profit : N;
  isExecuteArb : bool
}.

Inductive Event :=
| Deposited (user : address) (amount : N)
| Withdrawn (user : address) (amount : N)
| ArbitrageExecuted (user : address) (ethBefore ethAfter profit : N).

(** What one transaction can change: the two storage mappings, the ether
    held by the contract ([address(this).balance]) and the event log. *)
Record State := {
  userBalances : gmap address N;
  userTransactions : gmap address (list Transaction);
  selfBalance : N;
  events : list Event
}.

(** The message of a call. *)
Record Msg := {
  sender : address;
  value : N;
  block_timestamp : N
}.

Record ExactInputSingleParams := {
  tokenIn : address;
  tokenOut : address;
  fee : N;
  recipient : address;
  deadline : N;
  swapAmountIn : N;
  amountOutMinimum : N;
  sqrtPriceLimitX96 : N
}.

(** The contracts behind the interfaces IWETH, IERC20 and ISwapRouter are
    not part of the repository.  Each call on them either returns or reverts;
    that outcome, and the amount a swap returns, is given by the deployment
    the contract was constructed with.  [accepts_ether to v] tells whether a
    plain transfer of [v] to [to] goes through. *)
Record Deployment := {
  this : address;
  swapRouter : address;
  WETH : address;
  USDC : address;
  weth_deposit : N -> bool;
  weth_approve : address -> N -> bool;
  usdc_approve : address -> N -> bool;
  exactInputSingle : ExactInputSingleParams -> option N;
  weth_withdraw : N -> bool;
  accepts_ether : address -> N -> bool
}.

(** *** Transactions: state passing with reverts *)

Definition Tx (A : Type) : Type := State -> revert_reason + A * State.

#[export] Instance Tx_ret : MRet Tx := fun A (a : A) s => inr (a, s).

#[export] Instance Tx_bind : MBind Tx := fun A B (f : A -> Tx B) (m : Tx A) s =>
  match m s with
  | inl e => inl e
  | inr (a, s') => f a s'
  end.

Definition revert {A} (e : revert_reason) : Tx A := fun _ => inl e.

Definition require (cond : bool) (e : revert_reason) : Tx unit :=
  if cond then mret tt else revert e.

Definition checked_add (a b : N) : Tx N :=
  if a + b <=? MAX_UINT256 then mret (a + b) else revert ArithmeticPanic.

Definition checked_sub (a b : N) : Tx N :=
  if b <=? a then mret (a - b) else revert ArithmeticPanic.

Definition balanceOf (s : State) (user : address) : N :=
  default 0 (userBalances s !! user).

Definition transactionsOf (s : State) (user : address) : list Transaction :=
  default [] (userTransactions s !! user).

Definition read_userBalances (user : address) : Tx N :=
  fun s => inr (balanceOf s user, s).

Definition write_userBalances (user : address) (v : N) : Tx unit :=
  fun s => inr (tt, {| userBalances := <[user := v]> (userBalances s);
                       userTransactions := userTransactions s;
                       selfBalance := selfBalance s;
                       events := events s |}).

Definition push_userTransactions (user : address) (t : Transaction) : Tx unit :=
  fun s => inr (tt, {| userBalances := userBalances s;
                       userTransactions :=
                         <[user := transactionsOf s user ++ [t]]> (userTransactions s);
                       selfBalance := selfBalance s;
                       events := events s |}).

Definition emit (e : Event) : Tx unit :=
  fun s => inr (tt, {| userBalances := userBalances s;
                       userTransactions := userTransactions s;
                       selfBalance := selfBalance s;
                       events := events s ++ [e] |}).

Definition read_selfBalance : Tx N := fun s => inr (selfBalance s, s).

(** Ether entering the contract with a call. *)
Definition ether_in (v : N) : Tx unit :=
  fun s => inr (tt, {| userBalances := userBalances s;
                       userTransactions := userTransactions s;
                       selfBalance := selfBalance s + v;
                       events := events s |}).

(** Ether leaving the contract: the call fails when the contract holds less. *)
Definition ether_out (v : N) : Tx unit :=
  fun s => if v <=? selfBalance s
           then inr (tt, {| userBalances := userBalances s;
                            userTransactions := userTransactions s;
                            selfBalance := selfBalance s - v;
                            events := events s |})
           else inl ExternalRevert.

(** *** The contract's functions *)

Section Contract.

Variable env : Deployment.

(** [receive() external payable] *)
Definition receive (msg : Msg) : Tx unit :=
  ether_in (value msg) ;;
  bal ← read_userBalances (sender msg) ;
  bal' ← checked_add bal (value msg) ;
  write_userBalances (sender msg) bal' ;;
  emit (Deposited (sender msg) (value msg)).

(** [function deposit() external payable] *)
Definition deposit (msg : Msg) : Tx unit :=
  ether_in (value msg) ;;
  require (0 <? value msg) ZeroDeposit ;;
  bal ← read_userBalances (sender msg) ;
  bal' ← checked_add bal (value msg) ;
  write_userBalances (sender msg) bal' ;;
  emit (Deposited (sender msg) (value msg)).

(** [payable(to).transfer(amount)] *)
Definition transfer (to : address) (amount : N) : Tx unit :=
  ether_out amount ;;
  require (accepts_ether env to amount) ExternalRevert.

(** [function withdraw(uint256 amount) external]; not payable, so its body
    runs only in calls that carry no ether and [value] plays no part. *)
Definition withdraw (msg : Msg) (amount : N) : Tx unit :=
  require (0 <? amount) ZeroWithdraw ;;
  bal ← read_userBalances (sender msg) ;
  require (amount <=? bal) InsufficientBalance ;;
  bal' ← checked_sub bal amount ;
  write_userBalances (sender msg) bal' ;;
  transfer (sender msg) amount ;;
  emit (Withdrawn (sender msg) amount).

(** [IWETH(WETH).deposit{value: amountIn}()] : ether leaves the contract. *)
Definition IWETH_deposit (amount : N) : Tx unit :=
  ether_out amount ;;
  require (weth_deposit env amount) ExternalRevert.

(** [IWETH(WETH).withdraw(wethReceived)] : the token contract pays the ether
    back with a plain transfer, which runs this contract's [receive] with
    the token contract as the sender. *)
Definition IWETH_withdraw (now : N) (amount : N) : Tx unit :=
  require (weth_withdraw env amount) ExternalRevert ;;
  receive {| sender := WETH env; value := amount; block_timestamp := now |}.

Definition ISwapRouter_exactInputSingle (p : ExactInputSingleParams) : Tx N :=
  match exactInputSingle env p with
  | Some out => mret out
  | None => revert ExternalRevert
  end.

(** [function executeArb(uint256 amountIn, uint256 minProfit) external];
    not payable. *)
Definition executeArb (msg : Msg) (amountIn minProfit : N) : Tx unit :=
  require (0 <? amountIn) ZeroAmount ;;
  bal ← read_userBalances (sender msg) ;
  require (amountIn <=? bal) InsufficientBalance ;;
  ethBefore ← read_selfBalance ;
  bal' ← checked_sub bal amountIn ;
  write_userBalances (sender msg) bal' ;;
  IWETH_deposit amountIn ;;
  require (weth_approve env (swapRouter env) amountIn) ExternalRevert ;;
  deadline1 ← checked_add (block_timestamp msg) 60 ;
  usdcReceived ← ISwapRouter_exactInputSingle
    {| tokenIn := WETH env; tokenOut := USDC env; fee := POOL_FEE;
       recipient := this env; deadline := deadline1;
       swapAmountIn := amountIn; amountOutMinimum := 0;
       sqrtPriceLimitX96 := 0 |} ;
  require (0 <? usdcReceived) SwapFailedWethUsdc ;;
  require (usdc_approve env (swapRouter env) usdcReceived) ExternalRevert ;;
  deadline2 ← checked_add (block_timestamp msg) 60 ;
  wethReceived ← ISwapRouter_exactInputSingle
    {| tokenIn := USDC env; tokenOut := WETH env; fee := POOL_FEE;
       recipient := this env; deadline := deadline2;
       swapAmountIn := usdcReceived; amountOutMinimum := 0;
       sqrtPriceLimitX96 := 0 |} ;
  require (0 <? wethReceived) SwapFailedUsdcWeth ;;
  IWETH_withdraw (block_timestamp msg) wethReceived ;;
  ethAfter ← read_selfBalance ;
  profit ← checked_sub ethAfter ethBefore ;
  require (minProfit <=? profit) Unprofitable ;;
  credit ← checked_add amountIn profit ;
  cur ← read_userBalances (sender msg) ;
  cur' ← checked_add cur credit ;
  write_userBalances (sender msg) cur' ;;
  push_userTransactions (sender msg)
    {| timestamp := block_timestamp msg; amountIn := amountIn;
       profit := profit; isExecuteArb := true |} ;;
  emit (ArbitrageExecuted (sender msg) ethBefore ethAfter profit).

(** The view functions. *)
Definition getUserTransactions (s : State) (user : address) : list Transaction :=
  transactionsOf s user.

Definition contractBalance (s : State) : N := selfBalance s.

Definition getUserBalance (s : State) (user : address) : N := balanceOf s user.

End Contract.

(** *** Calls as the ledger sees them: a call commits or leaves no trace *)

Inductive receipt :=
| Committed (s' : State)
| Reverted (why : revert_reason).

Definition call (body : Tx unit) (s : State) : receipt :=
  match body s with
  | inr (_, s') => Committed s'
  | inl e => Reverted e
  end.

Definition ledger_after (s : State) (r : receipt) : State :=
  match r with
  | Committed s' => s'
  | Reverted _ => s
  end.

(** A withdrawal went through: the call commits, the caller's balance is
    down by exactly [amount], the ether left the contract and the event is
    logged. *)
Definition withdrawn (env : Deployment) (msg : Msg) (amount : N) (s : State) : Prop :=
  exists s',
    call (withdraw env msg amount) s = Committed s' /\
    balanceOf s' (sender msg) + amount = balanceOf s (sender msg) /\
    selfBalance s' + amount = selfBalance s /\
    events s' = events s ++ [Withdrawn (sender msg) amount].

(** *** A small deployment to run the contract on *)

Definition alice : address := 1001.

(** A router that pays 3000 USDC per WETH and sells WETH at 2990. *)
Definition venue : Deployment :=
  {| this := 1; swapRouter := 2; WETH := 3; USDC := 4;
     weth_deposit := fun _ => true;
     weth_approve := fun _ _ => true;
     usdc_approve := fun _ _ => true;
     exactInputSingle := fun p =>
       if tokenIn p =? 3 then Some (swapAmountIn p * 3000)
       else Some (swapAmountIn p / 2990);
     weth_withdraw := fun _ => true;
     accepts_ether := fun _ _ => true |}.

Definition ledger0 : State :=
  {| userBalances := {[ alice := 5000 ]};
     userTransactions := ∅;
     selfBalance := 5000;
     events := [] |}.

Definition from_alice : Msg :=
  {| sender := alice; value := 0; block_timestamp := 1700000000 |}.

End Arbfarm.

(* ===================================================================== *)
(** ** The values the routes compute with                                 *)
(* ===================================================================== *)

(** The routes compute on JavaScript numbers.  The model takes the
    rational a double denotes, and a separate [NaN] where the code can
    meet one; comparisons agree with the order of the rationals, and
    arithmetic is rounded to the nearest double ([fl] below). *)
Module Js.

Local Open Scope Q_scope.

Inductive number :=
| Finite (q : Q)
| NaN.

Definition leb (x y : Q) : bool := Qle_bool x y.
Definition ltb (x y : Q) : bool := negb (Qle_bool y x).
Definition gtb (x y : Q) : bool := ltb y x.
Definition geb (x y : Q) : bool := leb y x.

(** [Math.max] and [Math.min] on two arguments. *)
Definition Math_max (a b : number) : number :=
  match a, b with
  | Finite x, Finite y => if leb x y then Finite y else Finite x
  | _, _ => NaN
  end.

Definition Math_min (a b : number) : number :=
  match a, b with
  | Finite x, Finite y => if leb x y then Finite x else Finite y
  | _, _ => NaN
  end.

(** A value produced by [JSON.parse]. *)
#[warnings="-register-all"]
Inductive json :=
| JNull
| JBool (b : bool)
| JNumber (q : Q)
| JString (s : string)
| JArray (items : list json)
| JObject (fields : list (string * json)).

(** Property read on a parsed object, [None] for [undefined]; [fields] are
    the object's own properties, one entry per key. *)
Fixpoint property (name : string) (fields : list (string * json)) : option json :=
  match fields with
  | [] => None
  | (k, v) :: rest => if String.eqb k name then Some v else property name rest
  end.

Definition truthy (v : json) : bool :=
  match v with
  | JNull => false
  | JBool b => b
  | JNumber q => negb (Qeq_bool q 0)
  | JString s => negb (String.eqb s EmptyString)
  | JArray _ => true
  | JObject _ => true
  end.

(** [v || fallback] where [v] is a property read. *)
Definition or_else (v : option json) (fallback : json) : json :=
  match v with
  | Some x => if truthy x then x else fallback
  | None => fallback
  end.

(** [ToNumber]; on strings, arrays and objects the conversion is the
    host's ([coerce]). *)
Definition ToNumber (coerce : json -> number) (v : json) : number :=
  match v with
  | JNull => Finite 0
  | JBool b => if b then Finite 1 else Finite 0
  | JNumber q => Finite q
  | _ => coerce v
  end.

(** [x.toFixed(f)]: the integer [n] with [n / 10^f] nearest to [|x|], the
    larger one on a tie, written with [f] decimals after the sign.  (From
    [1e21] on the host prints an exponent instead; the model keeps the
    positional digits.) *)
Definition toFixed_scaled (x : Q) (f : nat) : Z :=
  Qfloor (Qabs x * inject_Z (10 ^ Z.of_nat f) + (1 # 2)).

Definition digits (n : Z) : string :=
  NilZero.string_of_uint (N.to_uint (Z.to_N n)).

Fixpoint zeros (k : nat) : string :=
  match k with
  | O => EmptyString
  | S k' => String "0"%char (zeros k')
  end.

Definition pad_left (width : nat) (s : string) : string :=
  zeros (width - String.length s) +:+ s.

Definition toFixed (x : Q) (f : nat) : string :=
  let n := toFixed_scaled x f in
  let whole := digits (n / 10 ^ Z.of_nat f) in
  let frac := pad_left f (digits (n mod 10 ^ Z.of_nat f)) in
  (if ltb x 0 then "-" else EmptyString) +:+
  whole +:+ (match f with O => EmptyString | S _ => "." +:+ frac end).

(** The number a [toFixed] string reads back as ([parseFloat]). *)
Definition toFixed_value (x : Q) (f : nat) : Q :=
  (if ltb x 0 then -1 else 1) * (toFixed_scaled x f # Pos.of_nat (10 ^ f)).

(** *** Doubles

    A number is the rational its double is.  An arithmetic operation of
    the source is the exact operation followed by rounding to the nearest
    double; its operands are read as doubles first, so a decimal literal
    stands for the double nearest to it. *)

(** The integer nearest to [x], the even one on a tie. *)
Definition nearest_even (x : Q) : Z :=
  let n := Qfloor x in
  match Qcompare (x - inject_Z n) (1 # 2) with
  | Lt => n
  | Eq => if Z.even n then n else (n + 1)%Z
  | Gt => (n + 1)%Z
  end.

(** The [k] with [2^k <= x < 2^(k+1)], for a positive [x]. *)
Definition binade (x : Q) : Z :=
  let d := (Z.log2 (Qnum x) - Z.log2 (Z.pos (Qden x)))%Z in
  if Qle_bool (2 ^ d) x then d else (d - 1)%Z.

(** A positive [x] rounded to 53 significant bits, ties to the even
    significand. *)
Definition round53 (x : Q) : Q :=
  let e := (binade x - 52)%Z in
  inject_Z (nearest_even (x / 2 ^ e)) * 2 ^ e.

(** The double nearest to [x] (binary64, round to nearest, ties to even).
    The exponent range is not bounded: neither overflow to an infinity nor
    the coarser spacing below [2^-1022] is modelled. *)
Definition fl (x : Q) : Q :=
  if Qeq_bool x 0 then 0
  else Qred ((if ltb x 0 then -1 else 1) * round53 (Qabs x)).

(** [x + y], [x - y], [x * y] and [x / y] on doubles.  (A division by
    zero, an infinity or [NaN] in the source, is zero here.) *)
Definition fadd (x y : Q) : Q := fl (fl x + fl y).
Definition fsub (x y : Q) : Q := fl (fl x - fl y).
Definition fmul (x y : Q) : Q := fl (fl x * fl y).
Definition fdiv (x y : Q) : Q := fl (fl x / fl y).

End Js.

(* ===================================================================== *)
(** ** The decision route (/api/decide)                                   *)
(* ===================================================================== *)

Module Decide.

Import Js.
Local Open Scope Q_scope.

Inductive RiskInput := LOW | MEDIUM | HIGH.
Inductive RiskLevel := low | medium | high.
Inductive ProfitMargin := safe | acceptable | thin.

#[export] Instance RiskLevel_eq_dec : EqDecision RiskLevel.
Proof. solve_decision. Defined.

#[export] Instance ProfitMargin_eq_dec : EqDecision ProfitMargin.
Proof. solve_decision. Defined.

Definition toLowerCase (r : RiskInput) : RiskLevel :=
  match r with
  | LOW => low
  | MEDIUM => medium
  | HIGH => high
  end.

(** [interface DecideRequest]; the numbers are doubles. *)
Record DecideRequest := {
  spreadPercent : Q;
  netProfitUsd : Q;
  gasCostUsd : Q;
  slippageUsd : Q;
  feesUsd : Q;
  slippageRisk : option RiskInput;
  mevRisk : option RiskInput;
  timingRisk : option RiskInput;
  tradeSizeUsd : Q;
  liquidityUsd : Q
}.

(** What [await request.json()] yields: it throws (an [Error] with a
    message, or something else), or the two validated fields are not both
    there, or the body is a [DecideRequest]. *)
Inductive RequestBody :=
| Unreadable (message : option string)
| MissingFields
| Complete (body : DecideRequest).

(** The [riskAnalysis] object of a response; [gasRisk] carries the timing
    risk. *)
Module RiskAnalysis.
Record t := {
  gasRisk : RiskLevel;
  slippageRisk : RiskLevel;
  mevRisk : RiskLevel;
  profitMargin : ProfitMargin
}.
End RiskAnalysis.

(** The [decision] object of a response.  On the advisory path [decision]
    and [reason] are whatever the parsed object held. *)
Record Decision := {
  decision : json;
  reason : json;
  confidence : number;
  riskAnalysis : RiskAnalysis.t
}.

(** [interface DecideResponse], with the HTTP status it is sent with;
    [result] is its [decision] property. *)
Record DecideResponse := {
  status : N;
  success : bool;
  timestamp : N;
  result : Decision;
  error : option string
}.

Definition EXECUTE : json := JString "EXECUTE".
Definition SKIP : json := JString "SKIP".

(** The one [generateContent] call a request may make, by how the code
    gets out of it. *)
Inductive advisory_reply :=
| CallFails                                  (* the call or [text()] throws, or times out *)
| NoJsonSpan                                 (* [response.match(/\{[\s\S]*\}/)] is null *)
| ParseThrows                                (* [JSON.parse] throws on the span *)
| Parsed (fields : list (string * json)).    (* the parsed object *)

Record Env := {
  now : N;                                   (* [Date.now()] *)
  GEMINI_API_KEY : option string;            (* [process.env.GEMINI_API_KEY] *)
  advisory : advisory_reply;
  coerce : json -> number                    (* the host's [ToNumber] on non-primitives and strings *)
}.

(** *** Helper functions *)

Definition inferSlippageRisk (data : DecideRequest) : RiskLevel :=
  let slippagePercent :=
    if gtb (netProfitUsd data) 0
    then fmul (fdiv (slippageUsd data) (netProfitUsd data)) 100
    else 100 in
  if gtb slippagePercent 50 then high
  else if gtb slippagePercent 25 then medium
  else low.

Definition inferMEVRisk (data : DecideRequest) : RiskLevel :=
  if gtb (slippageUsd data) 2 && gtb (tradeSizeUsd data) 50 then high
  else if gtb (slippageUsd data) 1 then medium
  else low.

Definition inferTimingRisk (data : DecideRequest) : RiskLevel :=
  let gasPercent :=
    if gtb (netProfitUsd data) 0
    then fmul (fdiv (gasCostUsd data) (netProfitUsd data)) 100
    else 100 in
  if gtb gasPercent 50 then high
  else if gtb gasPercent 30 then medium
  else low.

Definition calculateProfitMargin (data : DecideRequest) : ProfitMargin :=
  let profitGasRatio :=
    if gtb (gasCostUsd data) 0
    then fdiv (netProfitUsd data) (gasCostUsd data)
    else 0 in
  if geb profitGasRatio 5 then safe
  else if geb profitGasRatio 3 then acceptable
  else thin.

(** [NextResponse.json({ success: true, timestamp: Date.now(), decision })] *)
Definition ok_response (t : N) (d : Decision) : DecideResponse :=
  {| status := 200; success := true; timestamp := t; result := d; error := None |}.

Definition analysis (slippageRisk mevRisk timingRisk : RiskLevel)
    (profitMargin : ProfitMargin) : RiskAnalysis.t :=
  {| RiskAnalysis.gasRisk := timingRisk;
     RiskAnalysis.slippageRisk := slippageRisk;
     RiskAnalysis.mevRisk := mevRisk;
     RiskAnalysis.profitMargin := profitMargin |}.

Definition worst_analysis : RiskAnalysis.t :=
  {| RiskAnalysis.gasRisk := high;
     RiskAnalysis.slippageRisk := high;
     RiskAnalysis.mevRisk := high;
     RiskAnalysis.profitMargin := thin |}.

Definition fallbackDecision (t : N) (data : DecideRequest)
    (slippageRisk mevRisk timingRisk : RiskLevel)
    (profitMargin : ProfitMargin) : DecideResponse :=
  let risks := [slippageRisk; mevRisk; timingRisk] in
  let hasHighRisk := existsb (fun r => bool_decide (r = high)) risks in
  let mediumRiskCount := length (filter (fun r => r = medium) risks) in
  let riskAnalysis := analysis slippageRisk mevRisk timingRisk profitMargin in
  if hasHighRisk || (2 <=? mediumRiskCount)%nat then
    ok_response t
      {| decision := SKIP;
         reason := JString "Overall risk assessment is HIGH - execution unsafe";
         confidence := Finite 0.85;
         riskAnalysis := riskAnalysis |}
  else if bool_decide (profitMargin = thin) then
    ok_response t
      {| decision := SKIP;
         reason := JString "Profit margin too thin relative to gas cost";
         confidence := Finite 0.8;
         riskAnalysis := riskAnalysis |}
  else
    let allLowRisk := forallb (fun r => bool_decide (r = low)) risks in
    if geb (netProfitUsd data) 5 && allLowRisk && bool_decide (profitMargin = safe) then
      ok_response t
        {| decision := EXECUTE;
           reason := JString ("Net profit $" +:+ toFixed (netProfitUsd data) 2
                              +:+ " with low overall risk");
           confidence := Finite 0.75;
           riskAnalysis := riskAnalysis |}
    else
      ok_response t
        {| decision := SKIP;
           reason := JString "Risk-reward ratio not favorable for execution";
           confidence := Finite 0.7;
           riskAnalysis := riskAnalysis |}.

(** [body.xRisk ? body.xRisk.toLowerCase() : inferXRisk(body)] *)
Definition given_or (given : option RiskInput) (inferred : RiskLevel) : RiskLevel :=
  match given with
  | Some r => toLowerCase r
  | None => inferred
  end.

(** [!aiKey] *)
Definition key_missing (k : option string) : bool :=
  match k with
  | None => true
  | Some s => String.eqb s EmptyString
  end.

(** The response built from a parsed advisory object. *)
Definition advisory_response (env : Env) (fields : list (string * json))
    (riskAnalysis : RiskAnalysis.t) : DecideResponse :=
  ok_response (now env)
    {| decision := or_else (property "decision" fields) SKIP;
       reason := or_else (property "reason" fields) (JString "AI decision completed");
       confidence :=
         Math_min (Finite 1)
           (Math_max (Finite 0)
              (ToNumber (coerce env)
                 (or_else (property "confidence" fields) (JNumber 0.5))));
       riskAnalysis := riskAnalysis |}.

(** [export async function POST(request)] *)
Definition POST (env : Env) (request : RequestBody) : DecideResponse :=
  match request with
  | Unreadable message =>
      {| status := 500; success := false; timestamp := now env;
         result := {| decision := SKIP;
                      reason := JString "Error processing decision request";
                      confidence := Finite 0;
                      riskAnalysis := worst_analysis |};
         error := Some (default "Unknown error"%string message) |}
  | MissingFields =>
      {| status := 400; success := false; timestamp := now env;
         result := {| decision := SKIP;
                      reason := JString "Missing required simulation data";
                      confidence := Finite 0;
                      riskAnalysis := worst_analysis |};
         error := Some "Missing required fields"%string |}
  | Complete body =>
      let slippageRisk := given_or (slippageRisk body) (inferSlippageRisk body) in
      let mevRisk := given_or (mevRisk body) (inferMEVRisk body) in
      let timingRisk := given_or (timingRisk body) (inferTimingRisk body) in
      let profitMargin := calculateProfitMargin body in
      let riskAnalysis := analysis slippageRisk mevRisk timingRisk profitMargin in
      if leb (netProfitUsd body) 0 then
        ok_response (now env)
          {| decision := SKIP;
             reason := JString "Net profit is negative or zero";
             confidence := Finite 1.0;
             riskAnalysis := riskAnalysis |}
      else if ltb (netProfitUsd body) 2 then
        ok_response (now env)
          {| decision := SKIP;
             reason := JString "Net profit below $2 minimum threshold";
             confidence := Finite 0.95;
             riskAnalysis := riskAnalysis |}
      else if gtb (spreadPercent body) 5 then
        ok_response (now env)
          {| decision := SKIP;
             reason := JString "Spread >5% appears anomalous - possible bad data";
             confidence := Finite 0.9;
             riskAnalysis := riskAnalysis |}
      else if key_missing (GEMINI_API_KEY env) then
        fallbackDecision (now env) body slippageRisk mevRisk timingRisk profitMargin
      else
        match advisory env with
        | Parsed fields => advisory_response env fields riskAnalysis
        | NoJsonSpan | CallFails | ParseThrows =>
            fallbackDecision (now env) body slippageRisk mevRisk timingRisk profitMargin
        end
  end.

(** *** Vocabulary for the statements below *)

(** The fallback's response for a request, with the risk levels and the
    margin [POST] computes for it. *)
Definition fallback_for (env : Env) (body : DecideRequest) : DecideResponse :=
  fallbackDecision (now env) body
    (given_or (slippageRisk body) (inferSlippageRisk body))
    (given_or (mevRisk body) (inferMEVRisk body))
    (given_or (timingRisk body) (inferTimingRisk body))
    (calculateProfitMargin body).

(** The first test of [fallbackDecision]: a risk is high or two are medium. *)
Definition risky (slippageRisk mevRisk timingRisk : RiskLevel) : bool :=
  let risks := [slippageRisk; mevRisk; timingRisk] in
  existsb (fun r => bool_decide (r = high)) risks
  || (2 <=? length (filter (fun r => r = medium) risks))%nat.

(** None of the three checks of the gate matches. *)
Definition gate_open (body : DecideRequest) : Prop :=
  2 <= netProfitUsd body /\ spreadPercent body <= 5.

(** The advisory gives the code nothing to parse: no key, a failed or
    timed-out call, no brace-delimited span, or a span [JSON.parse] rejects. *)
Definition advisory_unavailable (env : Env) : Prop :=
  key_missing (GEMINI_API_KEY env) = true \/
  advisory env = CallFails \/ advisory env = NoJsonSpan \/ advisory env = ParseThrows.

(** A successful SKIP with the given reason. *)
Definition skips_because (r : DecideResponse) (why : string) : Prop :=
  status r = 200%N /\ success r = true /\
  decision (result r) = SKIP /\ reason (result r) = JString why.

Definition nonempty_text (v : json) : Prop :=
  exists s, v = JString s /\ s <> EmptyString.


(** *** Sample requests *)

Definition no_coercion : json -> number := fun _ => NaN.

Definition without_key : Env :=
  {| now := 1700000000000; GEMINI_API_KEY := None;
     advisory := CallFails; coerce := no_coercion |}.

Definition answering (reply : advisory_reply) : Env :=
  {| now := 1700000000000; GEMINI_API_KEY := Some "key"%string;
     advisory := reply; coerce := no_coercion |}.

(** Scenario A: a net profit of $1.20 on a spread of 0.15%. *)
Definition scenarioA : DecideRequest :=
  {| spreadPercent := 0.15; netProfitUsd := 1.20; gasCostUsd := 0.30;
     slippageUsd := 0.10; feesUsd := 0.05;
     slippageRisk := None; mevRisk := None; timingRisk := None;
     tradeSizeUsd := 35; liquidityUsd := 1000000 |}.

(** Scenario B: a net profit of $6.00, every risk low, a safe margin. *)
Definition scenarioB : DecideRequest :=
  {| spreadPercent := 0.4; netProfitUsd := 6.00; gasCostUsd := 1;
     slippageUsd := 0.5; feesUsd := 0.2;
     slippageRisk := Some LOW; mevRisk := Some LOW; timingRisk := Some LOW;
     tradeSizeUsd := 3500; liquidityUsd := 1000000 |}.

(** Scenario C: a spread of 7%, whatever the net profit. *)
Definition scenarioC (netProfit : Q) : DecideRequest :=
  {| spreadPercent := 7; netProfitUsd := netProfit; gasCostUsd := 1;
     slippageUsd := 0.5; feesUsd := 0.2;
     slippageRisk := None; mevRisk := None; timingRisk := None;
     tradeSizeUsd := 3500; liquidityUsd := 1000000 |}.

(** A trade that costs no gas. *)
Definition free_gas : DecideRequest :=
  {| spreadPercent := 0.4; netProfitUsd := 1000; gasCostUsd := 0;
     slippageUsd := 0.5; feesUsd := 0.2;
     slippageRisk := None; mevRisk := None; timingRisk := None;
     tradeSizeUsd := 3500; liquidityUsd := 1000000 |}.

End Decide.

(* ===================================================================== *)
(** ** The gas and bridge estimators                                      *)
(* ===================================================================== *)

Module Estimate.

Import Js.
Local Open Scope Q_scope.

(** [provider.getFeeData()] *)
Record FeeData := {
  gasPrice : N;
  maxFeePerGas : option N;
  maxPriorityFeePerGas : option N
}.

(** [ethers.formatEther(wei)]: the decimal string, as the number it
    writes.  Where the source reads it back with [parseFloat], the
    operation applied to it rounds it to a double. *)
Definition formatEther (wei : Z) : Q := wei # (10 ^ 18).

(** Truthiness of a bigint that may be [null]. *)
Definition present (v : option N) : bool :=
  match v with
  | Some n => negb (n =? 0)%N
  | None => false
  end.

(** [async function getEthPriceUsd()]: [slot0] is what [pool.slot0()]
    returned for this call ([sqrtPriceX96]), [None] when the read threw.
    [Number(sqrtPriceX96)] is the double nearest to the integer, and
    [sqrtPrice ** 2] is taken as the correctly rounded square. *)
Definition getEthPriceUsd (slot0 : option N) : Q :=
  match slot0 with
  | Some sqrtPriceX96 =>
      let sqrtPrice := fdiv (inject_Z (Z.of_N sqrtPriceX96)) (2 ^ 96) in
      let price := fmul sqrtPrice sqrtPrice in
      let ethPrice := fmul price (10 ^ 12) in
      ethPrice
  | None => 3500
  end.

Record Eip1559Cost := {
  eip_gasCostWei : N;
  eip_gasCostEth : Q;
  eip_gasCostUsd : Q
}.

Record GasFees := {
  gasEstimate : N;
  gasCostWei : N;
  gasCostEth : Q;
  gasCostUsd : Q;
  eip1559 : option Eip1559Cost
}.

(** The body the gas functions share once the estimate, the fee data and
    the ETH price have been awaited. *)
Definition gas_report (gasEstimate : N) (feeData : FeeData) (ethPriceUsd : Q) : GasFees :=
  let gasCostInWei := (gasEstimate * gasPrice feeData)%N in
  let gasCostInEth := formatEther (Z.of_N gasCostInWei) in
  {| gasEstimate := gasEstimate;
     gasCostWei := gasCostInWei;
     gasCostEth := gasCostInEth;
     gasCostUsd := toFixed_value (fmul gasCostInEth ethPriceUsd) 2;
     eip1559 :=
       if present (maxFeePerGas feeData) && present (maxPriorityFeePerGas feeData)
       then
         let eip1559GasCost := (gasEstimate * default 0%N (maxFeePerGas feeData))%N in
         let eip1559GasCostEth := formatEther (Z.of_N eip1559GasCost) in
         Some {| eip_gasCostWei := eip1559GasCost;
                 eip_gasCostEth := eip1559GasCostEth;
                 eip_gasCostUsd := toFixed_value (fmul eip1559GasCostEth ethPriceUsd) 2 |}
       else None |}.

(** [calculateBaseDepositGasFees]: reads the price itself. *)
Definition calculateBaseDepositGasFees (gasEstimate : N) (feeData : FeeData)
    (slot0 : option N) : GasFees :=
  let ethPriceUsd := getEthPriceUsd slot0 in
  gas_report gasEstimate feeData ethPriceUsd.

(** [calculateArbitrumSwapGasFees]: reads the price itself. *)
Definition calculateArbitrumSwapGasFees (gasEstimate : N) (feeData : FeeData)
    (slot0 : option N) : GasFees :=
  let ethPriceUsd := getEthPriceUsd slot0 in
  gas_report gasEstimate feeData ethPriceUsd.

Record CompleteFlow := {
  step1_deposit : GasFees;
  step2_swap : GasFees;
  totalGasCostEth : Q;
  totalGasCostUsd : Q
}.

Record BridgeFees := {
  outputAmount : Z;
  relayerFeeBps : N;
  relayerFeeEth : Q;
  relayerFeeUsd : Q;
  bridge_gas : GasFees;
  totalFeesEth : Q;
  totalFeesUsd : Q
}.

(** One entry of the slippage breakdown. *)
Record FeePart := {
  part_basisPoints : N;
  part_amountEth : Q;
  part_amountUsd : Q
}.

Record BridgeSlippage := {
  inputAmountEth : Q;
  inputAmountUsd : Q;
  totalSlippageBps : N;
  slippage_amountEth : Q;
  slippage_amountUsd : Q;
  expectedOutputEth : Q;
  expectedOutputUsd : Q;
  lpFee : FeePart;
  relayerGasFee : FeePart;
  relayerCapitalFee : FeePart
}.

(** The reads of the price pool made while one estimate is computed: each
    estimator awaits [getEthPriceUsd()] for itself. *)
Inductive price_read :=
| DepositGasRead
| SwapGasRead
| BridgeFeesRead
| BridgeSlippageRead.

(** The reply of the fee service as [calculateAcrossBridgeSlippage] reads
    it: each field holds the integer when the reply carries it and it is
    truthy. *)
Record FeeReply := {
  totalRelayFee_total : option N;        (* [feeData.totalRelayFee?.total] *)
  totalRelayFee_pct : option N;          (* [feeData.totalRelayFee?.pct] *)
  relayerGasFee_total : option N;        (* [feeData.relayerGasFee?.total] *)
  relayerCapitalFee_total : option N     (* [feeData.relayerCapitalFee?.total] *)
}.

(** What [calculateAcrossBridgeSlippage] gets from its own request to the
    fee service: the request, a status that is not ok, the decoding of the
    body or [BigInt] on one of the fields throws, or the reply is read. *)
Inductive slippage_fetch :=
| FetchThrows
| Answered (reply : FeeReply).

(** What the chains and the bridge's fee service answer during one cycle.
    The two bridge estimators each send their own request to the fee
    service: [across_totalRelayFee] is the total [calculateAcrossBridgeFees]
    reads from its reply ([None] when the request fails, the status is not
    ok, or the reply carries no usable [totalRelayFee]), and
    [across_slippage_fetch] is what [calculateAcrossBridgeSlippage] gets. *)
Record Cycle := {
  amountInWei : N;
  deposit_gasEstimate : N;
  mainnet_feeData : FeeData;
  swap_gasEstimate : N;
  arbitrum_feeData : FeeData;
  base_feeData : FeeData;
  across_totalRelayFee : option N;
  across_slippage_fetch : slippage_fetch;
  slot0_at : price_read -> option N
}.

(** The two gas estimators as they are called in cycle [c]. *)
Definition deposit_leg (c : Cycle) : GasFees :=
  calculateBaseDepositGasFees (deposit_gasEstimate c) (mainnet_feeData c)
    (slot0_at c DepositGasRead).

Definition swap_leg (c : Cycle) : GasFees :=
  calculateArbitrumSwapGasFees (swap_gasEstimate c) (arbitrum_feeData c)
    (slot0_at c SwapGasRead).

(** [calculateCompleteFlowGasFees]: both legs, and their totals
    ([(parseFloat(a) + parseFloat(b)).toFixed(n)]). *)
Definition calculateCompleteFlowGasFees (c : Cycle) : CompleteFlow :=
  let depositFees := deposit_leg c in
  let swapFees := swap_leg c in
  {| step1_deposit := depositFees;
     step2_swap := swapFees;
     totalGasCostEth :=
       toFixed_value (fadd (gasCostEth depositFees) (gasCostEth swapFees)) 6;
     totalGasCostUsd :=
       toFixed_value (fadd (gasCostUsd depositFees) (gasCostUsd swapFees)) 2 |}.

(** [calculateAcrossBridgeFees]: ten basis points when the fee service
    does not answer. *)
Definition calculateAcrossBridgeFees (c : Cycle) : BridgeFees :=
  let amountInWei := amountInWei c in
  let default_fee := (amountInWei * 10 / 10000)%N in
  let totalRelayerFeeWei := default default_fee (across_totalRelayFee c) in
  let relayerFeeBps :=
    match across_totalRelayFee c with
    | Some total => if (amountInWei =? 0)%N then 10%N
                    else (total * 10000 / amountInWei)%N
    | None => 10%N
    end in
  let outputAmount := (Z.of_N amountInWei - Z.of_N totalRelayerFeeWei)%Z in
  let typicalGasUsage := 250000%N in
  let ethPriceUsd := getEthPriceUsd (slot0_at c BridgeFeesRead) in
  let gas := gas_report typicalGasUsage (base_feeData c) ethPriceUsd in
  let relayerFeeEth := formatEther (Z.of_N totalRelayerFeeWei) in
  let totalFeesEth := toFixed_value (fadd (gasCostEth gas) relayerFeeEth) 6 in
  {| outputAmount := outputAmount;
     relayerFeeBps := relayerFeeBps;
     relayerFeeEth := relayerFeeEth;
     relayerFeeUsd := toFixed_value (fmul relayerFeeEth ethPriceUsd) 2;
     bridge_gas := gas;
     totalFeesEth := totalFeesEth;
     totalFeesUsd := toFixed_value (fmul totalFeesEth ethPriceUsd) 2 |}.

(** One fee of the reply, in basis points of the amount, in ether and in
    USD. *)
Definition fee_part (feeWei amountInWei : N) (ethPriceUsd : Q) : FeePart :=
  let feeEth := formatEther (Z.of_N feeWei) in
  {| part_basisPoints := (feeWei * 10000 / amountInWei)%N;
     part_amountEth := feeEth;
     part_amountUsd := toFixed_value (fmul feeEth ethPriceUsd) 2 |}.

(** [calculateAcrossBridgeSlippage]: throws ([None]) when its request fails
    or the amount is zero (a division of bigints by zero); a field the
    reply does not carry counts as zero
    ([BigInt(feeData.totalRelayFee?.total || '0')]). *)
Definition calculateAcrossBridgeSlippage (c : Cycle) : option BridgeSlippage :=
  match across_slippage_fetch c with
  | FetchThrows => None
  | Answered feeData =>
      let amountInWei := amountInWei c in
      let totalRelayFeeWei := default 0%N (totalRelayFee_total feeData) in
      let lpFeeWei := default 0%N (totalRelayFee_pct feeData) in
      let relayerGasFeeWei := default 0%N (relayerGasFee_total feeData) in
      let relayerCapitalFeeWei := default 0%N (relayerCapitalFee_total feeData) in
      let outputAmountWei := (Z.of_N amountInWei - Z.of_N totalRelayFeeWei)%Z in
      if (amountInWei =? 0)%N then None
      else
        let ethPriceUsd := getEthPriceUsd (slot0_at c BridgeSlippageRead) in
        let inputAmountEth := formatEther (Z.of_N amountInWei) in
        let outputAmountEth := formatEther outputAmountWei in
        let totalFeesEth := formatEther (Z.of_N totalRelayFeeWei) in
        Some {| inputAmountEth := inputAmountEth;
                inputAmountUsd := toFixed_value (fmul inputAmountEth ethPriceUsd) 2;
                totalSlippageBps := (totalRelayFeeWei * 10000 / amountInWei)%N;
                slippage_amountEth := totalFeesEth;
                slippage_amountUsd := toFixed_value (fmul totalFeesEth ethPriceUsd) 2;
                expectedOutputEth := outputAmountEth;
                expectedOutputUsd := toFixed_value (fmul outputAmountEth ethPriceUsd) 2;
                lpFee := fee_part lpFeeWei amountInWei ethPriceUsd;
                relayerGasFee := fee_part relayerGasFeeWei amountInWei ethPriceUsd;
                relayerCapitalFee :=
                  fee_part relayerCapitalFeeWei amountInWei ethPriceUsd |}
  end.

(** The cycle [c] with the price read at [site] answered by [reading]. *)
Definition with_read (c : Cycle) (site : price_read) (reading : option N) : Cycle :=
  {| amountInWei := amountInWei c;
     deposit_gasEstimate := deposit_gasEstimate c;
     mainnet_feeData := mainnet_feeData c;
     swap_gasEstimate := swap_gasEstimate c;
     arbitrum_feeData := arbitrum_feeData c;
     base_feeData := base_feeData c;
     across_totalRelayFee := across_totalRelayFee c;
     across_slippage_fetch := across_slippage_fetch c;
     slot0_at := fun s =>
       match site, s with
       | DepositGasRead, DepositGasRead
       | SwapGasRead, SwapGasRead
       | BridgeFeesRead, BridgeFeesRead
       | BridgeSlippageRead, BridgeSlippageRead => reading
       | _, _ => slot0_at c s
       end |}.

(** The route's own prices ([const ethPriceUsd = 3500] in the estimate
    route), from which it takes the spread and the gross profit. *)
Definition route_ethPriceUsd : Q := 3500.
Definition buyPrice : Q := fmul route_ethPriceUsd 0.998.
Definition sellPrice : Q := fmul route_ethPriceUsd 1.002.
Definition grossProfitUsd (amountFloat : Q) : Q :=
  fmul amountFloat (fsub sellPrice buyPrice).

(** *** Sample cycles *)

(** 20 gwei, no fee-market data. *)
Definition fees20 : FeeData :=
  {| gasPrice := 20000000000; maxFeePerGas := None; maxPriorityFeePerGas := None |}.

(** A reply of the fee service: five ten-thousandths of an ether in all,
    of which two for the relayer's gas and three for its capital. *)
Definition reply5 : FeeReply :=
  {| totalRelayFee_total := Some 500000000000000%N;
     totalRelayFee_pct := Some 500000000000000%N;
     relayerGasFee_total := Some 200000000000000%N;
     relayerCapitalFee_total := Some 300000000000000%N |}.

(** A pool reading near 3000 USDC per WETH. *)
Definition near3000 : N := 4339505179874779672736325%N.

(** The pool answers the first read and fails the later ones. *)
Definition drifting : Cycle :=
  {| amountInWei := 1000000000000000000;
     deposit_gasEstimate := 100000; mainnet_feeData := fees20;
     swap_gasEstimate := 100000; arbitrum_feeData := fees20;
     base_feeData := fees20;
     across_totalRelayFee := Some 500000000000000%N;
     across_slippage_fetch := Answered reply5;
     slot0_at := fun site =>
       match site with
       | DepositGasRead => Some near3000
       | _ => None
       end |}.

(** The pool answers every read alike. *)
Definition steady : Cycle :=
  {| amountInWei := 1000000000000000000;
     deposit_gasEstimate := 100000; mainnet_feeData := fees20;
     swap_gasEstimate := 100000; arbitrum_feeData := fees20;
     base_feeData := fees20;
     across_totalRelayFee := Some 500000000000000%N;
     across_slippage_fetch := Answered reply5;
     slot0_at := fun _ => Some near3000 |}.

End Estimate.

(* ===================================================================== *)
(** ** The settlement contract: the flexible path and the history route   *)
(* ===================================================================== *)

Module ArbfarmMore.

Import Arbfarm.
Local Open Scope N_scope.

(** Everything the ledger owes: the sum of [userBalances]. *)
Definition totalOwed (s : State) : N :=
  map_fold (fun _ v acc => v + acc) 0 (userBalances s).

(** [executeArbitrageFlexible] reads the contract's balance of [tokenIn]
    twice, around the two swaps. *)
Inductive moment := BeforeSwaps | AfterSwaps.

(** The ERC-20 contracts behind [IERC20(token)]: what [balanceOf] returns
    at each of the two reads ([None] when the call reverts) and whether
    [approve] returns. *)
Record Tokens := {
  erc20_balanceOf : moment -> address -> address -> option N;
  erc20_approve : address -> address -> N -> bool
}.

(** The ways out of [executeArbitrageFlexible]: its own "NO_PROFIT", or a
    revert it shares with the other functions. *)
Inductive flexible_revert :=
| NO_PROFIT
| Because (why : revert_reason).

Section Flexible.

Variable env : Deployment.
Variable tokens : Tokens.

Definition IERC20_balanceOf (at_ : moment) (token owner : address) : Tx N :=
  match erc20_balanceOf tokens at_ token owner with
  | Some b => mret b
  | None => revert ExternalRevert
  end.

(** [executeArbitrageFlexible] up to its second read of the balance. *)
Definition flexible_swaps (msg : Msg) (tokenIn tokenOut : address)
    (feeBuy feeSell amountIn minAmountOutBuy minAmountOutSell : N) : Tx (N * N) :=
  require (0 <? amountIn) ZeroAmount ;;
  bal ← read_userBalances (sender msg) ;
  require (amountIn <=? bal) InsufficientBalance ;;
  balanceBefore ← IERC20_balanceOf BeforeSwaps tokenIn (this env) ;
  bal' ← checked_sub bal amountIn ;
  write_userBalances (sender msg) bal' ;;
  require (erc20_approve tokens tokenIn (swapRouter env) amountIn) ExternalRevert ;;
  deadline1 ← checked_add (block_timestamp msg) 60 ;
  tokenOutAmount ← ISwapRouter_exactInputSingle env
    {| tokenIn := tokenIn; tokenOut := tokenOut; fee := feeBuy;
       recipient := this env; deadline := deadline1;
       swapAmountIn := amountIn; amountOutMinimum := minAmountOutBuy;
       sqrtPriceLimitX96 := 0 |} ;
  require (erc20_approve tokens tokenOut (swapRouter env) tokenOutAmount)
    ExternalRevert ;;
  deadline2 ← checked_add (block_timestamp msg) 60 ;
  _ ← ISwapRouter_exactInputSingle env
    {| tokenIn := tokenOut; tokenOut := tokenIn; fee := feeSell;
       recipient := this env; deadline := deadline2;
       swapAmountIn := tokenOutAmount; amountOutMinimum := minAmountOutSell;
       sqrtPriceLimitX96 := 0 |} ;
  balanceAfter ← IERC20_balanceOf AfterSwaps tokenIn (this env) ;
  mret (balanceBefore, balanceAfter).

(** [executeArbitrageFlexible] after [require(balanceAfter > balanceBefore)]. *)
Definition flexible_settle (msg : Msg) (amountIn balanceBefore balanceAfter : N)
    : Tx unit :=
  profit ← checked_sub balanceAfter balanceBefore ;
  credit ← checked_add amountIn profit ;
  cur ← read_userBalances (sender msg) ;
  cur' ← checked_add cur credit ;
  write_userBalances (sender msg) cur' ;;
  push_userTransactions (sender msg)
    {| timestamp := block_timestamp msg; amountIn := amountIn;
       profit := profit; isExecuteArb := false |} ;;
  emit (ArbitrageExecuted (sender msg) balanceBefore balanceAfter profit).

(** [function executeArbitrageFlexible(...) external]; not payable. *)
Definition executeArbitrageFlexible (msg : Msg) (tokenIn tokenOut : address)
    (feeBuy feeSell amountIn minAmountOutBuy minAmountOutSell : N)
    : State -> flexible_revert + unit * State :=
  fun s =>
    match flexible_swaps msg tokenIn tokenOut feeBuy feeSell amountIn
            minAmountOutBuy minAmountOutSell s with
    | inl why => inl (Because why)
    | inr ((balanceBefore, balanceAfter), s1) =>
        if balanceBefore <? balanceAfter then
          match flexible_settle msg amountIn balanceBefore balanceAfter s1 with
          | inl why => inl (Because why)
          | inr done => inr done
          end
        else inl NO_PROFIT
    end.

End Flexible.

(** The history route ([GET] with a user address): the length of the log
    and [transactions.reduce((sum, tx) => sum + tx.profit, BigInt(0))]. *)
Definition totalTransactions (transactions : list Transaction) : nat :=
  length transactions.

Definition totalProfit (transactions : list Transaction) : N :=
  fold_left (fun sum tx => sum + profit tx) transactions 0.

(** The dashboard's execute button: [minProfit = parseEther('0')]. *)
Definition handleExecute (env : Deployment) (msg : Msg) (amountIn : N) : Tx unit :=
  executeArb env msg amountIn 0.

(** *** Sample token reads *)

(** The contract's balance of the input token goes from 100 to 107. *)
Definition gaining : Tokens :=
  {| erc20_balanceOf := fun at_ _ _ =>
       match at_ with BeforeSwaps => Some 100 | AfterSwaps => Some 107 end;
     erc20_approve := fun _ _ _ => true |}.

(** A router that gives back less WETH than it took. *)
Definition lossy : Deployment :=
  {| this := 1; swapRouter := 2; WETH := 3; USDC := 4;
     weth_deposit := fun _ => true;
     weth_approve := fun _ _ => true;
     usdc_approve := fun _ _ => true;
     exactInputSingle := fun p =>
       if tokenIn p =? 3 then Some (swapAmountIn p * 3000)
       else Some (swapAmountIn p / 3010);
     weth_withdraw := fun _ => true;
     accepts_ether := fun _ _ => true |}.

(** A ledger that owes exactly the ether it holds. *)
Definition backed : State :=
  {| userBalances := {[ alice := 5000 ]};
     userTransactions := ∅;
     selfBalance := 5000;
     events := [] |}.

End ArbfarmMore.

(* ===================================================================== *)
(** ** The decision route: reading a body, and the debug page that posts  *)
(* ===================================================================== *)

Module DecideMore.

Import Js Decide.
Local Open Scope Q_scope.

(** [JSON.stringify] of an object literal: a property whose value is
    [undefined] is left out. *)
Fixpoint stringify (props : list (string * option json)) : list (string * json) :=
  match props with
  | [] => []
  | (k, Some v) :: rest => (k, v) :: stringify rest
  | (_, None) :: rest => stringify rest
  end.

(** The fields of [simulation.data.simulation] the debug page reads. *)
Record Simulation := {
  sim_spreadPct : option json;
  sim_gasCostUsd : option json;
  sim_slippageUsd : option json;
  sim_feesUsd : option json;
  sim_netProfitUsd : option json;
  sim_liquidityDepth : option json;
  sim_amountInEth : option json
}.

(** The body [fetchDecision] posts to the decision route. *)
Definition fetchDecision_body (sim : Simulation) : list (string * json) :=
  stringify
    [ ("spread"%string, sim_spreadPct sim);
      ("gasCostUsd"%string, sim_gasCostUsd sim);
      ("slippageUsd"%string, sim_slippageUsd sim);
      ("feesUsd"%string, sim_feesUsd sim);
      ("netProfitUsd"%string, sim_netProfitUsd sim);
      ("liquidityDepth"%string, sim_liquidityDepth sim);
      ("amountInEth"%string, sim_amountInEth sim) ].

Definition read_number (name : string) (raw : list (string * json)) : option Q :=
  match property name raw with
  | Some (JNumber q) => Some q
  | _ => None
  end.

Definition read_risk (name : string) (raw : list (string * json))
    : option (option RiskInput) :=
  match property name raw with
  | None => Some None
  | Some (JString s) =>
      if String.eqb s "LOW" then Some (Some LOW)
      else if String.eqb s "MEDIUM" then Some (Some MEDIUM)
      else if String.eqb s "HIGH" then Some (Some HIGH)
      else None
  | Some _ => None
  end.

(** A posted object as the route sees it: the check on the two required
    fields comes first; past it, the object is read as a [DecideRequest]
    ([None] when it is not one). *)
Definition read_body (raw : list (string * json)) : option RequestBody :=
  match property "netProfitUsd" raw, property "spreadPercent" raw with
  | None, _ | _, None => Some MissingFields
  | Some _, Some _ =>
      match read_number "spreadPercent" raw, read_number "netProfitUsd" raw,
            read_number "gasCostUsd" raw, read_number "slippageUsd" raw,
            read_number "feesUsd" raw, read_risk "slippageRisk" raw,
            read_risk "mevRisk" raw, read_risk "timingRisk" raw,
            read_number "tradeSizeUsd" raw, read_number "liquidityUsd" raw with
      | Some sp, Some np, Some gas, Some sl, Some fees, Some sr, Some mr, Some tr,
        Some size, Some liq =>
          Some (Complete {| spreadPercent := sp; netProfitUsd := np;
                            gasCostUsd := gas; slippageUsd := sl; feesUsd := fees;
                            slippageRisk := sr; mevRisk := mr; timingRisk := tr;
                            tradeSizeUsd := size; liquidityUsd := liq |})
      | _, _, _, _, _, _, _, _, _, _ => None
      end
  end.

(** The route on a posted object. *)
Definition serve (env : Env) (raw : list (string * json)) : option DecideResponse :=
  POST env <$> read_body raw.

(** A simulation with every field the debug page reads. *)
Definition full_simulation : Simulation :=
  {| sim_spreadPct := Some (JNumber 0.4);
     sim_gasCostUsd := Some (JNumber 1);
     sim_slippageUsd := Some (JNumber 0.5);
     sim_feesUsd := Some (JNumber 0.2);
     sim_netProfitUsd := Some (JNumber 6);
     sim_liquidityDepth := Some (JString "high");
     sim_amountInEth := Some (JNumber 1) |}.

(** A request that gives no timing risk. *)
Definition safe_margin : DecideRequest :=
  {| spreadPercent := 0.4; netProfitUsd := 6; gasCostUsd := 1;
     slippageUsd := 0.5; feesUsd := 0.2;
     slippageRisk := None; mevRisk := None; timingRisk := None;
     tradeSizeUsd := 35; liquidityUsd := 1000000 |}.

(** *** Where the profit margin changes

    The quotient of net profit by gas cost is rounded to a double before
    it is compared with 5 and with 3: the least quotients that round to 5
    and to 3 lie half a unit in the last place below them. *)
Definition rounds_to_5 : Q := 5 - (1 # 2251799813685248).
Definition rounds_to_3 : Q := 3 - (1 # 4503599627370496).

(** A net profit of 5.05 on a gas cost of 1.01: as doubles the profit is
    short of five times the cost, and their quotient rounds to 5. *)
Definition rounded_margin : DecideRequest :=
  {| spreadPercent := 0.4; netProfitUsd := 5.05; gasCostUsd := 1.01;
     slippageUsd := 0.5; feesUsd := 0.2;
     slippageRisk := Some LOW; mevRisk := Some LOW; timingRisk := Some LOW;
     tradeSizeUsd := 3500; liquidityUsd := 1000000 |}.

End DecideMore.

(* ===================================================================== *)
(** ** The slippage and liquidity services                                *)
(* ===================================================================== *)

Module Services.

Import Js.
Local Open Scope Q_scope.

(** *** slippageService: [calculateSlippage] *)

Record SlippageReport := {
  currentPrice : Q;
  expectedAmountOut : Q;
  actualAmountOut : Q;
  slippage_amount : Q;
  slippage_percentage : Q;
  priceImpact_percentage : Q;
  executionPrice : Q
}.

(** The arithmetic of [calculateSlippage] once the pool and the quoter
    have answered: [amountIn] is [parseFloat(amountIn)], [tickPrice] what
    [tickToPrice] gives for the current tick, [quoted] the quoter's amount
    out in token units.  (A zero divisor gives an infinity or [NaN] in the
    source and zero here.) *)
Definition calculateSlippage (amountIn : Q) (isToken0Input : bool)
    (tickPrice quoted : Q) : SlippageReport :=
  let priceRatio := if isToken0Input then fl tickPrice else fdiv 1 tickPrice in
  let expectedAmountOut := fmul amountIn priceRatio in
  let actualAmountOut := fl quoted in
  let slippageAmount := fsub expectedAmountOut actualAmountOut in
  let slippagePercentage := fmul (fdiv slippageAmount expectedAmountOut) 100 in
  let executionPrice := fdiv actualAmountOut amountIn in
  let priceImpact := fmul (fdiv (fsub priceRatio executionPrice) priceRatio) 100 in
  {| currentPrice := priceRatio;
     expectedAmountOut := expectedAmountOut;
     actualAmountOut := actualAmountOut;
     slippage_amount := slippageAmount;
     slippage_percentage := slippagePercentage;
     priceImpact_percentage := priceImpact;
     executionPrice := executionPrice |}.

(** *** liquidityService and poolService: the depth of a pool *)

Inductive depth := depth_low | depth_mid | depth_high.   (* 'low', 'mid', 'high' *)

Record TickInfo := {
  tick : Z;
  liquidityGross : N;
  liquidityNet : Z;
  initialized : bool
}.

(** What [poolContract.ticks(tick)] does for one tick. *)
Inductive tick_read :=
| ReadThrows
| ReadInfo (info : TickInfo).

(** What the callback of [batch.map] resolves to. *)
Inductive slot :=
| Null
| Undefined
| Entry (info : TickInfo).

(** [async (tick) => { try { ...; if (tickInfo.liquidityGross > 0n) return
    {...} } catch (error) { return null } }] *)
Definition read_tick (ticks : Z -> tick_read) (t : Z) : slot :=
  match ticks t with
  | ReadThrows => Null
  | ReadInfo info =>
      if (0 <? liquidityGross info)%N
      then Entry {| tick := t; liquidityGross := liquidityGross info;
                    liquidityNet := liquidityNet info;
                    initialized := initialized info |}
      else Undefined
  end.

(** [batchResults.filter(r => r !== null)]; what is left is an entry or
    [undefined] ([None]). *)
Fixpoint not_null (results : list slot) : list (option TickInfo) :=
  match results with
  | [] => []
  | Null :: rest => not_null rest
  | Undefined :: rest => None :: not_null rest
  | Entry info :: rest => Some info :: not_null rest
  end.

(** [for (let tick = tickLower; tick <= tickUpper; tick += tickSpacing)
    ticksData.push(tick)], for a positive spacing ([None] otherwise: the
    loop would not end). *)
Definition ticksData (tickLower tickUpper tickSpacing : Z) : option (list Z) :=
  if (tickUpper <? tickLower)%Z then Some []
  else if (tickSpacing <=? 0)%Z then None
  else Some (map (fun i => (tickLower + Z.of_nat i * tickSpacing)%Z)
               (seq 0 (S (Z.to_nat ((tickUpper - tickLower) / tickSpacing))))).

(** The loop over batches of [batchSize]: [fuel] bounds the number of
    batches. *)
Fixpoint in_batches (fuel : nat) (batchSize : nat) (ticks : Z -> tick_read)
    (limitedTicks : list Z) : list (option TickInfo) :=
  match fuel with
  | O => []
  | S fuel' =>
      match limitedTicks with
      | [] => []
      | _ =>
          let batch := firstn batchSize limitedTicks in
          let batchResults := map (read_tick ticks) batch in
          not_null batchResults ++
          in_batches fuel' batchSize ticks (skipn batchSize limitedTicks)
      end
  end.

(** [getLiquidityDepth], given the two ends of the tick range. *)
Definition getLiquidityDepth (ticks : Z -> tick_read)
    (tickLower tickUpper tickSpacing : Z) : option (list (option TickInfo)) :=
  match ticksData tickLower tickUpper tickSpacing with
  | None => None
  | Some all =>
      let limitedTicks := firstn 40 all in
      let batchSize := 10%nat in
      Some (in_batches (length limitedTicks) batchSize ticks limitedTicks)
  end.

(** [categorizeLiquidityDepth]: the sum over [tickData] reads
    [tick.liquidityGross] of every entry, which throws ([None]) on an
    [undefined] one; the sum itself is not used for the category. *)
Definition categorizeLiquidityDepth (liquidityUSD : Q) (ticksWithLiquidity : nat)
    (tickData : list (option TickInfo)) : option depth :=
  if forallb (fun t => match t with Some _ => true | None => false end) tickData
  then
    let usd_score := if geb liquidityUSD 5000000 then 2%nat
                     else if geb liquidityUSD 1000000 then 1%nat else 0%nat in
    let tick_score := if (30 <=? ticksWithLiquidity)%nat then 2%nat
                      else if (10 <=? ticksWithLiquidity)%nat then 1%nat else 0%nat in
    let score := (usd_score + tick_score)%nat in
    Some (if (3 <=? score)%nat then depth_high
          else if (1 <=? score)%nat then depth_mid
          else depth_low)
  else None.

(** The two calls as [getETHLiquidity] chains them. *)
Definition depthCategory (ticks : Z -> tick_read) (liquidityUSD : Q)
    (tickLower tickUpper tickSpacing : Z) : option depth :=
  match getLiquidityDepth ticks tickLower tickUpper tickSpacing with
  | None => None
  | Some liquidityDepthData =>
      categorizeLiquidityDepth liquidityUSD (length liquidityDepthData)
        liquidityDepthData
  end.

(** *** Sample pools *)

(** Every tick holds liquidity. *)
Definition dense : Z -> tick_read :=
  fun t => ReadInfo {| tick := t; liquidityGross := 1000; liquidityNet := 0;
                       initialized := true |}.

(** Only the ticks that are multiples of 600 hold liquidity. *)
Definition sparse : Z -> tick_read :=
  fun t => ReadInfo {| tick := t;
                       liquidityGross := if (t mod 600 =? 0)%Z then 1000%N else 0%N;
                       liquidityNet := 0; initialized := (t mod 600 =? 0)%Z |}.

End Services.

(* ===================================================================== *)
(** ** The other routes                                                   *)
(* ===================================================================== *)

Module Routes.

Import Js.
Local Open Scope Q_scope.

(** *** /api/detect *)

Inductive chain := base | arbitrum.

(** ['low' | 'medium' | 'high'] *)
Inductive liquidity_class := liquidity_low | liquidity_medium | liquidity_high.

Record Opportunity := {
  found : bool;
  spreadPct : Q;
  buyChain : chain;
  sellChain : chain;
  buyPrice : Q;
  sellPrice : Q;
  liquidityBuy : liquidity_class;
  liquiditySell : liquidity_class;
  actionable : bool
}.

Record OpportunityResponse := {
  status : N;
  success : bool;
  opportunity : Opportunity
}.

(** What [getEthUsdcPrice] resolves to. *)
Record PoolData := {
  price : Q;
  liquidity : N
}.

Definition MIN_SPREAD_PCT : Q := 0.1.

Section Detect.

(** The library functions the route imports. *)
Variable calculateSpread : Q -> Q -> Q.
Variable isActionableSpread : Q -> Q -> bool.
Variable classifyLiquidity : N -> liquidity_class.

(** [GET]: [fetched] is what the two price fetches gave, [None] when one
    of them threw. *)
Definition detect (fetched : option (PoolData * PoolData)) : OpportunityResponse :=
  match fetched with
  | Some (baseData, arbitrumData) =>
      let basePrice := price baseData in
      let arbitrumPrice := price arbitrumData in
      let spreadPct := calculateSpread basePrice arbitrumPrice in
      let actionable := isActionableSpread spreadPct MIN_SPREAD_PCT in
      let buyOnBase := ltb basePrice arbitrumPrice in
      {| status := 200;
         success := true;
         opportunity :=
           {| found := actionable;
              spreadPct := spreadPct;
              buyChain := if buyOnBase then base else arbitrum;
              sellChain := if buyOnBase then arbitrum else base;
              buyPrice := if buyOnBase then basePrice else arbitrumPrice;
              sellPrice := if buyOnBase then arbitrumPrice else basePrice;
              liquidityBuy :=
                classifyLiquidity (if buyOnBase then liquidity baseData
                                   else liquidity arbitrumData);
              liquiditySell :=
                classifyLiquidity (if buyOnBase then liquidity arbitrumData
                                   else liquidity baseData);
              actionable := actionable |} |}
  | None =>
      {| status := 500;
         success := false;
         opportunity :=
           {| found := false;
              spreadPct := 0;
              buyChain := base;
              sellChain := arbitrum;
              buyPrice := 0;
              sellPrice := 0;
              liquidityBuy := liquidity_low;
              liquiditySell := liquidity_low;
              actionable := false |} |}
  end.

End Detect.

(** *** /api/prices-stream: one price update *)

Inductive direction := base_cheaper | arbitrum_cheaper.

Record PriceUpdate := {
  base_price : Q;
  arbitrum_price : Q;
  spread_absolute : Q;
  spread_percentage : Q;
  spread_direction : direction;
  warning : bool
}.

(** [fetchPrices]: [pools] is what the two [getEthUsdcPrice] calls gave
    ([None] when one of them threw), [random1] and [random2] the two
    values of [Math.random()] the mock draws.  The liquidity fields of
    the update are left out. *)
Definition fetchPrices (pools : option (Q * Q)) (random1 random2 : Q) : PriceUpdate :=
  let usable :=
    match pools with
    | Some (b, a) => if Qeq_bool b 0 || Qeq_bool a 0 then None else Some (b, a)
    | None => None
    end in
  let '(basePrice, arbitrumPrice, usedMockData) :=
    match usable with
    | Some (b, a) => (b, a, false)
    | None =>
        let basePrice := fadd 2450 (fmul random1 50) in
        let spreadPct := fadd 0.001 (fmul random2 0.002) in
        let arbitrumPrice := fmul basePrice (fadd 1 spreadPct) in
        (basePrice, arbitrumPrice, true)
    end in
  let absolute := Qabs (fsub arbitrumPrice basePrice) in
  let percentage := fmul (fdiv absolute basePrice) 100 in
  {| base_price := basePrice;
     arbitrum_price := arbitrumPrice;
     spread_absolute := absolute;
     spread_percentage := percentage;
     spread_direction := if ltb basePrice arbitrumPrice
                         then base_cheaper else arbitrum_cheaper;
     warning := usedMockData |}.

(** *** The [amount] checks of /api/estimate and /api/bridging-fees *)

(** What [parseFloat] makes of a value. *)
Inductive parsed :=
| PNaN
| PInfinity (negative : bool)
| PFinite (q : Q).

(** The [amount] of a posted body: falsy ([undefined], [null], the empty
    string, [0]), or a truthy value with what [parseFloat] reads in it. *)
Inductive amount_input :=
| Falsy
| Truthy (read : parsed).

Definition isNaN (p : parsed) : bool :=
  match p with
  | PNaN => true
  | _ => false
  end.

(** [p <= 0] *)
Definition not_positive (p : parsed) : bool :=
  match p with
  | PNaN => false
  | PInfinity negative => negative
  | PFinite q => leb q 0
  end.

(** [!amount || isNaN(parseFloat(amount)) || parseFloat(amount) <= 0] *)
Definition estimate_rejects (amount : amount_input) : bool :=
  match amount with
  | Falsy => true
  | Truthy p => isNaN p || not_positive p
  end.

(** [!amount || parseFloat(amount) <= 0] *)
Definition bridging_fees_rejects (amount : amount_input) : bool :=
  match amount with
  | Falsy => true
  | Truthy p => not_positive p
  end.

(** The status either route answers with: 400 on a rejected amount, 500
    when the estimators throw, 200 otherwise. *)
Definition estimate_status (amount : amount_input) (estimators_throw : bool) : N :=
  if estimate_rejects amount then 400%N
  else if estimators_throw then 500%N else 200%N.

Definition bridging_fees_status (amount : amount_input) (estimator_throws : bool) : N :=
  if bridging_fees_rejects amount then 400%N
  else if estimator_throws then 500%N else 200%N.

(** *** /api/estimate: from the estimators' figures to the net profit *)

(** What the route parses out of the five estimator results. *)
Record Figures := {
  fig_gasCostUsd : Q;
  fig_bridgeSlippagePercent : Q;
  fig_ammSlippagePercent : Q;
  fig_bridgeSlippageUsd : Q;
  fig_ammSlippageUsd : Q;
  fig_feesUsd : Q;
  fig_bridgingFeesUsd : Q
}.

Record Simulated := {
  sim_spreadPercent : Q;
  sim_slippagePercent : Q;
  sim_slippageUsd : Q;
  sim_grossProfitUsd : Q;
  sim_totalCostsUsd : Q;
  sim_netProfitUsd : Q;
  sim_profitMarginPct : Q;
  sim_roiPct : Q
}.

Definition simulate (amountFloat : Q) (f : Figures) : Simulated :=
  let ethPriceUsd := Estimate.route_ethPriceUsd in
  let buyPrice := Estimate.buyPrice in
  let sellPrice := Estimate.sellPrice in
  let spreadPercent := fmul (fdiv (fsub sellPrice buyPrice) buyPrice) 100 in
  let totalSlippagePercent :=
    fadd (fig_bridgeSlippagePercent f) (fig_ammSlippagePercent f) in
  let slippageUsd := fadd (fig_bridgeSlippageUsd f) (fig_ammSlippageUsd f) in
  let grossProfitUsd := Estimate.grossProfitUsd amountFloat in
  let totalCostsUsd :=
    fadd (fadd (fadd (fig_gasCostUsd f) slippageUsd) (fig_feesUsd f))
      (fig_bridgingFeesUsd f) in
  let netProfitUsd := fsub grossProfitUsd totalCostsUsd in
  {| sim_spreadPercent := spreadPercent;
     sim_slippagePercent := totalSlippagePercent;
     sim_slippageUsd := slippageUsd;
     sim_grossProfitUsd := grossProfitUsd;
     sim_totalCostsUsd := totalCostsUsd;
     sim_netProfitUsd := netProfitUsd;
     sim_profitMarginPct :=
       if gtb grossProfitUsd 0 then fmul (fdiv netProfitUsd grossProfitUsd) 100 else 0;
     sim_roiPct := fmul (fdiv netProfitUsd (fmul amountFloat ethPriceUsd)) 100 |}.

End Routes.
(* ===================================================================== *)
(** ** One estimate, as far as ETH amounts are turned into USD             *)
(* ===================================================================== *)

Module EstimateCycle.

Import Js Estimate Services Routes.
Local Open Scope Q_scope.

(** What one request to the estimate route works with: the answers the
    gas and bridge estimators get, the amount the route parsed, and what
    the AMM slippage service read from the pool it quotes.  (The wrappers
    of [functions/] through which the route reaches the estimators are not
    among the sources; the AMM service is taken to be called with the
    route's amount.) *)
Record Estimation := {
  estimators : Cycle;
  amountFloat : Q;                 (* [parseFloat(amount)] *)
  amm_isToken0Input : bool;
  amm_tickPrice : Q;               (* [tickToPrice(currentTick, ...)] *)
  amm_quoted : Q                   (* the quoter's amount out *)
}.

(** A USD figure is printed with two decimals, or kept as computed. *)
Inductive shown := TwoDecimals | AsComputed.

(** An amount in ETH and the USD amount the code makes of it. *)
Record Conversion := {
  native : Q;
  usd : Q;
  how : shown
}.

(** A conversion is denominated with reference [r] when its USD amount is
    the product of the native amount and [r], as the code computes and
    shows it. *)
Definition denominated (r : Q) (cv : Conversion) : Prop :=
  usd cv == match how cv with
            | TwoDecimals => toFixed_value (fmul (native cv) r) 2
            | AsComputed => fmul (native cv) r
            end.

Definition printed (eth usd : Q) : Conversion :=
  {| native := eth; usd := usd; how := TwoDecimals |}.

(** The conversions of a gas report: the cost, and the fee-market cost
    when the chain gave fee-market data. *)
Definition gas_conversions (g : GasFees) : list Conversion :=
  printed (gasCostEth g) (gasCostUsd g) ::
  match eip1559 g with
  | Some e => [ printed (eip_gasCostEth e) (eip_gasCostUsd e) ]
  | None => []
  end.

Definition part_conversion (p : FeePart) : Conversion :=
  printed (part_amountEth p) (part_amountUsd p).

(** The conversions of the two gas legs, of the bridge fees and of the
    bridge slippage. *)
Definition deposit_conversions (c : Cycle) : list Conversion :=
  gas_conversions (deposit_leg c).

Definition swap_conversions (c : Cycle) : list Conversion :=
  gas_conversions (swap_leg c).

Definition bridge_fee_conversions (c : Cycle) : list Conversion :=
  let fees := calculateAcrossBridgeFees c in
  printed (relayerFeeEth fees) (relayerFeeUsd fees) ::
  printed (totalFeesEth fees) (totalFeesUsd fees) ::
  gas_conversions (bridge_gas fees).

Definition bridge_slippage_conversions (c : Cycle) : list Conversion :=
  match calculateAcrossBridgeSlippage c with
  | Some sl => [ printed (inputAmountEth sl) (inputAmountUsd sl);
                 printed (expectedOutputEth sl) (expectedOutputUsd sl);
                 printed (slippage_amountEth sl) (slippage_amountUsd sl);
                 part_conversion (lpFee sl);
                 part_conversion (relayerGasFee sl);
                 part_conversion (relayerCapitalFee sl) ]
  | None => []
  end.

Definition estimator_conversions (c : Cycle) : list Conversion :=
  deposit_conversions c ++ swap_conversions c ++
  bridge_fee_conversions c ++ bridge_slippage_conversions c.

(** The route values the trade for its return on investment:
    [amountFloat * ethPriceUsd]. *)
Definition route_conversion (e : Estimation) : Conversion :=
  {| native := amountFloat e;
     usd := fmul (amountFloat e) route_ethPriceUsd;
     how := AsComputed |}.

(** The AMM slippage service prices the input for the output it expects:
    [parseFloat(amountIn) * priceRatio]. *)
Definition amm_report (e : Estimation) : SlippageReport :=
  calculateSlippage (amountFloat e) (amm_isToken0Input e) (amm_tickPrice e)
    (amm_quoted e).

Definition amm_conversion (e : Estimation) : Conversion :=
  {| native := amountFloat e;
     usd := expectedAmountOut (amm_report e);
     how := AsComputed |}.

(** Every conversion of one estimate. *)
Definition conversions (e : Estimation) : list Conversion :=
  estimator_conversions (estimators e) ++ [ route_conversion e; amm_conversion e ].

(** One reference serves the whole estimate. *)
Definition single_reference (e : Estimation) : Prop :=
  exists r : Q, Forall (denominated r) (conversions e).

(** *** Sample estimates *)

(** One ether through a pool quoting 3000 USDC per WETH, the price pool
    answering the first read only. *)
Definition drifting_estimate : Estimation :=
  {| estimators := drifting; amountFloat := 1;
     amm_isToken0Input := true; amm_tickPrice := 3000; amm_quoted := 2990 |}.

(** The same, the price pool answering every read alike. *)
Definition steady_estimate : Estimation :=
  {| estimators := steady; amountFloat := 1;
     amm_isToken0Input := true; amm_tickPrice := 3000; amm_quoted := 2990 |}.

(** The price pool never answers and the AMM pool stands at 3500. *)
Definition fallback_cycle : Cycle :=
  {| amountInWei := 1000000000000000000;
     deposit_gasEstimate := 100000; mainnet_feeData := fees20;
     swap_gasEstimate := 100000; arbitrum_feeData := fees20;
     base_feeData := fees20;
     across_totalRelayFee := Some 500000000000000%N;
     across_slippage_fetch := Answered reply5;
     slot0_at := fun _ => None |}.

Definition all_3500 : Estimation :=
  {| estimators := fallback_cycle; amountFloat := 1;
     amm_isToken0Input := true; amm_tickPrice := 3500; amm_quoted := 3490 |}.

End EstimateCycle.


(* ===================================================================== *)
(** ** [toFixed] and the doubles on a few numbers                         *)
(* ===================================================================== *)

Module JsExamples.

Import Js.
Local Open Scope Q_scope.

Example toFixed_six : toFixed 6 2 = "6.00"%string.
Proof. vm_compute. reflexivity. Qed.

Example toFixed_rounds : toFixed 1234.5678 2 = "1234.57"%string.
Proof. vm_compute. reflexivity. Qed.

Example toFixed_small_negative : toFixed (-0.001) 2 = "-0.00"%string.
Proof. vm_compute. reflexivity. Qed.

Example toFixed_pads : toFixed 3.04159 4 = "3.0416"%string.
Proof. vm_compute. reflexivity. Qed.

Example toFixed_no_decimals : toFixed 2499.5 0 = "2500"%string.
Proof. vm_compute. reflexivity. Qed.

Example toFixed_value_reads_back : toFixed_value 1234.5678 2 == 1234.57.
Proof. vm_compute. reflexivity. Qed.

(** *** Doubles *)

Example fl_a_tenth : fl 0.1 == 3602879701896397 # 36028797018963968.
Proof. vm_compute. reflexivity. Qed.

Example a_tenth_and_two_tenths : fadd 0.1 0.2 == 1351079888211149 # 4503599627370496.
Proof. vm_compute. reflexivity. Qed.

Example quotient_rounds_to_five : fdiv 5.05 1.01 == 5 # 1.
Proof. vm_compute. reflexivity. Qed.

Example one_third : fdiv 1 3 == 6004799503160661 # 18014398509481984.
Proof. vm_compute. reflexivity. Qed.

Example tie_goes_to_even : fl 9007199254740993 == 9007199254740992 # 1.
Proof. vm_compute. reflexivity. Qed.

Example tie_goes_to_even_up : fl 9007199254740995 == 9007199254740996 # 1.
Proof. vm_compute. reflexivity. Qed.

Example product_is_rounded : fmul 0.00043 3500 == 1694479359798149 # 1125899906842624.
Proof. vm_compute. reflexivity. Qed.

Example negative_is_mirrored : fsub 0.1 0.3 == -7205759403792793 # 36028797018963968.
Proof. vm_compute. reflexivity. Qed.

End JsExamples.
(* ===================================================================== *)
(** ** Rounding to the nearest double                                     *)
(* ===================================================================== *)

Module JsProofs.
Import Js.
Local Open Scope Q_scope.

(** *** Rounding to an integer *)

Lemma nearest_even_comp (x y : Q) : x == y -> nearest_even x = nearest_even y.
Proof.
  intros E. unfold nearest_even.
  rewrite (Qfloor_comp _ _ E).
  assert (x - inject_Z (Qfloor y) == y - inject_Z (Qfloor y)) as E' by (rewrite E; reflexivity).
  rewrite (Qcompare_comp _ _ E' (1 # 2) (1 # 2) (Qeq_refl _)). reflexivity.
Qed.

Lemma floor_fraction (x : Q) : 0 <= x - inject_Z (Qfloor x) < 1.
Proof.
  pose proof (Qfloor_le x) as Hlo. pose proof (Qlt_floor x) as Hhi.
  rewrite inject_Z_plus in Hhi. change (inject_Z 1) with 1 in Hhi.
  split; lra.
Qed.

Lemma nearest_even_cases (x : Q) :
  (nearest_even x = Qfloor x /\ x - inject_Z (Qfloor x) <= 1 # 2) \/
  (nearest_even x = (Qfloor x + 1)%Z /\ 1 # 2 <= x - inject_Z (Qfloor x)).
Proof.
  unfold nearest_even.
  destruct (Qcompare_spec (x - inject_Z (Qfloor x)) (1 # 2)) as [C | C | C].
  - destruct (Z.even (Qfloor x)); [left | right]; split;
      try reflexivity; lra.
  - left. split; [reflexivity | lra].
  - right. split; [reflexivity | lra].
Qed.

Lemma nearest_even_close (x : Q) :
  - (1 # 2) <= inject_Z (nearest_even x) - x <= 1 # 2.
Proof.
  pose proof (floor_fraction x) as [H0 H1].
  destruct (nearest_even_cases x) as [[-> H] | [-> H]].
  - split; lra.
  - rewrite inject_Z_plus. change (inject_Z 1) with 1. split; lra.
Qed.

Lemma Qfloor_unique (x : Q) (n : Z) :
  inject_Z n <= x -> x < inject_Z n + 1 -> Qfloor x = n.
Proof.
  intros Hlo Hhi.
  pose proof (Qfloor_le x) as Flo. pose proof (Qlt_floor x) as Fhi.
  rewrite inject_Z_plus in Fhi. change (inject_Z 1) with 1 in Fhi.
  assert (inject_Z n < inject_Z (Qfloor x) + 1) as A by lra.
  assert (inject_Z (Qfloor x) < inject_Z n + 1) as B by lra.
  change 1 with (inject_Z 1) in A, B. rewrite <- inject_Z_plus in A, B.
  rewrite <- Zlt_Qlt in A, B. lia.
Qed.

Lemma nearest_even_Z (n : Z) : nearest_even (inject_Z n) = n.
Proof.
  assert (Qfloor (inject_Z n) = n) as F by (apply Qfloor_unique; lra).
  destruct (nearest_even_cases (inject_Z n)) as [[-> _] | [_ H]].
  - exact F.
  - rewrite F in H. exfalso. lra.
Qed.

Lemma nearest_even_mono (x y : Q) : x <= y -> (nearest_even x <= nearest_even y)%Z.
Proof.
  intros Hxy.
  pose proof (Qfloor_resp_le _ _ Hxy) as Hf.
  destruct (Z.eq_dec (Qfloor x) (Qfloor y)) as [E | N].
  - unfold nearest_even. rewrite E.
    destruct (Qcompare_spec (x - inject_Z (Qfloor y)) (1 # 2)) as [Cx | Cx | Cx];
      destruct (Qcompare_spec (y - inject_Z (Qfloor y)) (1 # 2)) as [Cy | Cy | Cy];
      try (exfalso; lra); destruct (Z.even (Qfloor y)); lia.
  - destruct (nearest_even_cases x) as [[-> _] | [-> _]];
      destruct (nearest_even_cases y) as [[-> _] | [-> _]]; lia.
Qed.

Lemma inject_Z_sub (a b : Z) : inject_Z (a - b) == inject_Z a - inject_Z b.
Proof.
  unfold Z.sub. rewrite inject_Z_plus, inject_Z_opp. reflexivity.
Qed.

Lemma nearest_even_below (x : Q) (N : Z) :
  x < inject_Z N - (1 # 2) -> (nearest_even x <= N - 1)%Z.
Proof.
  intros H.
  pose proof (nearest_even_close x) as [_ Hc].
  assert (inject_Z (nearest_even x) < inject_Z N) as A by lra.
  rewrite <- Zlt_Qlt in A. lia.
Qed.

Lemma nearest_even_above (x : Q) (N : Z) :
  Z.even N = true -> inject_Z N - (1 # 2) <= x -> (N <= nearest_even x)%Z.
Proof.
  intros Heven H.
  pose proof (floor_fraction x) as [F0 F1].
  destruct (Z_lt_le_dec (Qfloor x) (N - 1)%Z) as [Hlt | Hge].
  - exfalso. assert (Qfloor x + 1 <= N - 1)%Z as A by lia.
    rewrite Zle_Qle, inject_Z_plus, inject_Z_sub in A.
    change (inject_Z 1) with 1 in A. lra.
  - destruct (Z.eq_dec (Qfloor x) (N - 1)%Z) as [E | NE].
    + unfold nearest_even. rewrite E.
      assert (Z.even (N - 1)%Z = false) as Hodd.
      { rewrite Z.even_sub, Heven. reflexivity. }
      rewrite Hodd.
      rewrite E in F0, F1. rewrite inject_Z_sub in F0, F1 |- *.
      change (inject_Z 1) with 1 in F0, F1 |- *.
      destruct (Qcompare_spec (x - (inject_Z N - 1)) (1 # 2)) as [C | C | C];
        try (exfalso; lra); lia.
    + destruct (nearest_even_cases x) as [[-> _] | [-> _]]; lia.
Qed.

(** *** Powers of two *)

Lemma pow2_pos (e : Z) : 0 < 2 ^ e.
Proof. apply Qpower_0_lt. reflexivity. Qed.

Lemma pow2_plus (a b : Z) : 2 ^ (a + b) == 2 ^ a * 2 ^ b.
Proof. apply Qpower_plus. discriminate. Qed.

Lemma pow2_succ (a : Z) : 2 ^ (a + 1) == 2 * 2 ^ a.
Proof. rewrite pow2_plus. change (2 ^ 1) with 2. ring. Qed.

Lemma pow2_le (a b : Z) : (a <= b)%Z -> 2 ^ a <= 2 ^ b.
Proof. intros H. apply Qpower_le_compat_l; [exact H | discriminate]. Qed.

Lemma pow2_lt (a b : Z) : (a < b)%Z -> 2 ^ a < 2 ^ b.
Proof. intros H. apply Qpower_lt_compat_l; [exact H | reflexivity]. Qed.

Lemma pow2_Z (a : Z) : (0 <= a)%Z -> inject_Z (2 ^ a) == 2 ^ a.
Proof. intros H. apply (Zpower_Qpower 2 a H). Qed.

(** *** The binade of a positive number *)

Lemma ratio_lt (p q a b : Q) :
  0 < q -> 0 < b -> p * b < a * q -> p / q < a / b.
Proof.
  intros Hq Hb H.
  apply Qlt_shift_div_l; [exact Hb |].
  assert (p / q * b == p * b / q) as -> by (field; lra).
  apply Qlt_shift_div_r; [exact Hq | exact H].
Qed.

Lemma binade_rough (x : Q) :
  0 < x ->
  let d := (Z.log2 (Qnum x) - Z.log2 (Z.pos (Qden x)))%Z in
  2 ^ (d - 1) < x /\ x < 2 ^ (d + 1).
Proof.
  intros Hx d. destruct x as [p q].
  assert (0 < p)%Z as Hp.
  { unfold Qlt in Hx. simpl in Hx. lia. }
  cbn [Qnum Qden] in d.
  set (a := Z.log2 p) in *. set (b := Z.log2 (Z.pos q)) in *.
  destruct (Z.log2_spec p Hp) as [Pa Pb]. fold a in Pa, Pb.
  destruct (Z.log2_spec (Z.pos q) (Pos2Z.is_pos q)) as [Qa Qb]. fold b in Qa, Qb.
  assert (0 <= a)%Z as Ha by apply Z.log2_nonneg.
  assert (0 <= b)%Z as Hb by apply Z.log2_nonneg.
  rewrite Zle_Qle, pow2_Z in Pa, Qa by lia.
  rewrite Zlt_Qlt, pow2_Z in Pb, Qb by lia.
  replace (Z.succ a) with (a + 1)%Z in Pb by lia.
  replace (Z.succ b) with (b + 1)%Z in Qb by lia.
  rewrite pow2_succ in Pb, Qb.
  pose proof (pow2_pos a) as A0. pose proof (pow2_pos b) as B0.
  assert (p # q == inject_Z p / inject_Z (Z.pos q)) as -> by apply Qmake_Qdiv.
  assert (0 < inject_Z (Z.pos q)) as Hq.
  { change 0 with (inject_Z 0). rewrite <- Zlt_Qlt. lia. }
  set (P := inject_Z p) in *. set (D := inject_Z (Z.pos q)) in *.
  set (A := 2 ^ a) in *. set (B := 2 ^ b) in *.
  assert (2 ^ (d - 1) == A / (2 * B)) as ->.
  { unfold d. replace (a - b - 1)%Z with (a - (b + 1))%Z by lia.
    rewrite Qpower_minus by discriminate. rewrite pow2_succ. reflexivity. }
  assert (2 ^ (d + 1) == (2 * A) / B) as ->.
  { unfold d. replace (a - b + 1)%Z with ((a + 1) - b)%Z by lia.
    rewrite Qpower_minus by discriminate. rewrite pow2_succ. reflexivity. }
  split.
  - apply ratio_lt; [lra | exact Hq |].
    apply Qlt_le_trans with (A * (2 * B)).
    + apply Qmult_lt_l; [exact A0 | exact Qb].
    + assert (A * (2 * B) == (2 * B) * A) as -> by ring.
      assert (P * (2 * B) == (2 * B) * P) as -> by ring.
      apply Qmult_le_l; [lra | exact Pa].
  - apply ratio_lt; [exact Hq | exact B0 |].
    apply Qlt_le_trans with (2 * A * B).
    + assert (P * B == B * P) as -> by ring.
      assert (2 * A * B == B * (2 * A)) as -> by ring.
      apply Qmult_lt_l; [exact B0 | exact Pb].
    + apply Qmult_le_l; [lra | exact Qa].
Qed.

Lemma binade_spec (x : Q) :
  0 < x -> 2 ^ binade x <= x /\ x < 2 ^ (binade x + 1).
Proof.
  intros Hx. destruct (binade_rough x Hx) as [Hlo Hhi]. unfold binade.
  set (d := (Z.log2 (Qnum x) - Z.log2 (Z.pos (Qden x)))%Z) in *.
  destruct (Qle_bool (2 ^ d) x) eqn:E.
  - apply Qle_bool_iff in E. split; assumption.
  - assert (x < 2 ^ d) as Hlt.
    { apply Qnot_le_lt. intros Hle. apply Qle_bool_iff in Hle. congruence. }
    replace (d - 1 + 1)%Z with d by lia. split; [apply Qlt_le_weak; exact Hlo | exact Hlt].
Qed.

Lemma binade_unique (x : Q) (k : Z) :
  2 ^ k <= x -> x < 2 ^ (k + 1) -> binade x = k.
Proof.
  intros Hlo Hhi.
  assert (0 < x) as Hx by (pose proof (pow2_pos k); lra).
  destruct (binade_spec x Hx) as [Blo Bhi].
  assert (2 ^ k < 2 ^ (binade x + 1)) as A by lra.
  assert (2 ^ binade x < 2 ^ (k + 1)) as B by lra.
  apply Qpower_lt_compat_l_inv in A; [| reflexivity].
  apply Qpower_lt_compat_l_inv in B; [| reflexivity].
  lia.
Qed.

Lemma binade_comp (x y : Q) : 0 < x -> x == y -> binade x = binade y.
Proof.
  intros Hx E. symmetry. destruct (binade_spec x Hx) as [Lo Hi].
  apply binade_unique; rewrite <- E; assumption.
Qed.

Lemma binade_mono (x y : Q) : 0 < x -> x <= y -> (binade x <= binade y)%Z.
Proof.
  intros Hx Hxy.
  destruct (binade_spec x Hx) as [Lx _].
  destruct (binade_spec y) as [_ Hy]; [lra |].
  assert (2 ^ binade x < 2 ^ (binade y + 1)) as A by lra.
  apply Qpower_lt_compat_l_inv in A; [lia | reflexivity].
Qed.

(** *** Rounding to 53 bits *)

Lemma scaled_range (x : Q) (k : Z) :
  2 ^ k <= x -> x < 2 ^ (k + 1) ->
  4503599627370496 <= x / 2 ^ (k - 52) /\ x / 2 ^ (k - 52) < 9007199254740992.
Proof.
  intros Lo Hi.
  pose proof (pow2_pos (k - 52)) as E0.
  assert (2 ^ k == 4503599627370496 * 2 ^ (k - 52)) as Ek.
  { replace k with (52 + (k - 52))%Z at 1 by lia. rewrite pow2_plus. reflexivity. }
  assert (2 ^ (k + 1) == 9007199254740992 * 2 ^ (k - 52)) as Ek1.
  { replace (k + 1)%Z with (53 + (k - 52))%Z by lia. rewrite pow2_plus. reflexivity. }
  rewrite Ek in Lo. rewrite Ek1 in Hi. split.
  - apply Qle_shift_div_l; [exact E0 | exact Lo].
  - apply Qlt_shift_div_r; [exact E0 | exact Hi].
Qed.

Lemma round53_grid (x : Q) (k : Z) :
  2 ^ k <= x -> x < 2 ^ (k + 1) ->
  round53 x = inject_Z (nearest_even (x / 2 ^ (k - 52))) * 2 ^ (k - 52).
Proof.
  intros Lo Hi. unfold round53. rewrite (binade_unique x k Lo Hi). reflexivity.
Qed.

Lemma significand_range (x : Q) (k : Z) :
  2 ^ k <= x -> x < 2 ^ (k + 1) ->
  (4503599627370496 <= nearest_even (x / 2 ^ (k - 52)) <= 9007199254740992)%Z.
Proof.
  intros Lo Hi. destruct (scaled_range x k Lo Hi) as [A B]. split.
  - rewrite <- (nearest_even_Z 4503599627370496). apply nearest_even_mono. exact A.
  - rewrite <- (nearest_even_Z 9007199254740992). apply nearest_even_mono.
    apply Qlt_le_weak. exact B.
Qed.

Lemma round53_range (x : Q) (k : Z) :
  2 ^ k <= x -> x < 2 ^ (k + 1) ->
  2 ^ k <= round53 x /\ round53 x <= 2 ^ (k + 1).
Proof.
  intros Lo Hi. rewrite (round53_grid x k Lo Hi).
  destruct (significand_range x k Lo Hi) as [A B].
  pose proof (pow2_pos (k - 52)) as E0.
  rewrite Zle_Qle in A, B.
  change (inject_Z 4503599627370496) with 4503599627370496 in A.
  change (inject_Z 9007199254740992) with 9007199254740992 in B.
  assert (2 ^ k == 4503599627370496 * 2 ^ (k - 52)) as ->.
  { replace k with (52 + (k - 52))%Z at 1 by lia. rewrite pow2_plus. reflexivity. }
  assert (2 ^ (k + 1) == 9007199254740992 * 2 ^ (k - 52)) as ->.
  { replace (k + 1)%Z with (53 + (k - 52))%Z by lia. rewrite pow2_plus. reflexivity. }
  split; apply Qmult_le_compat_r; try assumption; lra.
Qed.

Lemma round53_comp (x y : Q) : 0 < x -> x == y -> round53 x == round53 y.
Proof.
  intros Hx E. unfold round53. rewrite <- (binade_comp x y Hx E).
  assert (x / 2 ^ (binade x - 52) == y / 2 ^ (binade x - 52)) as E'
    by (apply Qmult_comp; [exact E | reflexivity]).
  rewrite (nearest_even_comp _ _ E'). reflexivity.
Qed.

Lemma round53_pos (x : Q) : 0 < x -> 0 < round53 x.
Proof.
  intros Hx. destruct (binade_spec x Hx) as [Lo Hi].
  destruct (round53_range x _ Lo Hi) as [A _].
  pose proof (pow2_pos (binade x)). lra.
Qed.

Lemma round53_mono (x y : Q) : 0 < x -> x <= y -> round53 x <= round53 y.
Proof.
  intros Hx Hxy.
  assert (0 < y) as Hy by lra.
  destruct (binade_spec x Hx) as [Lx Ux]. destruct (binade_spec y Hy) as [Ly Uy].
  pose proof (binade_mono x y Hx Hxy) as Hk.
  destruct (Z.eq_dec (binade x) (binade y)) as [E | NE].
  - unfold round53. rewrite E.
    pose proof (pow2_pos (binade y - 52)) as E0.
    apply Qmult_le_compat_r; [| lra].
    rewrite <- Zle_Qle. apply nearest_even_mono.
    apply Qmult_le_compat_r; [exact Hxy |].
    apply Qlt_le_weak. apply Qinv_lt_0_compat. exact E0.
  - destruct (round53_range x _ Lx Ux) as [_ A].
    destruct (round53_range y _ Ly Uy) as [B _].
    assert (2 ^ (binade x + 1) <= 2 ^ binade y) as C by (apply pow2_le; lia).
    lra.
Qed.

Lemma round53_close (x : Q) :
  0 < x -> Qabs (round53 x - x) <= x * (1 # 9007199254740992).
Proof.
  intros Hx. destruct (binade_spec x Hx) as [Lo Hi].
  set (k := binade x) in *. unfold round53. fold k.
  pose proof (pow2_pos (k - 52)) as E0.
  set (E := 2 ^ (k - 52)) in *.
  pose proof (nearest_even_close (x / E)) as [C1 C2].
  set (n := inject_Z (nearest_even (x / E))) in *.
  assert (2 ^ k == 4503599627370496 * E) as Ek.
  { unfold E. replace k with (52 + (k - 52))%Z at 1 by lia.
    rewrite pow2_plus. reflexivity. }
  rewrite Ek in Lo.
  assert (n * E - x == (n - x / E) * E) as -> by (field; lra).
  apply Qabs_Qle_condition. split.
  - apply Qle_trans with (- (1 # 2) * E); [lra |].
    apply Qmult_le_compat_r; lra.
  - apply Qle_trans with ((1 # 2) * E); [| lra].
    apply Qmult_le_compat_r; lra.
Qed.

Lemma round53_idem (x : Q) : 0 < x -> round53 (round53 x) == round53 x.
Proof.
  intros Hx. destruct (binade_spec x Hx) as [Lo Hi].
  set (k := binade x) in *.
  destruct (significand_range x k Lo Hi) as [A B].
  rewrite (round53_grid x k Lo Hi).
  set (n := nearest_even (x / 2 ^ (k - 52))) in *.
  pose proof (pow2_pos (k - 52)) as E0.
  assert (2 ^ k == 4503599627370496 * 2 ^ (k - 52)) as Ek.
  { replace k with (52 + (k - 52))%Z at 1 by lia. rewrite pow2_plus. reflexivity. }
  assert (2 ^ (k + 1) == 9007199254740992 * 2 ^ (k - 52)) as Ek1.
  { replace (k + 1)%Z with (53 + (k - 52))%Z by lia. rewrite pow2_plus. reflexivity. }
  destruct (Z.eq_dec n 9007199254740992%Z) as [Top | NotTop].
  - rewrite Top.
    assert (inject_Z 9007199254740992 * 2 ^ (k - 52) == 2 ^ (k + 1)) as Ev
      by (rewrite Ek1; reflexivity).
    assert (0 < inject_Z 9007199254740992 * 2 ^ (k - 52)) as Hpos
      by (rewrite Ev; apply pow2_pos).
    rewrite (round53_comp _ _ Hpos Ev).
    rewrite (round53_grid (2 ^ (k + 1)) (k + 1)); [| lra | apply pow2_lt; lia].
    assert (2 ^ (k + 1 - 52) == 2 * 2 ^ (k - 52)) as Es.
    { replace (k + 1 - 52)%Z with ((k - 52) + 1)%Z by lia. apply pow2_succ. }
    assert (2 ^ (k + 1) / 2 ^ (k + 1 - 52) == inject_Z 4503599627370496) as E'.
    { rewrite Es, Ek1. change (inject_Z 4503599627370496) with 4503599627370496.
      field. lra. }
    rewrite (nearest_even_comp _ _ E'), nearest_even_Z, Es.
    change (inject_Z 4503599627370496) with 4503599627370496.
    change (inject_Z 9007199254740992) with 9007199254740992. ring.
  - assert (n <= 9007199254740991)%Z as B' by lia.
    rewrite Zle_Qle in A, B'.
    change (inject_Z 4503599627370496) with 4503599627370496 in A.
    change (inject_Z 9007199254740991) with 9007199254740991 in B'.
    rewrite (round53_grid (inject_Z n * 2 ^ (k - 52)) k).
    + assert (inject_Z n * 2 ^ (k - 52) / 2 ^ (k - 52) == inject_Z n) as E'
        by (field; lra).
      rewrite (nearest_even_comp _ _ E'), nearest_even_Z. reflexivity.
    + rewrite Ek. apply Qmult_le_compat_r; lra.
    + rewrite Ek1. apply Qmult_lt_compat_r; [exact E0 | lra].
Qed.

(** *** The nearest double *)

Lemma fl_zero (x : Q) : x == 0 -> fl x = 0.
Proof.
  intros E. unfold fl. apply Qeq_bool_iff in E. rewrite E. reflexivity.
Qed.

Lemma fl_pos_eq (x : Q) : 0 < x -> fl x == round53 x.
Proof.
  intros Hx. unfold fl.
  destruct (Qeq_bool x 0) eqn:E; [apply Qeq_bool_iff in E; lra |].
  assert (ltb x 0 = false) as ->.
  { unfold ltb. apply negb_false_iff. apply Qle_bool_iff. lra. }
  rewrite Qred_correct, Qmult_1_l.
  apply round53_comp.
  - rewrite Qabs_pos; lra.
  - apply Qabs_pos. lra.
Qed.

Lemma fl_neg_eq (x : Q) : x < 0 -> fl x == - round53 (- x).
Proof.
  intros Hx. unfold fl.
  destruct (Qeq_bool x 0) eqn:E; [apply Qeq_bool_iff in E; lra |].
  assert (ltb x 0 = true) as ->.
  { unfold ltb. apply negb_true_iff. destruct (Qle_bool 0 x) eqn:L; [| reflexivity].
    apply Qle_bool_iff in L. lra. }
  rewrite Qred_correct.
  assert (round53 (Qabs x) == round53 (- x)) as ->.
  { apply round53_comp.
    - rewrite Qabs_neg; lra.
    - apply Qabs_neg. lra. }
  ring.
Qed.

#[export] Instance fl_comp : Proper (Qeq ==> Qeq) fl.
Proof.
  intros x y E.
  destruct (Q_dec x 0) as [[Hneg | Hpos] | Hz].
  - rewrite (fl_neg_eq x Hneg), (fl_neg_eq y) by lra.
    apply Qopp_comp. apply round53_comp; [lra | rewrite E; reflexivity].
  - rewrite (fl_pos_eq x Hpos), (fl_pos_eq y) by lra.
    apply round53_comp; assumption.
  - rewrite (fl_zero x Hz), (fl_zero y) by (rewrite <- E; exact Hz). reflexivity.
Qed.

Lemma fl_opp (x : Q) : fl (- x) == - fl x.
Proof.
  destruct (Q_dec x 0) as [[Hneg | Hpos] | Hz].
  - rewrite (fl_neg_eq x Hneg), (fl_pos_eq (- x)) by lra. ring.
  - rewrite (fl_pos_eq x Hpos), (fl_neg_eq (- x)) by lra.
    assert (round53 (- - x) == round53 x) as ->; [| reflexivity].
    apply round53_comp; [lra | ring].
  - rewrite (fl_zero x Hz), (fl_zero (- x)) by lra. reflexivity.
Qed.

Lemma fl_pos (x : Q) : 0 < x -> 0 < fl x.
Proof.
  intros Hx. rewrite (fl_pos_eq x Hx). apply round53_pos. exact Hx.
Qed.

Lemma fl_neg (x : Q) : x < 0 -> fl x < 0.
Proof.
  intros Hx. rewrite (fl_neg_eq x Hx).
  assert (0 < round53 (- x)) by (apply round53_pos; lra). lra.
Qed.

Lemma fl_nonneg (x : Q) : 0 <= x -> 0 <= fl x.
Proof.
  intros Hx. destruct (Qle_lt_or_eq _ _ Hx) as [H | H].
  - apply Qlt_le_weak. apply fl_pos. exact H.
  - rewrite (fl_zero x) by (symmetry; exact H). lra.
Qed.

Lemma fl_nonpos (x : Q) : x <= 0 -> fl x <= 0.
Proof.
  intros Hx. destruct (Qle_lt_or_eq _ _ Hx) as [H | H].
  - apply Qlt_le_weak. apply fl_neg. exact H.
  - rewrite (fl_zero x H). lra.
Qed.

Lemma fl_mono (x y : Q) : x <= y -> fl x <= fl y.
Proof.
  intros Hxy.
  destruct (Q_dec x 0) as [[Xn | Xp] | Xz].
  - destruct (Q_dec y 0) as [[Yn | Yp] | Yz].
    + rewrite (fl_neg_eq x Xn), (fl_neg_eq y Yn).
      assert (round53 (- y) <= round53 (- x)) by (apply round53_mono; lra). lra.
    + pose proof (fl_neg x Xn). pose proof (fl_pos y Yp). lra.
    + pose proof (fl_neg x Xn). rewrite (fl_zero y Yz). lra.
  - rewrite (fl_pos_eq x Xp), (fl_pos_eq y) by lra. apply round53_mono; assumption.
  - rewrite (fl_zero x Xz). apply fl_nonneg. lra.
Qed.

Lemma fl_idem (x : Q) : fl (fl x) == fl x.
Proof.
  destruct (Q_dec x 0) as [[Xn | Xp] | Xz].
  - pose proof (fl_neg x Xn) as H.
    rewrite (fl_neg_eq (fl x) H).
    assert (- fl x == round53 (- x)) as E by (rewrite (fl_neg_eq x Xn); ring).
    assert (0 < - fl x) as Hp by lra.
    rewrite (round53_comp _ _ Hp E), round53_idem by lra.
    rewrite (fl_neg_eq x Xn). reflexivity.
  - pose proof (fl_pos x Xp) as H.
    rewrite (fl_pos_eq (fl x) H).
    rewrite (round53_comp _ _ H (fl_pos_eq x Xp)), round53_idem by exact Xp.
    symmetry. apply fl_pos_eq. exact Xp.
  - rewrite (fl_zero x Xz). reflexivity.
Qed.

(** The relative error of one rounding is at most [2^-53]. *)
Lemma fl_close (x : Q) : Qabs (fl x - x) <= Qabs x * (1 # 9007199254740992).
Proof.
  destruct (Q_dec x 0) as [[Xn | Xp] | Xz].
  - rewrite (fl_neg_eq x Xn), (Qabs_neg x) by lra.
    assert (- round53 (- x) - x == - (round53 (- x) - - x)) as -> by ring.
    rewrite Qabs_opp. apply round53_close. lra.
  - rewrite (fl_pos_eq x Xp), (Qabs_pos x) by lra. apply round53_close. exact Xp.
  - rewrite (fl_zero x Xz).
    assert (0 - x == 0) as -> by lra. rewrite Xz. discriminate.
Qed.

(** Where a double with an even significand starts to be the answer:
    [N * 2^e] with [2^52 < N <= 2^53]. *)
Lemma fl_ge_iff (x : Q) (N e : Z) :
  (4503599627370496 < N <= 9007199254740992)%Z -> Z.even N = true ->
  (inject_Z N * 2 ^ e <= fl x <-> (inject_Z N - (1 # 2)) * 2 ^ e <= x).
Proof.
  intros [N1 N2] Heven.
  pose proof (pow2_pos e) as E0.
  set (k := (e + 52)%Z).
  assert (e = k - 52)%Z as He by (unfold k; lia).
  assert (2 ^ k == 4503599627370496 * 2 ^ e) as Ek.
  { unfold k. replace (e + 52)%Z with (52 + e)%Z by lia. rewrite pow2_plus. reflexivity. }
  assert (2 ^ (k + 1) == 9007199254740992 * 2 ^ e) as Ek1.
  { unfold k. replace (e + 52 + 1)%Z with (53 + e)%Z by lia. rewrite pow2_plus. reflexivity. }
  assert (4503599627370497 <= N)%Z as N1' by lia.
  rewrite Zle_Qle in N1', N2.
  change (inject_Z 4503599627370497) with 4503599627370497 in N1'.
  change (inject_Z 9007199254740992) with 9007199254740992 in N2.
  set (n := inject_Z N) in *.
  assert (fl (2 ^ k) == 2 ^ k) as Fk.
  { rewrite (fl_pos_eq _ (pow2_pos k)).
    rewrite (round53_grid (2 ^ k) k); [| lra | apply pow2_lt; lia].
    rewrite <- He.
    assert (2 ^ k / 2 ^ e == inject_Z 4503599627370496) as E'.
    { rewrite Ek. change (inject_Z 4503599627370496) with 4503599627370496. field. lra. }
    rewrite (nearest_even_comp _ _ E'), nearest_even_Z, Ek. reflexivity. }
  assert (4503599627370496 * 2 ^ e < n * 2 ^ e) as Hbig.
  { apply Qmult_lt_compat_r; [exact E0 | lra]. }
  destruct (Qlt_le_dec x (2 ^ k)) as [Small | Big].
  - (* below the binade *)
    split; intros H; exfalso.
    + pose proof (fl_mono x (2 ^ k) (Qlt_le_weak _ _ Small)) as M.
      rewrite Fk, Ek in M. lra.
    + assert (4503599627370496 * 2 ^ e <= (n - (1 # 2)) * 2 ^ e) as C.
      { apply Qmult_le_compat_r; lra. }
      rewrite Ek in Small. lra.
  - destruct (Qlt_le_dec x (2 ^ (k + 1))) as [In | Above].
    + (* in the binade *)
      assert (0 < x) as Hx by (pose proof (pow2_pos k); lra).
      rewrite (fl_pos_eq x Hx), (round53_grid x k Big In), <- He.
      split; intros H.
      * destruct (Qlt_le_dec x ((n - (1 # 2)) * 2 ^ e)) as [Lt | Ge]; [| exact Ge].
        exfalso.
        assert (x / 2 ^ e < n - (1 # 2)) as Lt'.
        { apply Qlt_shift_div_r; [exact E0 | exact Lt]. }
        pose proof (nearest_even_below _ N Lt') as B.
        assert (inject_Z (nearest_even (x / 2 ^ e)) <= n - 1) as B'.
        { unfold n. rewrite <- (inject_Z_sub N 1). rewrite <- Zle_Qle. exact B. }
        assert (n <= inject_Z (nearest_even (x / 2 ^ e))) as C.
        { apply Qmult_le_r with (2 ^ e); [exact E0 | exact H]. }
        lra.
      * apply Qmult_le_compat_r; [| lra].
        unfold n. rewrite <- Zle_Qle. apply nearest_even_above; [exact Heven |].
        apply Qle_shift_div_l; [exact E0 | exact H].
    + (* above the binade *)
      assert (fl (2 ^ (k + 1)) == 2 ^ (k + 1)) as Fk1.
      { rewrite (fl_pos_eq _ (pow2_pos (k + 1))).
        rewrite (round53_grid (2 ^ (k + 1)) (k + 1));
          [| lra | apply pow2_lt; lia].
        assert (2 ^ (k + 1 - 52) == 2 * 2 ^ e) as Es.
        { replace (k + 1 - 52)%Z with (e + 1)%Z by lia. apply pow2_succ. }
        assert (2 ^ (k + 1) / 2 ^ (k + 1 - 52) == inject_Z 4503599627370496) as E'.
        { rewrite Es, Ek1. change (inject_Z 4503599627370496) with 4503599627370496.
          field. lra. }
        rewrite (nearest_even_comp _ _ E'), nearest_even_Z, Es, Ek1.
        change (inject_Z 4503599627370496) with 4503599627370496. ring. }
      pose proof (fl_mono _ _ Above) as M. rewrite Fk1, Ek1 in M.
      assert (n * 2 ^ e <= 9007199254740992 * 2 ^ e) as C.
      { apply Qmult_le_compat_r; lra. }
      assert ((n - (1 # 2)) * 2 ^ e <= n * 2 ^ e) as C'.
      { apply Qmult_le_compat_r; lra. }
      rewrite Ek1 in Above.
      split; intros _; lra.
Qed.

(** *** The four operations *)

#[export] Instance fadd_comp : Proper (Qeq ==> Qeq ==> Qeq) fadd.
Proof. intros x x' Ex y y' Ey. unfold fadd. rewrite Ex, Ey. reflexivity. Qed.

#[export] Instance fsub_comp : Proper (Qeq ==> Qeq ==> Qeq) fsub.
Proof. intros x x' Ex y y' Ey. unfold fsub. rewrite Ex, Ey. reflexivity. Qed.

#[export] Instance fmul_comp : Proper (Qeq ==> Qeq ==> Qeq) fmul.
Proof. intros x x' Ex y y' Ey. unfold fmul. rewrite Ex, Ey. reflexivity. Qed.

#[export] Instance fdiv_comp : Proper (Qeq ==> Qeq ==> Qeq) fdiv.
Proof. intros x x' Ex y y' Ey. unfold fdiv. rewrite Ex, Ey. reflexivity. Qed.

Lemma fmul_nonneg (x y : Q) : 0 <= x -> 0 <= y -> 0 <= fmul x y.
Proof.
  intros Hx Hy. unfold fmul. apply fl_nonneg.
  apply Qmult_le_0_compat; apply fl_nonneg; assumption.
Qed.

Lemma fdiv_nonneg (x y : Q) : 0 <= x -> 0 < y -> 0 <= fdiv x y.
Proof.
  intros Hx Hy. unfold fdiv. apply fl_nonneg.
  apply Qle_shift_div_l; [apply fl_pos; exact Hy |].
  rewrite Qmult_0_l. apply fl_nonneg. exact Hx.
Qed.

(** *** [toFixed] *)

Lemma toFixed_value_comp (x y : Q) (f : nat) :
  x == y -> toFixed_value x f = toFixed_value y f.
Proof.
  intros E. unfold toFixed_value, toFixed_scaled, ltb.
  rewrite (Qleb_comp 0 0 (Qeq_refl 0) x y E).
  assert (Qabs x * inject_Z (10 ^ Z.of_nat f) + (1 # 2)
          == Qabs y * inject_Z (10 ^ Z.of_nat f) + (1 # 2)) as E'
    by (rewrite E; reflexivity).
  rewrite (Qfloor_comp _ _ E'). reflexivity.
Qed.

Lemma fl_positive_iff (x : Q) : 0 < fl x <-> 0 < x.
Proof.
  split.
  - intros H. apply Qnot_le_lt. intros Hx. apply fl_nonpos in Hx. lra.
  - apply fl_pos.
Qed.

(** The double product within a relative [2^-51] of the exact one. *)
Lemma fmul_close (a q : Q) :
  0 <= a -> 0 <= q -> fl q == q ->
  Qabs (fmul a q - a * q) <= a * q * (1 # 2251799813685248).
Proof.
  intros Ha Hq Eq. unfold fmul. rewrite Eq.
  pose proof (fl_close a) as Ca. rewrite (Qabs_pos a Ha) in Ca.
  apply Qabs_Qle_condition in Ca. destruct Ca as [Ca1 Ca2].
  pose proof (fl_nonneg a Ha) as HA.
  set (A := fl a) in *.
  pose proof (fl_close (A * q)) as Cp.
  assert (0 <= A * q) as HAq by (apply Qmult_le_0_compat; assumption).
  rewrite (Qabs_pos _ HAq) in Cp.
  apply Qabs_Qle_condition in Cp. destruct Cp as [Cp1 Cp2].
  set (F := fl (A * q)) in *.
  assert (0 <= a * q) as Haq by (apply Qmult_le_0_compat; assumption).
  assert (A * q - a * q <= a * q * (1 # 9007199254740992)) as D1.
  { assert (A * q - a * q == (A - a) * q) as -> by ring.
    assert (a * q * (1 # 9007199254740992) == a * (1 # 9007199254740992) * q) as -> by ring.
    apply Qmult_le_compat_r; [lra | exact Hq]. }
  assert (- (a * q * (1 # 9007199254740992)) <= A * q - a * q) as D2.
  { assert (A * q - a * q == (A - a) * q) as -> by ring.
    assert (- (a * q * (1 # 9007199254740992))
            == - (a * (1 # 9007199254740992)) * q) as -> by ring.
    apply Qmult_le_compat_r; [lra | exact Hq]. }
  set (x := a * q) in *. set (y := A * q) in *.
  apply Qabs_Qle_condition. split; lra.
Qed.

(** Rounding stays between doubles. *)
Lemma fl_le_double (x c : Q) : fl c == c -> x <= c -> fl x <= c.
Proof. intros Ec H. rewrite <- Ec. apply fl_mono. exact H. Qed.

Lemma fl_ge_double (x c : Q) : fl c == c -> c <= x -> c <= fl x.
Proof. intros Ec H. rewrite <- Ec. apply fl_mono. exact H. Qed.

(** Rounding a number that is not negative moves it by a relative
    [2^-53] at most. *)
Lemma fl_bounds (x : Q) :
  0 <= x ->
  x * (1 - (1 # 9007199254740992)) <= fl x <= x * (1 + (1 # 9007199254740992)).
Proof.
  intros Hx. pose proof (fl_close x) as C. rewrite (Qabs_pos x Hx) in C.
  apply Qabs_Qle_condition in C. destruct C as [C1 C2]. split; lra.
Qed.

Lemma fl_zero_iff (x : Q) : fl x == 0 <-> x == 0.
Proof.
  split.
  - intros H. destruct (Qlt_le_dec 0 x) as [Hp | Hn].
    + apply fl_pos in Hp. lra.
    + destruct (Qlt_le_dec x 0) as [Hn' | Hz]; [apply fl_neg in Hn'; lra | lra].
  - intros H. rewrite (fl_zero x H). reflexivity.
Qed.

Lemma fdiv_pos_iff (s e : Q) : 0 < e -> (0 < fdiv s e <-> 0 < s).
Proof.
  intros He. unfold fdiv. rewrite fl_positive_iff.
  pose proof (fl_pos e He) as He'. rewrite <- (fl_positive_iff s).
  split; intros H.
  - apply Qnot_le_lt. intros Hs.
    assert (fl s / fl e <= 0); [| lra].
    apply Qle_shift_div_r; [exact He' | lra].
  - apply Qlt_shift_div_l; [exact He' | lra].
Qed.

(** A share [(s / e) * 100] is positive exactly when [s] is, and does not
    exceed 100 when [s] does not exceed [e]. *)
Lemma percent_pos_iff (s e : Q) : 0 < e -> (0 < fmul (fdiv s e) 100 <-> 0 < s).
Proof.
  intros He. rewrite <- (fdiv_pos_iff s e He).
  unfold fmul. rewrite fl_positive_iff.
  assert (fl 100 == 100) as -> by (vm_compute; reflexivity).
  rewrite <- (fl_positive_iff (fdiv s e)). split; intros H; lra.
Qed.

Lemma percent_le_100 (s e : Q) : 0 < e -> fl s <= fl e -> fmul (fdiv s e) 100 <= 100.
Proof.
  intros He Hs. pose proof (fl_pos e He) as He'.
  assert (fl 1 == 1) as E1 by (vm_compute; reflexivity).
  assert (fl 100 == 100) as E100 by (vm_compute; reflexivity).
  assert (fdiv s e <= 1) as Hq.
  { unfold fdiv. apply fl_le_double; [exact E1 |].
    apply Qle_shift_div_r; [exact He' | lra]. }
  unfold fmul. apply fl_le_double; [exact E100 |].
  rewrite E100. apply (fl_le_double _ 1 E1) in Hq. lra.
Qed.

End JsProofs.


(* ===================================================================== *)
(** ** Properties of the settlement contract                              *)
(* ===================================================================== *)

Module ArbfarmProofs.

Import Arbfarm.
Local Open Scope N_scope.

(** *** Stepping through a transaction *)

Lemma bind_commits {A B} (m : Tx A) (f : A -> Tx B) s b s' :
  (m ≫= f) s = inr (b, s') ->
  exists a s1, m s = inr (a, s1) /\ f a s1 = inr (b, s').
Proof.
  unfold mbind, Tx_bind. destruct (m s) as [e | [a s1]]; [discriminate |].
  intros H. exists a, s1. split; [reflexivity | exact H].
Qed.

Lemma require_commits cond e s u s' :
  require cond e s = inr (u, s') -> cond = true /\ s' = s.
Proof.
  unfold require. destruct cond; cbn; [| discriminate].
  intros H. injection H as _ <-. split; reflexivity.
Qed.

Lemma checked_add_commits a b s r s' :
  checked_add a b s = inr (r, s') -> r = a + b /\ a + b <= MAX_UINT256 /\ s' = s.
Proof.
  unfold checked_add. destruct (a + b <=? MAX_UINT256) eqn:E; cbn; [| discriminate].
  intros H. injection H as <- <-. apply N.leb_le in E. auto.
Qed.

Lemma checked_sub_commits a b s r s' :
  checked_sub a b s = inr (r, s') -> r = a - b /\ b <= a /\ s' = s.
Proof.
  unfold checked_sub. destruct (b <=? a) eqn:E; cbn; [| discriminate].
  intros H. injection H as <- <-. apply N.leb_le in E. auto.
Qed.

Lemma ether_out_commits v s u s' :
  ether_out v s = inr (u, s') ->
  v <= selfBalance s /\
  s' = {| userBalances := userBalances s;
          userTransactions := userTransactions s;
          selfBalance := selfBalance s - v;
          events := events s |}.
Proof.
  unfold ether_out. destruct (v <=? selfBalance s) eqn:E; [| discriminate].
  intros H. injection H as <-. apply N.leb_le in E. auto.
Qed.

Lemma balance_insert (m : gmap address N) user v other :
  default 0 (<[user := v]> m !! other)
  = if decide (user = other) then v else default 0 (m !! other).
Proof.
  rewrite lookup_insert. destruct (decide (user = other)); reflexivity.
Qed.

Ltac balances :=
  unfold balanceOf; cbn [userBalances userTransactions selfBalance events];
  rewrite ?balance_insert.

(** One step of inversion on a committed transaction: [H] is the run of
    [m ≫= f]; afterwards [H1] is the fact the first step [m] leaves behind
    and [H] is the run of the rest. *)
Tactic Notation "tx_step" hyp(H) "as" ident(H1) :=
  let a := fresh "r" in
  let s1 := fresh "s" in
  apply bind_commits in H; destruct H as (a & s1 & H1 & H);
  first
    [ apply require_commits in H1; destruct H1 as [H1 ->]
    | apply checked_add_commits in H1; destruct H1 as (-> & H1 & ->)
    | apply checked_sub_commits in H1; destruct H1 as (-> & H1 & ->)
    | apply ether_out_commits in H1; destruct H1 as [H1 ->]
    | idtac ].

(** What a committed [receive] did. *)
Lemma receive_commits msg s u s' :
  receive msg s = inr (u, s') ->
  balanceOf s (sender msg) + value msg <= MAX_UINT256 /\
  s' = {| userBalances :=
            <[sender msg := balanceOf s (sender msg) + value msg]> (userBalances s);
          userTransactions := userTransactions s;
          selfBalance := selfBalance s + value msg;
          events := events s ++ [Deposited (sender msg) (value msg)] |}.
Proof.
  unfold receive. intros H.
  tx_step H as Hin. injection Hin as <- <-.
  tx_step H as Hread. injection Hread as <- <-.
  tx_step H as Hfit.
  tx_step H as Hwrite. injection Hwrite as <- <-.
  cbn in H. injection H as <- <-. split; [exact Hfit | reflexivity].
Qed.

Lemma receive_runs msg s :
  balanceOf s (sender msg) + value msg <= MAX_UINT256 ->
  receive msg s =
  inr (tt, {| userBalances :=
                <[sender msg := balanceOf s (sender msg) + value msg]> (userBalances s);
              userTransactions := userTransactions s;
              selfBalance := selfBalance s + value msg;
              events := events s ++ [Deposited (sender msg) (value msg)] |}).
Proof.
  intros Hfit. apply N.leb_le in Hfit.
  unfold receive, mbind, Tx_bind, ether_in, read_userBalances, checked_add.
  cbn. unfold balanceOf at 1. cbn. fold (balanceOf s (sender msg)).
  rewrite Hfit. reflexivity.
Qed.

End ArbfarmProofs.

Module ArbfarmClaims.

Import Arbfarm ArbfarmProofs.
Local Open Scope N_scope.

(** C10. A plain ether transfer ([receive]) credits [msg.value] to the
    sender and logs [Deposited] whatever the value is: with value zero it
    commits and leaves every balance as it was, where [deposit] reverts
    with "Zero deposit"; with a positive value the two do the same. *)
Theorem receive_has_no_positive_amount_check (msg : Msg) (s : State) :
  balanceOf s (sender msg) + value msg <= MAX_UINT256 ->
  (exists s',
      call (receive msg) s = Committed s' /\
      balanceOf s' (sender msg) = balanceOf s (sender msg) + value msg /\
      (forall u, u <> sender msg -> balanceOf s' u = balanceOf s u) /\
      (value msg = 0 -> forall u, balanceOf s' u = balanceOf s u) /\
      userTransactions s' = userTransactions s /\
      selfBalance s' = selfBalance s + value msg /\
      events s' = events s ++ [Deposited (sender msg) (value msg)]) /\
  (value msg = 0 -> call (deposit msg) s = Reverted ZeroDeposit) /\
  (0 < value msg -> call (deposit msg) s = call (receive msg) s).
Proof.
  intros Hfit. split; [| split].
  - eexists. unfold call. rewrite (receive_runs msg s Hfit).
    split; [reflexivity |].
    repeat split; try reflexivity.
    + balances. destruct (decide (sender msg = sender msg)); congruence.
    + intros u Hu. balances.
      destruct (decide (sender msg = u)); congruence.
    + intros Hzero u. balances.
      destruct (decide (sender msg = u)) as [<- | _]; [lia | reflexivity].
  - intros Hzero. unfold call, deposit, mbind, Tx_bind, ether_in, require.
    rewrite Hzero. reflexivity.
  - intros Hpos. unfold call, deposit, receive, mbind, Tx_bind, ether_in, require.
    apply N.ltb_lt in Hpos. rewrite Hpos. reflexivity.
Qed.

Lemma receive_has_no_positive_amount_check_witness :
  (exists s',
      call (receive from_alice) ledger0 = Committed s' /\
      balanceOf s' alice = balanceOf ledger0 alice + 0 /\
      (forall u, u <> alice -> balanceOf s' u = balanceOf ledger0 u) /\
      (0 = 0 -> forall u, balanceOf s' u = balanceOf ledger0 u) /\
      userTransactions s' = userTransactions ledger0 /\
      selfBalance s' = selfBalance ledger0 + 0 /\
      events s' = events ledger0 ++ [Deposited alice 0]) /\
  (0 = 0 -> call (deposit from_alice) ledger0 = Reverted ZeroDeposit) /\
  (0 < 0 -> call (deposit from_alice) ledger0 = call (receive from_alice) ledger0).
Proof.
  apply (receive_has_no_positive_amount_check from_alice ledger0).
  apply N.leb_le. vm_compute. reflexivity.
Defined.

(** What a committed [withdraw] did. *)
Lemma withdraw_commits env msg amount s u s' :
  withdraw env msg amount s = inr (u, s') ->
  0 < amount /\ amount <= balanceOf s (sender msg) /\
  amount <= selfBalance s /\ accepts_ether env (sender msg) amount = true /\
  s' = {| userBalances :=
            <[sender msg := balanceOf s (sender msg) - amount]> (userBalances s);
          userTransactions := userTransactions s;
          selfBalance := selfBalance s - amount;
          events := events s ++ [Withdrawn (sender msg) amount] |}.
Proof.
  unfold withdraw, transfer. intros H.
  tx_step H as Hpos.
  tx_step H as Hread. injection Hread as <- <-.
  tx_step H as Hbal.
  tx_step H as Hsub.
  tx_step H as Hwrite. injection Hwrite as <- <-.
  tx_step H as Hsend.
  tx_step Hsend as Hout. apply require_commits in Hsend. destruct Hsend as [Hacc ->].
  cbn in H. injection H as <- <-.
  apply N.ltb_lt in Hpos. apply N.leb_le in Hbal.
  repeat split; assumption || reflexivity.
Qed.

(** C8 (as amended). [withdraw] never goes through for more than the
    caller's balance: it reverts with "Insufficient balance" and the ledger
    stays as it was.  It goes through, debiting exactly [amount] and sending
    the ether, when [0 < amount <= balance] and the transfer to the caller
    succeeds; a committed withdrawal always debited exactly [amount]; and
    [amount = 0] is rejected with "Zero withdraw". *)
Theorem withdraw_guards (env : Deployment) (msg : Msg) (amount : N) (s : State) :
  (balanceOf s (sender msg) < amount ->
     call (withdraw env msg amount) s = Reverted InsufficientBalance /\
     ledger_after s (call (withdraw env msg amount) s) = s) /\
  (0 < amount -> amount <= balanceOf s (sender msg) ->
     amount <= selfBalance s -> accepts_ether env (sender msg) amount = true ->
     withdrawn env msg amount s) /\
  (forall s', call (withdraw env msg amount) s = Committed s' ->
     0 < amount /\ amount <= balanceOf s (sender msg) /\
     balanceOf s' (sender msg) = balanceOf s (sender msg) - amount /\
     selfBalance s' = selfBalance s - amount) /\
  (amount = 0 -> call (withdraw env msg amount) s = Reverted ZeroWithdraw).
Proof.
  split; [| split; [| split]].
  - intros Hover.
    assert (Hpos : (0 <? amount) = true) by (apply N.ltb_lt; lia).
    assert (Hlow : (amount <=? balanceOf s (sender msg)) = false)
      by (apply N.leb_gt; exact Hover).
    assert (E : call (withdraw env msg amount) s = Reverted InsufficientBalance).
    { unfold call, withdraw, mbind, Tx_bind, require, read_userBalances.
      rewrite Hpos. cbn. rewrite Hlow. reflexivity. }
    rewrite E. split; reflexivity.
  - intros Hpos Hbal Heth Hacc.
    apply N.ltb_lt in Hpos. pose proof Hbal as Hbal'. apply N.leb_le in Hbal.
    pose proof Heth as Heth'. apply N.leb_le in Heth.
    eexists. split.
    + unfold call, withdraw, transfer, mbind, Tx_bind, require, read_userBalances,
        checked_sub, write_userBalances, ether_out, emit.
      rewrite Hpos.
      repeat (cbn -[balanceOf N.leb N.sub]; rewrite ?Hbal, ?Heth, ?Hacc).
      reflexivity.
    + cbn [events selfBalance]. repeat split; try lia.
      balances. destruct (decide (sender msg = sender msg)); [| congruence].
      fold (balanceOf s (sender msg)). lia.
  - intros s' Hc. unfold call in Hc.
    destruct (withdraw env msg amount s) as [e | [u s1]] eqn:E; [discriminate |].
    injection Hc as ->. apply withdraw_commits in E.
    destruct E as (Hpos & Hbal & Heth & Hacc & ->).
    repeat split; try assumption.
    balances. destruct (decide (sender msg = sender msg)); congruence.
  - intros ->. reflexivity.
Qed.

Lemma withdraw_guards_witness :
  (balanceOf ledger0 alice < 2000 ->
     call (withdraw venue from_alice 2000) ledger0 = Reverted InsufficientBalance /\
     ledger_after ledger0 (call (withdraw venue from_alice 2000) ledger0) = ledger0) /\
  withdrawn venue from_alice 2000 ledger0.
Proof.
  pose proof (withdraw_guards venue from_alice 2000 ledger0) as (Hover & Hgo & _).
  split; [exact Hover |].
  apply Hgo.
  - apply N.ltb_lt. vm_compute. reflexivity.
  - apply N.leb_le. vm_compute. reflexivity.
  - apply N.leb_le. vm_compute. reflexivity.
  - vm_compute. reflexivity.
Defined.

(** C8, as stated, fails at [amount = 0]: zero is within any balance, yet
    the call reverts with "Zero withdraw" instead of going through. *)
Lemma withdraw_zero_is_rejected :
  0 <= balanceOf ledger0 alice /\
  call (withdraw venue from_alice 0) ledger0 = Reverted ZeroWithdraw /\
  ~ withdrawn venue from_alice 0 ledger0.
Proof.
  split; [apply N.le_0_l |]. split; [reflexivity |].
  intros (s' & Hc & _). discriminate Hc.
Qed.

(** What a committed [executeArb] did: both swaps returned something, the
    ether came back through [receive], the measured profit met the floor,
    and the final ledger is the one written here. *)
Lemma executeArb_commits env msg amountIn minProfit s u s' :
  executeArb env msg amountIn minProfit s = inr (u, s') ->
  exists wethReceived profit mid,
    0 < amountIn /\ amountIn <= balanceOf s (sender msg) /\
    selfBalance s - amountIn + wethReceived = selfBalance s + profit /\
    minProfit <= profit /\
    receive {| sender := WETH env; value := wethReceived;
               block_timestamp := block_timestamp msg |}
      {| userBalances :=
           <[sender msg := balanceOf s (sender msg) - amountIn]> (userBalances s);
         userTransactions := userTransactions s;
         selfBalance := selfBalance s - amountIn;
         events := events s |} = inr (tt, mid) /\
    s' = {| userBalances :=
              <[sender msg := balanceOf mid (sender msg) + (amountIn + profit)]>
                (userBalances mid);
            userTransactions :=
              <[sender msg :=
                  transactionsOf s (sender msg) ++
                  [{| timestamp := block_timestamp msg; amountIn := amountIn;
                      profit := profit; isExecuteArb := true |}]]>
                (userTransactions s);
            selfBalance := selfBalance s + profit;
            events := events mid ++
                      [ArbitrageExecuted (sender msg) (selfBalance s)
                         (selfBalance s + profit) profit] |}.
Proof.
  unfold executeArb, IWETH_deposit, IWETH_withdraw, ISwapRouter_exactInputSingle.
  intros H.
  tx_step H as Hpos.
  tx_step H as Hread. injection Hread as <- <-.
  tx_step H as Hbal.
  tx_step H as Hbefore. injection Hbefore as <- <-.
  tx_step H as Hsub.
  tx_step H as Hwrite. injection Hwrite as <- <-.
  tx_step H as Hdep.
  tx_step Hdep as Hout. apply require_commits in Hdep. destruct Hdep as [_ ->].
  tx_step H as Happrove1.
  tx_step H as Hdeadline1.
  tx_step H as Hswap1.
  destruct (exactInputSingle env _) as [usdcReceived |]; [| discriminate].
  injection Hswap1 as <- <-.
  tx_step H as Husdc.
  tx_step H as Happrove2.
  tx_step H as Hdeadline2.
  tx_step H as Hswap2.
  destruct (exactInputSingle env _) as [wethReceived |]; [| discriminate].
  injection Hswap2 as <- <-.
  tx_step H as Hweth.
  tx_step H as Hback.
  tx_step Hback as Hallowed.
  repeat match goal with x : unit |- _ => destruct x end.
  pose proof Hback as Hmid.
  apply receive_commits in Hback. destruct Hback as [Hfit Emid].
  tx_step H as Hafter. injection Hafter as <- <-.
  tx_step H as Hprofit.
  tx_step H as Hmin.
  tx_step H as Hcredit.
  tx_step H as Hcur. injection Hcur as <- <-.
  tx_step H as Hnew.
  tx_step H as Hwrite2. injection Hwrite2 as <- <-.
  tx_step H as Hpush. injection Hpush as <- <-.
  cbn in H. injection H as <-.
  apply N.ltb_lt in Hpos. apply N.leb_le in Hbal. apply N.leb_le in Hmin.
  assert (Eeth : selfBalance s0 = selfBalance s - amountIn + wethReceived)
    by (rewrite Emid; reflexivity).
  assert (Etx : userTransactions s0 = userTransactions s)
    by (rewrite Emid; reflexivity).
  cbn [selfBalance] in Hprofit, Hout.
  exists wethReceived, (selfBalance s0 - selfBalance s), s0.
  assert (Eprofit : selfBalance s + (selfBalance s0 - selfBalance s) = selfBalance s0)
    by lia.
  split; [exact Hpos |]. split; [exact Hbal |]. split; [lia |].
  split; [exact Hmin |]. split; [exact Hmid |].
  rewrite Eprofit. unfold transactionsOf. cbn [userTransactions].
  rewrite Etx. reflexivity.
Qed.

(** C1. A call of [executeArb] whose caller's balance covers [amountIn]
    either commits, and then the ether the contract holds went up by a
    profit of at least [minProfit], the caller's balance was credited with
    [amountIn + profit] (on top of the old balance less [amountIn], for
    every caller but the token contract, whose own entry [receive] also
    credits), and one [Transaction] record was appended to the caller's
    log; or it reverts, and the ledger is the one before the call.  Nothing
    in between is ever the outcome. *)
Theorem executeArb_all_or_nothing (env : Deployment) (msg : Msg)
    (amountIn minProfit : N) (s : State) :
  amountIn <= balanceOf s (sender msg) ->
  (exists s' profit debited,
      call (executeArb env msg amountIn minProfit) s = Committed s' /\
      selfBalance s' = selfBalance s + profit /\
      minProfit <= profit /\
      balanceOf s' (sender msg) = debited + (amountIn + profit) /\
      (sender msg <> WETH env -> debited = balanceOf s (sender msg) - amountIn) /\
      transactionsOf s' (sender msg) =
        transactionsOf s (sender msg) ++
        [{| timestamp := block_timestamp msg; amountIn := amountIn;
            profit := profit; isExecuteArb := true |}])
  \/
  (exists why,
      call (executeArb env msg amountIn minProfit) s = Reverted why /\
      ledger_after s (call (executeArb env msg amountIn minProfit) s) = s).
Proof.
  intros Hcovers. unfold call.
  destruct (executeArb env msg amountIn minProfit s) as [why | [u s']] eqn:E.
  - right. exists why. split; reflexivity.
  - left. apply executeArb_commits in E.
    destruct E as (wethReceived & profit & mid & Hpos & _ & Heth & Hmin & Hmid & ->).
    eexists. exists profit, (balanceOf mid (sender msg)).
    split; [reflexivity |]. cbn [selfBalance].
    split; [reflexivity |]. split; [exact Hmin |]. split; [| split].
    + balances. destruct (decide (sender msg = sender msg)); [| congruence].
      reflexivity.
    + intros Hcaller. apply receive_commits in Hmid. destruct Hmid as [_ ->].
      balances. cbn [sender].
      destruct (decide (WETH env = sender msg)); [congruence |].
      destruct (decide (sender msg = sender msg)); [| congruence].
      reflexivity.
    + unfold transactionsOf at 1. cbn [userTransactions].
      rewrite lookup_insert_eq. reflexivity.
Qed.

Lemma executeArb_all_or_nothing_witness :
  (exists s' profit debited,
      call (executeArb venue from_alice 2990 10) ledger0 = Committed s' /\
      selfBalance s' = selfBalance ledger0 + profit /\
      10 <= profit /\
      balanceOf s' alice = debited + (2990 + profit) /\
      (alice <> WETH venue -> debited = balanceOf ledger0 alice - 2990) /\
      transactionsOf s' alice =
        transactionsOf ledger0 alice ++
        [{| timestamp := 1700000000; amountIn := 2990;
            profit := profit; isExecuteArb := true |}])
  \/
  (exists why,
      call (executeArb venue from_alice 2990 10) ledger0 = Reverted why /\
      ledger_after ledger0 (call (executeArb venue from_alice 2990 10) ledger0)
      = ledger0).
Proof.
  apply (executeArb_all_or_nothing venue from_alice 2990 10 ledger0).
  apply N.leb_le. vm_compute. reflexivity.
Defined.

(** The same call on the sample deployment: a profit of 10 commits, a floor
    of 20 reverts with "Unprofitable". *)
Example executeArb_profit_10 :
  exists s', call (executeArb venue from_alice 2990 10) ledger0 = Committed s' /\
             balanceOf s' alice = 5010 /\ selfBalance s' = 5010 /\
             balanceOf s' (WETH venue) = 3000.
Proof. eexists. split; [vm_compute; reflexivity |]. vm_compute. auto. Qed.

Example executeArb_floor_20 :
  call (executeArb venue from_alice 2990 20) ledger0 = Reverted Unprofitable.
Proof. vm_compute. reflexivity. Qed.

End ArbfarmClaims.

(* ===================================================================== *)
(** ** Properties of the decision route                                   *)
(* ===================================================================== *)

Module DecideProofs.

Import Js Decide.
Local Open Scope Q_scope.

Lemma leb_le x y : leb x y = true <-> x <= y.
Proof. apply Qle_bool_iff. Qed.

Lemma leb_gt x y : leb x y = false <-> y < x.
Proof.
  unfold leb. split.
  - intros E. apply Qnot_le_lt. intros Hle. apply Qle_bool_iff in Hle. congruence.
  - intros Hlt. destruct (Qle_bool x y) eqn:E; [| reflexivity].
    apply Qle_bool_iff in E. exfalso. exact (Qlt_not_le _ _ Hlt E).
Qed.

Lemma ltb_lt x y : ltb x y = true <-> x < y.
Proof.
  unfold ltb. rewrite negb_true_iff. apply leb_gt.
Qed.

Lemma ltb_ge x y : ltb x y = false <-> y <= x.
Proof.
  unfold ltb. rewrite negb_false_iff. apply leb_le.
Qed.

Lemma gtb_gt x y : gtb x y = true <-> y < x.
Proof. apply ltb_lt. Qed.

Lemma gtb_le x y : gtb x y = false <-> x <= y.
Proof. apply ltb_ge. Qed.

Lemma geb_ge x y : geb x y = true <-> y <= x.
Proof. apply leb_le. Qed.

(** *** The route past the gate *)

Lemma POST_first_check env body :
  netProfitUsd body <= 0 ->
  POST env (Complete body) =
  ok_response (now env)
    {| decision := SKIP;
       reason := JString "Net profit is negative or zero";
       confidence := Finite 1.0;
       riskAnalysis := riskAnalysis (result (fallback_for env body)) |}.
Proof.
  intros H. apply leb_le in H. unfold POST. rewrite H.
  unfold fallback_for, fallbackDecision. repeat case_match; reflexivity.
Qed.

Lemma POST_second_check env body :
  0 < netProfitUsd body -> netProfitUsd body < 2 ->
  POST env (Complete body) =
  ok_response (now env)
    {| decision := SKIP;
       reason := JString "Net profit below $2 minimum threshold";
       confidence := Finite 0.95;
       riskAnalysis := riskAnalysis (result (fallback_for env body)) |}.
Proof.
  intros H0 H2. apply leb_gt in H0. apply ltb_lt in H2.
  unfold POST. rewrite H0, H2.
  unfold fallback_for, fallbackDecision. repeat case_match; reflexivity.
Qed.

Lemma POST_third_check env body :
  2 <= netProfitUsd body -> 5 < spreadPercent body ->
  POST env (Complete body) =
  ok_response (now env)
    {| decision := SKIP;
       reason := JString "Spread >5% appears anomalous - possible bad data";
       confidence := Finite 0.9;
       riskAnalysis := riskAnalysis (result (fallback_for env body)) |}.
Proof.
  intros H2 H5.
  assert (H0 : 0 < netProfitUsd body).
  { apply Qlt_le_trans with 2; [reflexivity | exact H2]. }
  apply leb_gt in H0. apply ltb_ge in H2. apply gtb_gt in H5.
  unfold POST. rewrite H0, H2, H5.
  unfold fallback_for, fallbackDecision. repeat case_match; reflexivity.
Qed.

Lemma POST_past_gate env body :
  gate_open body ->
  POST env (Complete body) =
  if key_missing (GEMINI_API_KEY env) then fallback_for env body
  else match advisory env with
       | Parsed fields =>
           advisory_response env fields (riskAnalysis (result (fallback_for env body)))
       | _ => fallback_for env body
       end.
Proof.
  intros [H2 H5].
  assert (H0 : 0 < netProfitUsd body).
  { apply Qlt_le_trans with 2; [reflexivity | exact H2]. }
  apply leb_gt in H0. apply ltb_ge in H2. apply gtb_le in H5.
  unfold POST. rewrite H0, H2, H5.
  destruct (key_missing (GEMINI_API_KEY env)); [reflexivity |].
  destruct (advisory env); try reflexivity.
  unfold fallback_for, fallbackDecision. repeat case_match; reflexivity.
Qed.

Lemma POST_falls_back env body :
  gate_open body -> advisory_unavailable env ->
  POST env (Complete body) = fallback_for env body.
Proof.
  intros Hopen Hun. rewrite (POST_past_gate env body Hopen).
  destruct (key_missing (GEMINI_API_KEY env)) eqn:Ek; [reflexivity |].
  destruct Hun as [Hk | [-> | [-> | ->]]]; [congruence | reflexivity ..].
Qed.

(** *** The fallback, case by case *)

Lemma risky_iff sr mr tr :
  In high [sr; mr; tr] \/ (2 <= length (filter (fun x => x = medium) [sr; mr; tr]))%nat
  <-> risky sr mr tr = true.
Proof.
  destruct sr, mr, tr; vm_compute;
    (split; [ intros [H | H]; first [ reflexivity | exfalso; intuition discriminate
                                    | exfalso; lia ]
            | intros H; first [ discriminate H | left; tauto | right; lia ] ]).
Qed.

Lemma all_low_iff sr mr tr :
  [sr; mr; tr] = [low; low; low]
  <-> forallb (fun r => bool_decide (r = low)) [sr; mr; tr] = true.
Proof.
  destruct sr, mr, tr; vm_compute; split; intros H; first [reflexivity | discriminate H].
Qed.

Lemma all_low_not_risky sr mr tr :
  [sr; mr; tr] = [low; low; low] -> risky sr mr tr = false.
Proof. intros H. injection H as -> -> ->. reflexivity. Qed.

Lemma fallback_succeeds t data sr mr tr pm :
  status (fallbackDecision t data sr mr tr pm) = 200%N /\
  success (fallbackDecision t data sr mr tr pm) = true.
Proof.
  unfold fallbackDecision. repeat case_match; split; reflexivity.
Qed.

(** The four ways out of [fallbackDecision]. *)
Lemma fallback_cases t data sr mr tr pm :
  let d := result (fallbackDecision t data sr mr tr pm) in
  let go := geb (netProfitUsd data) 5
            && forallb (fun r => bool_decide (r = low)) [sr; mr; tr]
            && bool_decide (pm = safe) in
  (risky sr mr tr = true /\ decision d = SKIP /\ confidence d = Finite 0.85) \/
  (risky sr mr tr = false /\ pm = thin /\
     decision d = SKIP /\ confidence d = Finite 0.8) \/
  (risky sr mr tr = false /\ pm <> thin /\ go = true /\
     decision d = EXECUTE /\ confidence d = Finite 0.75) \/
  (risky sr mr tr = false /\ pm <> thin /\ go = false /\
     decision d = SKIP /\ confidence d = Finite 0.7).
Proof.
  cbv zeta. unfold fallbackDecision. fold (risky sr mr tr).
  destruct (risky sr mr tr); [left; repeat split |].
  right. destruct (bool_decide (pm = thin)) eqn:Ethin.
  - left. apply bool_decide_eq_true in Ethin. repeat split. exact Ethin.
  - right. apply bool_decide_eq_false in Ethin.
    match goal with |- context [if ?c then _ else _] => destruct c eqn:Ego end.
    + left. repeat split. exact Ethin.
    + right. repeat split. exact Ethin.
Qed.

(** *** The advisory path *)

Lemma clamp_range (x : number) :
  Math_min (Finite 1) (Math_max (Finite 0) x) = NaN \/
  exists c, Math_min (Finite 1) (Math_max (Finite 0) x) = Finite c /\ 0 <= c /\ c <= 1.
Proof.
  destruct x as [q |]; [| left; reflexivity]. right. cbn.
  destruct (leb 0 q) eqn:E0; cbn.
  - destruct (leb 1 q) eqn:E1.
    + exists 1. split; [reflexivity |]. split; apply Qle_bool_iff; reflexivity.
    + exists q. split; [reflexivity |]. apply leb_le in E0. apply leb_gt in E1.
      split; [exact E0 | apply Qlt_le_weak; exact E1].
  - exists 0. split; [reflexivity |]. split; apply Qle_bool_iff; reflexivity.
Qed.


Lemma fallback_reason_nonempty t data sr mr tr pm :
  nonempty_text (reason (result (fallbackDecision t data sr mr tr pm))).
Proof.
  unfold fallbackDecision, nonempty_text.
  repeat case_match; cbn; eexists; (split; [reflexivity | discriminate]).
Qed.


End DecideProofs.

Module DecideClaims.

Import Js Decide DecideProofs.
Local Open Scope Q_scope.

(** C2. The gate runs its three checks in this order, and the first one
    that matches decides: a net profit of zero or less gives SKIP, reason
    "Net profit is negative or zero", confidence 1.0; otherwise a net profit
    under $2 gives SKIP, reason "... below $2 minimum threshold"; otherwise a
    spread over 5% gives SKIP, reason "... anomalous - possible bad data".
    Whenever one of them matches, the response is the same whatever the key
    and the advisory are: neither the advisory nor the fallback has a say. *)
Theorem gate_checks_in_order (env : Env) (body : DecideRequest) :
  let r := POST env (Complete body) in
  (netProfitUsd body <= 0 ->
     skips_because r "Net profit is negative or zero" /\
     confidence (result r) = Finite 1.0) /\
  (0 < netProfitUsd body -> netProfitUsd body < 2 ->
     skips_because r "Net profit below $2 minimum threshold") /\
  (2 <= netProfitUsd body -> 5 < spreadPercent body ->
     skips_because r "Spread >5% appears anomalous - possible bad data") /\
  (netProfitUsd body <= 0 \/ netProfitUsd body < 2 \/ 5 < spreadPercent body ->
     forall env', now env' = now env -> POST env' (Complete body) = r).
Proof.
  cbv zeta. split; [| split; [| split]].
  - intros H. rewrite (POST_first_check env body H).
    split; [repeat split |]; reflexivity.
  - intros H0 H2. rewrite (POST_second_check env body H0 H2). repeat split.
  - intros H2 H5. rewrite (POST_third_check env body H2 H5). repeat split.
  - intros Hmatch env' Hnow.
    destruct (Qlt_le_dec 0 (netProfitUsd body)) as [H0 | H0].
    + destruct (Qlt_le_dec (netProfitUsd body) 2) as [H2 | H2].
      * rewrite (POST_second_check env body H0 H2).
        rewrite (POST_second_check env' body H0 H2).
        unfold fallback_for. rewrite Hnow. reflexivity.
      * assert (H5 : 5 < spreadPercent body).
        { destruct Hmatch as [H | [H | H]]; [| | exact H].
          - exfalso. exact (Qlt_not_le _ _ H0 H).
          - exfalso. exact (Qlt_not_le _ _ H H2). }
        rewrite (POST_third_check env body H2 H5).
        rewrite (POST_third_check env' body H2 H5).
        unfold fallback_for. rewrite Hnow. reflexivity.
    + rewrite (POST_first_check env body H0).
      rewrite (POST_first_check env' body H0).
      unfold fallback_for. rewrite Hnow. reflexivity.
Qed.

Lemma gate_checks_in_order_witness :
  skips_because (POST without_key (Complete scenarioA))
    "Net profit below $2 minimum threshold".
Proof.
  apply (gate_checks_in_order without_key scenarioA).
  - vm_compute. reflexivity.
  - vm_compute. reflexivity.
Defined.

(** C3. The rule-based fallback answers SKIP when a risk is high or two
    are medium, SKIP when the margin is thin, EXECUTE exactly when the net
    profit is at least $5, the three risks are low and the margin is safe,
    and SKIP in every other case; with a net profit of $6.00, three low
    risks and a safe margin it answers EXECUTE with confidence 0.75. *)
Theorem fallback_rule (t : N) (data : DecideRequest)
    (slippageRisk mevRisk timingRisk : RiskLevel) (profitMargin : ProfitMargin) :
  let risks := [slippageRisk; mevRisk; timingRisk] in
  let r := fallbackDecision t data slippageRisk mevRisk timingRisk profitMargin in
  status r = 200%N /\ success r = true /\
  (In high risks \/ (2 <= length (filter (fun x => x = medium) risks))%nat ->
     decision (result r) = SKIP) /\
  (profitMargin = thin -> decision (result r) = SKIP) /\
  (decision (result r) = EXECUTE <->
     5 <= netProfitUsd data /\ risks = [low; low; low] /\ profitMargin = safe) /\
  (decision (result r) <> EXECUTE -> decision (result r) = SKIP) /\
  (netProfitUsd data == 6 -> risks = [low; low; low] -> profitMargin = safe ->
     decision (result r) = EXECUTE /\ confidence (result r) = Finite 0.75).
Proof.
  cbv zeta.
  pose proof (fallback_cases t data slippageRisk mevRisk timingRisk profitMargin)
    as Hcases.
  pose proof (risky_iff slippageRisk mevRisk timingRisk) as Hrisky.
  pose proof (all_low_iff slippageRisk mevRisk timingRisk) as Hlow.
  pose proof (all_low_not_risky slippageRisk mevRisk timingRisk) as Hcalm.
  set (r := fallbackDecision t data slippageRisk mevRisk timingRisk profitMargin) in *.
  split; [apply fallback_succeeds |]. split; [apply fallback_succeeds |].
  destruct Hcases as [(Hr & Hd & _) | [(Hr & Hm & Hd & _) | [(Hr & Hm & He & Hd & Hc)
                     | (Hr & Hm & He & Hd & _)]]].
  - (* a risk is high, or two are medium *)
    split; [intros _; exact Hd |]. split; [intros _; exact Hd |].
    split; [split |]; [| | split].
    + intros H. rewrite Hd in H. discriminate H.
    + intros (_ & Hall & _). apply Hcalm in Hall. congruence.
    + intros _. exact Hd.
    + intros _ Hall _. apply Hcalm in Hall. congruence.
  - (* thin margin *)
    split; [intros _; exact Hd |]. split; [intros _; exact Hd |].
    split; [split |]; [| | split].
    + intros H. rewrite Hd in H. discriminate H.
    + intros (_ & _ & Hsafe). congruence.
    + intros _. exact Hd.
    + intros _ _ Hsafe. congruence.
  - (* the guarded EXECUTE *)
    apply andb_true_iff in He. destruct He as [He Hsafe].
    apply andb_true_iff in He. destruct He as [Hnp Hall].
    apply geb_ge in Hnp. apply Hlow in Hall. apply bool_decide_eq_true in Hsafe.
    split; [intros H; apply Hrisky in H; congruence |].
    split; [intros H; congruence |].
    split; [split |]; [| | split].
    + intros _. split; [exact Hnp |]. split; [exact Hall | exact Hsafe].
    + intros _. exact Hd.
    + intros H. exfalso. apply H. exact Hd.
    + intros _ _ _. split; [exact Hd | exact Hc].
  - (* every other case *)
    assert (Hno : 5 <= netProfitUsd data ->
                  [slippageRisk; mevRisk; timingRisk] = [low; low; low] ->
                  profitMargin = safe -> False).
    { intros Hnp Hall Hsafe.
      apply geb_ge in Hnp. apply Hlow in Hall.
      apply (bool_decide_eq_true_2 _) in Hsafe.
      rewrite Hnp, Hall, Hsafe in He. discriminate He. }
    split; [intros _; exact Hd |]. split; [intros _; exact Hd |].
    split; [split |]; [| | split].
    + intros H. rewrite Hd in H. discriminate H.
    + intros (Hnp & Hall & Hsafe). exfalso. exact (Hno Hnp Hall Hsafe).
    + intros _. exact Hd.
    + intros Hsix Hall Hsafe. exfalso. apply (Hno); [| exact Hall | exact Hsafe].
      rewrite Hsix. apply Qle_bool_iff. reflexivity.
Qed.

Lemma fallback_rule_witness :
  decision (result (fallbackDecision 0 scenarioB low low low safe)) = EXECUTE /\
  confidence (result (fallbackDecision 0 scenarioB low low low safe)) = Finite 0.75.
Proof.
  apply (fallback_rule 0 scenarioB low low low safe); reflexivity.
Defined.

(** Scenario B through the whole route, without a key. *)
Example scenarioB_executes :
  result (POST without_key (Complete scenarioB)) =
  {| decision := EXECUTE;
     reason := JString "Net profit $6.00 with low overall risk";
     confidence := Finite 0.75;
     riskAnalysis := analysis low low low safe |}.
Proof. vm_compute. reflexivity. Qed.

(** C5 (as amended). With a spread above the 5% ceiling, 7% included, the
    verdict is SKIP whatever the net profit is; the reason names the
    anomalous spread when the net profit is at least $2, and is the reason
    of the profit check that matched first when it is not. *)
Theorem anomalous_spread_skips (env : Env) (body : DecideRequest) :
  5 < spreadPercent body ->
  let r := POST env (Complete body) in
  status r = 200%N /\ success r = true /\ decision (result r) = SKIP /\
  (2 <= netProfitUsd body ->
     reason (result r) = JString "Spread >5% appears anomalous - possible bad data") /\
  (netProfitUsd body <= 0 ->
     reason (result r) = JString "Net profit is negative or zero") /\
  (0 < netProfitUsd body -> netProfitUsd body < 2 ->
     reason (result r) = JString "Net profit below $2 minimum threshold").
Proof.
  intros H5. cbv zeta.
  destruct (Qlt_le_dec 0 (netProfitUsd body)) as [H0 | H0].
  - destruct (Qlt_le_dec (netProfitUsd body) 2) as [H2 | H2].
    + rewrite (POST_second_check env body H0 H2). cbn.
      split; [reflexivity |]. split; [reflexivity |]. split; [reflexivity |].
      split; [| split].
      * intros H. exfalso. exact (Qlt_not_le _ _ H2 H).
      * intros H. exfalso. exact (Qlt_not_le _ _ H0 H).
      * intros _ _. reflexivity.
    + rewrite (POST_third_check env body H2 H5). cbn.
      split; [reflexivity |]. split; [reflexivity |]. split; [reflexivity |].
      split; [| split].
      * intros _. reflexivity.
      * intros H. exfalso. exact (Qlt_not_le _ _ H0 H).
      * intros _ H. exfalso. exact (Qlt_not_le _ _ H H2).
  - rewrite (POST_first_check env body H0). cbn.
    split; [reflexivity |]. split; [reflexivity |]. split; [reflexivity |].
    split; [| split].
    + intros H. exfalso.
      apply (Qlt_not_le 0 2); [reflexivity |]. exact (Qle_trans _ _ _ H H0).
    + intros _. reflexivity.
    + intros H _. exfalso. exact (Qlt_not_le _ _ H H0).
Qed.

Lemma anomalous_spread_skips_witness :
  let r := POST without_key (Complete (scenarioC 10)) in
  status r = 200%N /\ success r = true /\ decision (result r) = SKIP /\
  (2 <= 10 ->
     reason (result r) = JString "Spread >5% appears anomalous - possible bad data") /\
  (10 <= 0 -> reason (result r) = JString "Net profit is negative or zero") /\
  (0 < 10 -> 10 < 2 ->
     reason (result r) = JString "Net profit below $2 minimum threshold").
Proof.
  apply (anomalous_spread_skips without_key (scenarioC 10)).
  vm_compute. reflexivity.
Defined.

(** C5, as stated, fails for a spread of 7% with a net profit of $1: the
    verdict is SKIP, but the reason given is the profit floor, not the
    spread. *)
Lemma spread7_profit1_reason :
  spreadPercent (scenarioC 1) == 7 /\
  decision (result (POST without_key (Complete (scenarioC 1)))) = SKIP /\
  reason (result (POST without_key (Complete (scenarioC 1)))) =
    JString "Net profit below $2 minimum threshold" /\
  reason (result (POST without_key (Complete (scenarioC 1)))) <>
    JString "Spread >5% appears anomalous - possible bad data".
Proof.
  split; [reflexivity |]. split; [reflexivity |]. split; [reflexivity |].
  vm_compute. discriminate.
Qed.

(** C9. With a gas cost of zero or less the profit-gas ratio is taken as 0,
    the margin is thin, and the fallback answers SKIP whatever the risks
    and however large the net profit: a request that reaches the fallback
    with such a gas cost is never EXECUTEd. *)
Theorem zero_gas_never_executes (env : Env) (body : DecideRequest) :
  gasCostUsd body <= 0 ->
  calculateProfitMargin body = thin /\
  (forall t sr mr tr,
     decision (result (fallbackDecision t body sr mr tr (calculateProfitMargin body)))
     = SKIP) /\
  (gate_open body -> advisory_unavailable env ->
     decision (result (POST env (Complete body))) = SKIP).
Proof.
  intros Hgas.
  assert (Hthin : calculateProfitMargin body = thin).
  { unfold calculateProfitMargin. apply gtb_le in Hgas. rewrite Hgas. reflexivity. }
  assert (Hskip : forall t sr mr tr,
             decision (result (fallbackDecision t body sr mr tr
                                 (calculateProfitMargin body))) = SKIP).
  { intros t sr mr tr. rewrite Hthin.
    destruct (fallback_cases t body sr mr tr thin)
      as [(_ & Hd & _) | [(_ & _ & Hd & _) | [(_ & Hm & _) | (_ & Hm & _)]]];
      [exact Hd | exact Hd | congruence | congruence]. }
  split; [exact Hthin |]. split; [exact Hskip |].
  intros Hopen Hun. rewrite (POST_falls_back env body Hopen Hun).
  unfold fallback_for. apply Hskip.
Qed.

Lemma zero_gas_never_executes_witness :
  calculateProfitMargin free_gas = thin /\
  (forall t sr mr tr,
     decision (result (fallbackDecision t free_gas sr mr tr
                         (calculateProfitMargin free_gas))) = SKIP) /\
  (gate_open free_gas -> advisory_unavailable without_key ->
     decision (result (POST without_key (Complete free_gas))) = SKIP).
Proof.
  apply (zero_gas_never_executes without_key free_gas).
  apply Qle_bool_iff. vm_compute. reflexivity.
Defined.

(** A net profit of $1000 with no gas cost, sent without a key. *)
Example free_gas_is_skipped :
  result (POST without_key (Complete free_gas)) =
  {| decision := SKIP;
     reason := JString "Profit margin too thin relative to gas cost";
     confidence := Finite 0.8;
     riskAnalysis := analysis low low low thin |}.
Proof. vm_compute. reflexivity. Qed.



(** A confidence given in words is sent on as no number at all, and a
    confidence of 3 as 1. *)
Example worded_confidence_is_not_a_number :
  confidence (result (POST (answering (Parsed [("confidence"%string, JString "high")]))
                        (Complete scenarioB))) = NaN /\
  confidence (result (POST (answering (Parsed [("confidence"%string, JNumber 3)]))
                        (Complete scenarioB))) = Finite 1.
Proof. split; vm_compute; reflexivity. Qed.





End DecideClaims.
(* ===================================================================== *)
(** ** Properties of the estimators                                       *)
(* ===================================================================== *)

Module EstimateClaims.

Import Js Estimate Services Routes EstimateCycle JsProofs.
Local Open Scope Q_scope.

(** The route's gross profit on 1 ETH is $14, whatever the pool says. *)
Example route_gross_profit : grossProfitUsd 1 == 14.
Proof. vm_compute. reflexivity. Qed.

(** Both gas legs of the sample cycle cost 0.002 ETH; the first is priced
    at the pool's reading, the second at the 3500 the code falls back to. *)
Example drifting_gas_legs :
  let flow := calculateCompleteFlowGasFees drifting in
  gasCostEth (step1_deposit flow) == 0.002 /\
  gasCostEth (step2_swap flow) == 0.002 /\
  gasCostUsd (step1_deposit flow) == 6.00 /\
  gasCostUsd (step2_swap flow) == 7.00.
Proof. cbv zeta. repeat split; vm_compute; reflexivity. Qed.

Lemma denominated_comp (r r' : Q) (cv : Conversion) :
  r == r' -> denominated r cv -> denominated r' cv.
Proof.
  intros E H. unfold denominated in *. rewrite H. destruct (how cv).
  - rewrite (toFixed_value_comp (fmul (native cv) r) (fmul (native cv) r') 2);
      [reflexivity | rewrite E; reflexivity].
  - rewrite E. reflexivity.
Qed.

(** Every figure of a gas report is denominated with the price the report
    was given. *)
Lemma gas_report_denominated (gasEstimate : N) (feeData : FeeData) (price : Q) :
  Forall (denominated price) (gas_conversions (gas_report gasEstimate feeData price)).
Proof.
  unfold gas_conversions, gas_report. cbn [gasCostEth gasCostUsd eip1559].
  apply Forall_cons. split; [reflexivity |].
  destruct (present (maxFeePerGas feeData) && present (maxPriorityFeePerGas feeData)).
  - apply Forall_cons. split; [reflexivity | constructor].
  - constructor.
Qed.

(** C7 (as amended). No reference is captured once and shared.  Each of
    the four estimators that price in ETH (deposit gas, swap gas, bridge
    fees, bridge slippage) makes its own call to [getEthPriceUsd]: its
    figures are the same whatever the other reads return, and they are
    denominated with the price its own read gave (3500 when the read
    fails).  The route values the trade at its constant 3500, and the AMM
    slippage service prices the input with the tick price of the pool it
    quotes.  The four estimators' figures share a reference when their
    four reads return the same thing; the whole estimate does when, in
    addition, that reference and the AMM pool's price are both 3500. *)
Theorem each_estimator_reads_its_own_price (e : Estimation) :
  let c := estimators e in
  (forall site reading,
     (site <> DepositGasRead ->
        deposit_leg (with_read c site reading) = deposit_leg c) /\
     (site <> SwapGasRead ->
        swap_leg (with_read c site reading) = swap_leg c) /\
     (site <> BridgeFeesRead ->
        calculateAcrossBridgeFees (with_read c site reading)
        = calculateAcrossBridgeFees c) /\
     (site <> BridgeSlippageRead ->
        calculateAcrossBridgeSlippage (with_read c site reading)
        = calculateAcrossBridgeSlippage c)) /\
  Forall (denominated (getEthPriceUsd (slot0_at c DepositGasRead)))
    (deposit_conversions c) /\
  Forall (denominated (getEthPriceUsd (slot0_at c SwapGasRead)))
    (swap_conversions c) /\
  Forall (denominated (getEthPriceUsd (slot0_at c BridgeFeesRead)))
    (bridge_fee_conversions c) /\
  Forall (denominated (getEthPriceUsd (slot0_at c BridgeSlippageRead)))
    (bridge_slippage_conversions c) /\
  denominated route_ethPriceUsd (route_conversion e) /\
  denominated (currentPrice (amm_report e)) (amm_conversion e) /\
  (forall reading,
     (forall site, slot0_at c site = reading) ->
     Forall (denominated (getEthPriceUsd reading)) (estimator_conversions c) /\
     (getEthPriceUsd reading == 3500 -> currentPrice (amm_report e) == 3500 ->
      single_reference e)).
Proof.
  cbv zeta. set (c := estimators e).
  assert (Hdep : Forall (denominated (getEthPriceUsd (slot0_at c DepositGasRead)))
                   (deposit_conversions c)).
  { apply gas_report_denominated. }
  assert (Hswap : Forall (denominated (getEthPriceUsd (slot0_at c SwapGasRead)))
                    (swap_conversions c)).
  { apply gas_report_denominated. }
  assert (Hfees : Forall (denominated (getEthPriceUsd (slot0_at c BridgeFeesRead)))
                    (bridge_fee_conversions c)).
  { unfold bridge_fee_conversions. cbv zeta.
    apply Forall_cons. split; [reflexivity |].
    apply Forall_cons. split; [reflexivity |].
    apply gas_report_denominated. }
  assert (Hslip : Forall (denominated (getEthPriceUsd (slot0_at c BridgeSlippageRead)))
                    (bridge_slippage_conversions c)).
  { unfold bridge_slippage_conversions, calculateAcrossBridgeSlippage.
    destruct (across_slippage_fetch c) as [| feeData]; [constructor |].
    destruct (amountInWei c =? 0)%N; [constructor |].
    repeat (apply Forall_cons; split; [reflexivity |]). constructor. }
  assert (Hroute : denominated route_ethPriceUsd (route_conversion e))
    by reflexivity.
  assert (Hamm : denominated (currentPrice (amm_report e)) (amm_conversion e)).
  { unfold denominated, amm_conversion, amm_report, calculateSlippage.
    cbn [usd native how expectedAmountOut currentPrice]. reflexivity. }
  split.
  { intros site reading.
    unfold deposit_leg, swap_leg, calculateAcrossBridgeFees,
      calculateAcrossBridgeSlippage.
    repeat split; intros Hsite; destruct site; try congruence;
      cbn [with_read amountInWei deposit_gasEstimate mainnet_feeData
           swap_gasEstimate arbitrum_feeData base_feeData across_totalRelayFee
           across_slippage_fetch slot0_at]; reflexivity. }
  split; [exact Hdep |]. split; [exact Hswap |]. split; [exact Hfees |].
  split; [exact Hslip |]. split; [exact Hroute |]. split; [exact Hamm |].
  intros reading Hsame.
  assert (Hall : Forall (denominated (getEthPriceUsd reading)) (estimator_conversions c)).
  { unfold estimator_conversions. rewrite !Forall_app.
    rewrite <- (Hsame DepositGasRead) at 1. rewrite <- (Hsame SwapGasRead) at 1.
    rewrite <- (Hsame BridgeFeesRead) at 1. rewrite <- (Hsame BridgeSlippageRead).
    repeat split; assumption. }
  split; [exact Hall |].
  intros Hprice Hpool. exists 3500. unfold conversions. fold c.
  rewrite Forall_app. split.
  - eapply Forall_impl; [exact Hall |].
    intros cv. apply denominated_comp. exact Hprice.
  - apply Forall_cons. split; [exact Hroute |].
    apply Forall_cons. split; [| constructor].
    apply (denominated_comp _ _ _ Hpool). exact Hamm.
Qed.

Lemma each_estimator_reads_its_own_price_witness :
  Forall (denominated 3500) (estimator_conversions fallback_cycle) /\
  single_reference all_3500.
Proof.
  pose proof (each_estimator_reads_its_own_price all_3500) as H.
  cbv zeta in H. destruct H as (_ & _ & _ & _ & _ & _ & _ & H).
  destruct (H None) as [Hall Hone]; [intros site; reflexivity |].
  split; [exact Hall |]. apply Hone; vm_compute; reflexivity.
Defined.

(** C7, as stated, fails on an estimate in which the price pool answers
    the deposit leg's read and not the swap leg's: the two legs cost the
    same 0.002 ETH and are reported as $6.00 and $7.00, so no single
    reference converts both. *)
Lemma drifting_has_no_single_reference : ~ single_reference drifting_estimate.
Proof.
  intros [r Hall]. unfold conversions, estimator_conversions in Hall.
  rewrite !Forall_app in Hall. destruct Hall as ((Hd & Hs & _) & _).
  unfold deposit_conversions, gas_conversions in Hd.
  unfold swap_conversions, gas_conversions in Hs.
  apply Forall_cons in Hd. destruct Hd as [H1 _].
  apply Forall_cons in Hs. destruct Hs as [H2 _].
  unfold denominated in H1, H2. cbn [usd native how printed] in H1, H2.
  assert (E : gasCostUsd (deposit_leg drifting) == gasCostUsd (swap_leg drifting)).
  { rewrite H1, H2. reflexivity. }
  vm_compute in E. discriminate E.
Qed.

(** Nor is it enough that the price pool answers every read alike: the
    gas legs are then priced near 3000 while the route values the trade at
    its constant 3500. *)
Example steady_pool_is_not_enough : ~ single_reference steady_estimate.
Proof.
  intros [r Hall]. unfold conversions, estimator_conversions in Hall.
  rewrite !Forall_app in Hall. destruct Hall as ((Hd & _) & Hrest).
  unfold deposit_conversions, gas_conversions in Hd.
  apply Forall_cons in Hd. destruct Hd as [H1 _].
  apply Forall_cons in Hrest. destruct Hrest as [Hroute _].
  unfold denominated in H1, Hroute.
  cbn [usd native how printed route_conversion amountFloat steady_estimate estimators]
    in H1, Hroute.
  assert (Er : fl r == 3500).
  { unfold fmul in Hroute.
    assert (fl 1 == 1) as E1 by (vm_compute; reflexivity).
    assert (fl route_ethPriceUsd == 3500) as E2 by (vm_compute; reflexivity).
    rewrite E1, E2, !Qmult_1_l, fl_idem in Hroute.
    rewrite <- Hroute. vm_compute. reflexivity. }
  unfold fmul in H1.
  rewrite (toFixed_value_comp _
             (fl (fl (gasCostEth (deposit_leg steady)) * 3500)) 2) in H1 by (rewrite Er; reflexivity).
  vm_compute in H1. discriminate H1.
Qed.

End EstimateClaims.


(* ===================================================================== *)
(** ** More on the settlement contract                                    *)
(* ===================================================================== *)

Module ArbfarmExtras.

Import Arbfarm ArbfarmMore ArbfarmProofs.
Local Open Scope N_scope.

(** *** The sum of the balances *)

Lemma sum_insert (m : gmap address N) k v :
  map_fold (fun _ x acc => x + acc) 0 (<[k := v]> m) + default 0 (m !! k)
  = map_fold (fun _ x acc => x + acc) 0 m + v.
Proof.
  destruct (m !! k) as [old |] eqn:E; cbn.
  - rewrite <- (insert_delete_eq m k v) at 1.
    rewrite map_fold_insert_L.
    + rewrite (map_fold_delete_L _ _ k old m); [lia | | exact E].
      intros. lia.
    + intros. lia.
    + apply lookup_delete_eq.
  - rewrite map_fold_insert_L; [lia | | exact E]. intros. lia.
Qed.

Lemma sum_credit (m : gmap address N) k c :
  map_fold (fun _ x acc => x + acc) 0 (<[k := default 0 (m !! k) + c]> m)
  = map_fold (fun _ x acc => x + acc) 0 m + c.
Proof. pose proof (sum_insert m k (default 0 (m !! k) + c)). lia. Qed.

Lemma totalOwed_write s user v ut eth ev :
  totalOwed {| userBalances := <[user := v]> (userBalances s);
               userTransactions := ut; selfBalance := eth; events := ev |}
  + balanceOf s user
  = totalOwed s + v.
Proof. unfold totalOwed, balanceOf. cbn. apply sum_insert. Qed.

(** *** Running and inverting the plain operations *)

Lemma deposit_commits msg s u s' :
  deposit msg s = inr (u, s') ->
  0 < value msg /\
  balanceOf s (sender msg) + value msg <= MAX_UINT256 /\
  s' = {| userBalances :=
            <[sender msg := balanceOf s (sender msg) + value msg]> (userBalances s);
          userTransactions := userTransactions s;
          selfBalance := selfBalance s + value msg;
          events := events s ++ [Deposited (sender msg) (value msg)] |}.
Proof.
  unfold deposit. intros H.
  tx_step H as Hin. injection Hin as <- <-.
  tx_step H as Hpos.
  tx_step H as Hread. injection Hread as <- <-.
  tx_step H as Hfit.
  tx_step H as Hwrite. injection Hwrite as <- <-.
  cbn in H. injection H as <- <-. apply N.ltb_lt in Hpos.
  split; [exact Hpos |]. split; [exact Hfit | reflexivity].
Qed.

Lemma deposit_runs msg s :
  0 < value msg ->
  balanceOf s (sender msg) + value msg <= MAX_UINT256 ->
  deposit msg s =
  inr (tt, {| userBalances :=
                <[sender msg := balanceOf s (sender msg) + value msg]> (userBalances s);
              userTransactions := userTransactions s;
              selfBalance := selfBalance s + value msg;
              events := events s ++ [Deposited (sender msg) (value msg)] |}).
Proof.
  intros Hpos Hfit. apply N.ltb_lt in Hpos. apply N.leb_le in Hfit.
  unfold deposit, mbind, Tx_bind, ether_in, require, read_userBalances, checked_add.
  rewrite Hpos. cbn. unfold balanceOf at 1. cbn. fold (balanceOf s (sender msg)).
  rewrite Hfit. reflexivity.
Qed.

Lemma withdraw_inversion env msg amount s u s' :
  withdraw env msg amount s = inr (u, s') ->
  0 < amount /\ amount <= balanceOf s (sender msg) /\
  amount <= selfBalance s /\
  s' = {| userBalances :=
            <[sender msg := balanceOf s (sender msg) - amount]> (userBalances s);
          userTransactions := userTransactions s;
          selfBalance := selfBalance s - amount;
          events := events s ++ [Withdrawn (sender msg) amount] |}.
Proof.
  unfold withdraw, transfer. intros H.
  tx_step H as Hpos.
  tx_step H as Hread. injection Hread as <- <-.
  tx_step H as Hbal.
  tx_step H as Hsub.
  tx_step H as Hwrite. injection Hwrite as <- <-.
  tx_step H as Hsend.
  tx_step Hsend as Hout. apply require_commits in Hsend. destruct Hsend as [_ ->].
  cbn in H. injection H as <- <-.
  apply N.ltb_lt in Hpos. apply N.leb_le in Hbal. cbn [selfBalance] in Hout.
  repeat split; assumption || reflexivity.
Qed.

Lemma withdraw_runs env msg amount s :
  0 < amount -> amount <= balanceOf s (sender msg) -> amount <= selfBalance s ->
  accepts_ether env (sender msg) amount = true ->
  withdraw env msg amount s =
  inr (tt, {| userBalances :=
                <[sender msg := balanceOf s (sender msg) - amount]> (userBalances s);
              userTransactions := userTransactions s;
              selfBalance := selfBalance s - amount;
              events := events s ++ [Withdrawn (sender msg) amount] |}).
Proof.
  intros Hpos Hbal Heth Hacc.
  apply N.ltb_lt in Hpos. apply N.leb_le in Hbal. apply N.leb_le in Heth.
  unfold withdraw, transfer, mbind, Tx_bind, require, read_userBalances,
    checked_sub, write_userBalances, ether_out, emit.
  rewrite Hpos.
  repeat (cbn -[balanceOf N.leb N.sub]; rewrite ?Hbal, ?Heth, ?Hacc).
  reflexivity.
Qed.

(** X1. A deposit followed by a withdrawal of the same amount by the same
    account commits twice and gives back the ledger of before: every
    balance, the ether held and the transaction logs are as they were, and
    the event log has the two events. *)
Theorem deposit_then_withdraw (env : Deployment) (msg : Msg) (s : State) :
  0 < value msg ->
  balanceOf s (sender msg) + value msg <= MAX_UINT256 ->
  accepts_ether env (sender msg) (value msg) = true ->
  exists s1 s2,
    call (deposit msg) s = Committed s1 /\
    call (withdraw env msg (value msg)) s1 = Committed s2 /\
    (forall u, balanceOf s2 u = balanceOf s u) /\
    selfBalance s2 = selfBalance s /\
    userTransactions s2 = userTransactions s /\
    events s2 = events s ++ [Deposited (sender msg) (value msg);
                             Withdrawn (sender msg) (value msg)].
Proof.
  intros Hpos Hfit Hacc.
  eexists. eexists. split; [| split].
  - unfold call. rewrite (deposit_runs msg s Hpos Hfit). reflexivity.
  - unfold call. rewrite withdraw_runs; [reflexivity | exact Hpos | | | exact Hacc].
    + balances. destruct (decide (sender msg = sender msg)); [| congruence].
      fold (balanceOf s (sender msg)). lia.
    + cbn [selfBalance]. lia.
  - cbn [selfBalance userTransactions events]. split; [| split; [| split]].
    + intros u. balances.
      destruct (decide (sender msg = sender msg)); [| congruence].
      destruct (decide (sender msg = u)) as [<- | Hu].
      * fold (balanceOf s (sender msg)). lia.
      * reflexivity.
    + lia.
    + reflexivity.
    + rewrite <- app_assoc. reflexivity.
Qed.

Lemma deposit_then_withdraw_witness :
  exists s1 s2,
    call (deposit {| sender := alice; value := 700; block_timestamp := 1 |}) ledger0
      = Committed s1 /\
    call (withdraw venue {| sender := alice; value := 700; block_timestamp := 1 |} 700)
      s1 = Committed s2 /\
    (forall u, balanceOf s2 u = balanceOf ledger0 u) /\
    selfBalance s2 = selfBalance ledger0 /\
    userTransactions s2 = userTransactions ledger0 /\
    events s2 = events ledger0 ++ [Deposited alice 700; Withdrawn alice 700].
Proof.
  apply (deposit_then_withdraw venue
           {| sender := alice; value := 700; block_timestamp := 1 |} ledger0).
  - apply N.ltb_lt. vm_compute. reflexivity.
  - apply N.leb_le. vm_compute. reflexivity.
  - vm_compute. reflexivity.
Defined.

(** X2. [receive], [deposit] and [withdraw] keep the ledger backed: when
    the balances sum to no more than the ether the contract holds, they
    still do after any of the three commits, and the surplus is the same. *)
Theorem plain_operations_keep_backing (env : Deployment) (msg : Msg)
    (amount : N) (s s' : State) :
  totalOwed s <= selfBalance s ->
  call (receive msg) s = Committed s' \/
  call (deposit msg) s = Committed s' \/
  call (withdraw env msg amount) s = Committed s' ->
  totalOwed s' <= selfBalance s' /\
  selfBalance s' - totalOwed s' = selfBalance s - totalOwed s.
Proof.
  intros Hback [H | [H | H]]; unfold call in H.
  - destruct (receive msg s) as [e | [u s1]] eqn:E; [discriminate |].
    injection H as ->. apply receive_commits in E. destruct E as [_ ->].
    pose proof (totalOwed_write s (sender msg)
                  (balanceOf s (sender msg) + value msg) (userTransactions s)
                  (selfBalance s + value msg)
                  (events s ++ [Deposited (sender msg) (value msg)])) as Hsum.
    cbn [selfBalance]. lia.
  - destruct (deposit msg s) as [e | [u s1]] eqn:E; [discriminate |].
    injection H as ->. apply deposit_commits in E. destruct E as (_ & _ & ->).
    pose proof (totalOwed_write s (sender msg)
                  (balanceOf s (sender msg) + value msg) (userTransactions s)
                  (selfBalance s + value msg)
                  (events s ++ [Deposited (sender msg) (value msg)])) as Hsum.
    cbn [selfBalance]. lia.
  - destruct (withdraw env msg amount s) as [e | [u s1]] eqn:E; [discriminate |].
    injection H as ->. apply withdraw_inversion in E.
    destruct E as (Hpos & Hbal & Heth & ->).
    pose proof (totalOwed_write s (sender msg)
                  (balanceOf s (sender msg) - amount) (userTransactions s)
                  (selfBalance s - amount)
                  (events s ++ [Withdrawn (sender msg) amount])) as Hsum.
    cbn [selfBalance]. lia.
Qed.

Lemma plain_operations_keep_backing_witness :
  exists s', call (withdraw venue from_alice 2000) backed = Committed s' /\
             totalOwed s' <= selfBalance s' /\
             selfBalance s' - totalOwed s' = selfBalance backed - totalOwed backed.
Proof.
  eexists. split; [vm_compute; reflexivity |].
  eapply (plain_operations_keep_backing venue from_alice 2000 backed).
  - apply N.leb_le. vm_compute. reflexivity.
  - right. right. vm_compute. reflexivity.
Defined.

(** *** [executeArb], step by step *)

(** Everything a committed [executeArb] went through: [debited] is the
    ledger after the debit, [repaid] the one after WETH paid the ether
    back through [receive]. *)
Lemma executeArb_inversion env msg amountIn minProfit s u s' :
  executeArb env msg amountIn minProfit s = inr (u, s') ->
  exists wethReceived profit,
    let debited :=
      {| userBalances :=
           <[sender msg := balanceOf s (sender msg) - amountIn]> (userBalances s);
         userTransactions := userTransactions s;
         selfBalance := selfBalance s - amountIn;
         events := events s |} in
    let repaid :=
      {| userBalances :=
           <[WETH env := balanceOf debited (WETH env) + wethReceived]>
             (userBalances debited);
         userTransactions := userTransactions s;
         selfBalance := selfBalance s - amountIn + wethReceived;
         events := events s ++ [Deposited (WETH env) wethReceived] |} in
    0 < amountIn /\ amountIn <= balanceOf s (sender msg) /\
    amountIn <= selfBalance s /\ 0 < wethReceived /\
    wethReceived = amountIn + profit /\ minProfit <= profit /\
    s' = {| userBalances :=
              <[sender msg := balanceOf repaid (sender msg) + (amountIn + profit)]>
                (userBalances repaid);
            userTransactions :=
              <[sender msg :=
                  transactionsOf s (sender msg) ++
                  [{| timestamp := block_timestamp msg; amountIn := amountIn;
                      profit := profit; isExecuteArb := true |}]]>
                (userTransactions s);
            selfBalance := selfBalance s + profit;
            events := events repaid ++
                      [ArbitrageExecuted (sender msg) (selfBalance s)
                         (selfBalance s + profit) profit] |}.
Proof.
  unfold executeArb, IWETH_deposit, IWETH_withdraw, ISwapRouter_exactInputSingle.
  intros H.
  tx_step H as Hpos.
  tx_step H as Hread. injection Hread as <- <-.
  tx_step H as Hbal.
  tx_step H as Hbefore. injection Hbefore as <- <-.
  tx_step H as Hsub.
  tx_step H as Hwrite. injection Hwrite as <- <-.
  tx_step H as Hdep.
  tx_step Hdep as Hout. apply require_commits in Hdep. destruct Hdep as [_ ->].
  tx_step H as Happrove1.
  tx_step H as Hdeadline1.
  tx_step H as Hswap1.
  destruct (exactInputSingle env _) as [usdcReceived |]; [| discriminate].
  injection Hswap1 as <- <-.
  tx_step H as Husdc.
  tx_step H as Happrove2.
  tx_step H as Hdeadline2.
  tx_step H as Hswap2.
  destruct (exactInputSingle env _) as [wethReceived |]; [| discriminate].
  injection Hswap2 as <- <-.
  tx_step H as Hweth.
  tx_step H as Hback.
  tx_step Hback as Hallowed.
  apply receive_commits in Hback. destruct Hback as [Hfit ->].
  tx_step H as Hafter. injection Hafter as <- <-.
  tx_step H as Hprofit.
  tx_step H as Hmin.
  tx_step H as Hcredit.
  tx_step H as Hcur. injection Hcur as <- <-.
  tx_step H as Hnew.
  tx_step H as Hwrite2. injection Hwrite2 as <- <-.
  tx_step H as Hpush. injection Hpush as <- <-.
  cbn in H. injection H as <- <-.
  apply N.ltb_lt in Hpos. apply N.leb_le in Hbal. apply N.leb_le in Hmin.
  apply N.ltb_lt in Hweth.
  cbn [selfBalance sender value] in *.
  exists wethReceived, (selfBalance s - amountIn + wethReceived - selfBalance s).
  cbv zeta.
  assert (Eprofit : selfBalance s + (selfBalance s - amountIn + wethReceived
                                     - selfBalance s)
                    = selfBalance s - amountIn + wethReceived) by lia.
  split; [exact Hpos |]. split; [exact Hbal |]. split; [exact Hout |].
  split; [exact Hweth |]. split; [lia |]. split; [exact Hmin |].
  rewrite Eprofit. reflexivity.
Qed.

(** X3. A committed [executeArb] never leaves the contract with less ether
    than before, nor the caller with a lower balance, whatever [minProfit]
    was; in particular when the dashboard calls it with [minProfit = 0]. *)
Theorem executeArb_never_commits_a_loss (env : Deployment) (msg : Msg)
    (amountIn minProfit : N) (s s' : State) :
  call (executeArb env msg amountIn minProfit) s = Committed s' ->
  selfBalance s <= selfBalance s' /\
  selfBalance s + minProfit <= selfBalance s' /\
  balanceOf s (sender msg) + minProfit <= balanceOf s' (sender msg).
Proof.
  unfold call. intros H.
  destruct (executeArb env msg amountIn minProfit s) as [e | [u s1]] eqn:E;
    [discriminate |].
  injection H as ->. apply executeArb_inversion in E.
  destruct E as (w & profit & E). cbv zeta in E.
  destruct E as (Hpos & Hbal & Heth & Hw & Hwp & Hmin & ->).
  cbn [selfBalance]. split; [lia |]. split; [lia |].
  balances. unfold balanceOf in Hbal.
  destruct (decide (sender msg = sender msg)); [| congruence].
  destruct (decide (WETH env = sender msg)).
  - destruct (decide (sender msg = WETH env)); [lia | congruence].
  - destruct (decide (sender msg = sender msg)); [lia | congruence].
Qed.

Lemma executeArb_never_commits_a_loss_witness :
  exists s', call (handleExecute venue from_alice 2990) ledger0 = Committed s' /\
             selfBalance ledger0 <= selfBalance s' /\
             selfBalance ledger0 + 0 <= selfBalance s' /\
             balanceOf ledger0 alice + 0 <= balanceOf s' alice.
Proof.
  eexists. split; [vm_compute; reflexivity |].
  apply (executeArb_never_commits_a_loss venue from_alice 2990 0 ledger0).
  vm_compute. reflexivity.
Defined.

(** X4. A committed [executeArb] touches two ledger entries only, the
    caller's and the WETH contract's: every other balance is as before, and
    so is every other account's transaction log. *)
Theorem executeArb_frame (env : Deployment) (msg : Msg)
    (amountIn minProfit : N) (s s' : State) :
  call (executeArb env msg amountIn minProfit) s = Committed s' ->
  (forall u, u <> sender msg -> u <> WETH env -> balanceOf s' u = balanceOf s u) /\
  (forall u, u <> sender msg -> transactionsOf s' u = transactionsOf s u).
Proof.
  unfold call. intros H.
  destruct (executeArb env msg amountIn minProfit s) as [e | [u0 s1]] eqn:E;
    [discriminate |].
  injection H as ->. apply executeArb_inversion in E.
  destruct E as (w & profit & E). cbv zeta in E.
  destruct E as (_ & _ & _ & _ & _ & _ & ->).
  split.
  - intros u Hu Hweth. balances.
    destruct (decide (sender msg = u)); [congruence |].
    destruct (decide (WETH env = u)); [congruence |].
    destruct (decide (sender msg = u)); [congruence |]. reflexivity.
  - intros u Hu. unfold transactionsOf. cbn [userTransactions].
    rewrite lookup_insert_ne by congruence. reflexivity.
Qed.

Lemma executeArb_frame_witness :
  exists s', call (executeArb venue from_alice 2990 10) ledger0 = Committed s' /\
    (forall u, u <> alice -> u <> WETH venue -> balanceOf s' u = balanceOf ledger0 u) /\
    (forall u, u <> alice -> transactionsOf s' u = transactionsOf ledger0 u).
Proof.
  eexists. split; [vm_compute; reflexivity |].
  apply (executeArb_frame venue from_alice 2990 10 ledger0).
  vm_compute. reflexivity.
Defined.

(** X5. The ether WETH pays back reaches the contract through [receive],
    which credits it to the WETH contract's own ledger entry: after a
    committed [executeArb] the balances sum to [amountIn + 2 * profit] more
    than before, while the contract holds only [profit] more ether.  A
    ledger that was exactly backed owes more than it holds afterwards. *)
Theorem executeArb_credits_more_than_it_earns (env : Deployment) (msg : Msg)
    (amountIn minProfit : N) (s s' : State) :
  call (executeArb env msg amountIn minProfit) s = Committed s' ->
  exists profit,
    selfBalance s' = selfBalance s + profit /\
    totalOwed s' = totalOwed s + amountIn + 2 * profit /\
    0 < amountIn /\
    (totalOwed s = selfBalance s -> selfBalance s' < totalOwed s').
Proof.
  unfold call. intros H.
  destruct (executeArb env msg amountIn minProfit s) as [e | [u0 s1]] eqn:E;
    [discriminate |].
  injection H as ->. apply executeArb_inversion in E.
  destruct E as (w & profit & E). cbv zeta in E.
  destruct E as (Hpos & Hbal & Heth & Hw & Hwp & Hmin & Es').
  exists profit. cbn [selfBalance].
  assert (Htotal : totalOwed s' = totalOwed s + amountIn + 2 * profit).
  { subst s'. unfold totalOwed, balanceOf. cbn [userBalances].
    rewrite !sum_credit.
    pose proof (sum_insert (userBalances s) (sender msg)
                  (balanceOf s (sender msg) - amountIn)) as Hdebit.
    unfold balanceOf in Hdebit, Hbal. lia. }
  subst s'. cbn [selfBalance].
  split; [reflexivity |]. split; [exact Htotal |]. split; [exact Hpos |].
  intros Hexact. rewrite Htotal. lia.
Qed.

Lemma executeArb_credits_more_than_it_earns_witness :
  exists s' profit,
    call (executeArb venue from_alice 2990 10) backed = Committed s' /\
    selfBalance s' = selfBalance backed + profit /\
    totalOwed s' = totalOwed backed + 2990 + 2 * profit /\
    0 < 2990 /\
    (totalOwed backed = selfBalance backed -> selfBalance s' < totalOwed s').
Proof.
  eexists.
  destruct (executeArb_credits_more_than_it_earns venue from_alice 2990 10 backed
              (ledger_after backed (call (executeArb venue from_alice 2990 10) backed)))
    as (profit & H).
  - vm_compute. reflexivity.
  - exists profit. split; [vm_compute; reflexivity | exact H].
Defined.

(** *** Where a transaction can fail *)

Lemma bind_fails {A B} (m : Tx A) (f : A -> Tx B) s e :
  (m ≫= f) s = inl e ->
  m s = inl e \/ exists a s1, m s = inr (a, s1) /\ f a s1 = inl e.
Proof.
  unfold mbind, Tx_bind. destruct (m s) as [e' | [a s1]]; intros H.
  - left. injection H as ->. reflexivity.
  - right. exists a, s1. split; [reflexivity | exact H].
Qed.

Lemma require_fails cond e' s e :
  require cond e' s = inl e -> cond = false /\ e = e'.
Proof.
  unfold require. destruct cond; cbn; [discriminate |].
  unfold revert. intros H. injection H as <-. split; reflexivity.
Qed.

Lemma checked_add_fails a b s e :
  checked_add a b s = inl e -> e = ArithmeticPanic /\ MAX_UINT256 < a + b.
Proof.
  unfold checked_add. destruct (a + b <=? MAX_UINT256) eqn:E; cbn; [discriminate |].
  unfold revert. intros H. injection H as <-. apply N.leb_gt in E. auto.
Qed.

Lemma checked_sub_fails a b s e :
  checked_sub a b s = inl e -> e = ArithmeticPanic /\ a < b.
Proof.
  unfold checked_sub. destruct (b <=? a) eqn:E; cbn; [discriminate |].
  unfold revert. intros H. injection H as <-. apply N.leb_gt in E. auto.
Qed.

Lemma ether_out_fails v s e :
  ether_out v s = inl e -> e = ExternalRevert.
Proof.
  unfold ether_out. destruct (v <=? selfBalance s); [discriminate |].
  intros H. injection H as <-. reflexivity.
Qed.

Lemma swap_fails env p s e :
  ISwapRouter_exactInputSingle env p s = inl e -> e = ExternalRevert.
Proof.
  unfold ISwapRouter_exactInputSingle.
  destruct (exactInputSingle env p); [discriminate |].
  unfold revert. intros H. injection H as <-. reflexivity.
Qed.

Lemma receive_fails msg s e :
  receive msg s = inl e -> e = ArithmeticPanic.
Proof.
  unfold receive. intros H.
  apply bind_fails in H. destruct H as [H | (? & ? & _ & H)]; [discriminate |].
  apply bind_fails in H. destruct H as [H | (? & ? & _ & H)]; [discriminate |].
  apply bind_fails in H. destruct H as [H | (? & ? & _ & H)].
  - apply checked_add_fails in H. apply H.
  - apply bind_fails in H. destruct H as [H | (? & ? & _ & H)]; discriminate.
Qed.

(** One step of inversion on a reverted transaction whose reason [e] is
    none of the reasons the first step can give. *)
Ltac skip_step H :=
  apply bind_fails in H;
  destruct H as [H | (? & ? & _ & H)];
  [ first
      [ discriminate H
      | cbv [read_userBalances write_userBalances read_selfBalance
               push_userTransactions emit ether_in mret Tx_ret] in H;
        discriminate H
      | apply require_fails in H; destruct H as [_ H]; discriminate H
      | apply checked_add_fails in H; destruct H as [H _]; discriminate H
      | apply checked_sub_fails in H; destruct H as [H _]; discriminate H
      | apply ether_out_fails in H; discriminate H
      | apply swap_fails in H; discriminate H
      | apply receive_fails in H; discriminate H ]
  | ].

(** X6. [executeArb] reverts with "Unprofitable" only under a positive
    [minProfit]: a round trip that returns less ether than it took fails
    earlier, in the checked subtraction.  Called with [minProfit = 0], as
    the dashboard does, it never gives that reason. *)
Theorem unprofitable_needs_a_floor (env : Deployment) (msg : Msg)
    (amountIn minProfit : N) (s : State) :
  call (executeArb env msg amountIn minProfit) s = Reverted Unprofitable ->
  0 < minProfit.
Proof.
  unfold call. intros H.
  destruct (executeArb env msg amountIn minProfit s) as [e | [u s1]] eqn:E;
    [| discriminate].
  injection H as ->.
  unfold executeArb, IWETH_deposit, IWETH_withdraw in E.
  do 6 skip_step E.
  apply bind_fails in E. destruct E as [E | (? & ? & _ & E)].
  { skip_step E. apply require_fails in E. destruct E as [_ E]. discriminate E. }
  do 8 skip_step E.
  apply bind_fails in E. destruct E as [E | (? & ? & _ & E)].
  { skip_step E. apply receive_fails in E. discriminate E. }
  do 2 skip_step E.
  apply bind_fails in E. destruct E as [E | (? & ? & _ & E)].
  - apply require_fails in E. destruct E as [E _]. apply N.leb_gt in E. lia.
  - do 5 skip_step E. discriminate E.
Qed.

Lemma unprofitable_needs_a_floor_witness :
  call (executeArb venue from_alice 2990 20) ledger0 = Reverted Unprofitable /\ 0 < 20.
Proof.
  split; [vm_compute; reflexivity|].
  apply (unprofitable_needs_a_floor venue from_alice 2990 20 ledger0).
  vm_compute. reflexivity.
Defined.

(** A round trip that loses ether does not reach the profit check. *)
Example losing_round_trip_panics :
  call (executeArb lossy from_alice 3010 0) ledger0 = Reverted ArithmeticPanic.
Proof. vm_compute. reflexivity. Qed.

(** *** The flexible path *)

Lemma flexible_inversion env tokens msg tokenIn tokenOut feeBuy feeSell amountIn
    minBuy minSell s u s' :
  executeArbitrageFlexible env tokens msg tokenIn tokenOut feeBuy feeSell amountIn
    minBuy minSell s = inr (u, s') ->
  exists balanceBefore balanceAfter,
    erc20_balanceOf tokens BeforeSwaps tokenIn (this env) = Some balanceBefore /\
    erc20_balanceOf tokens AfterSwaps tokenIn (this env) = Some balanceAfter /\
    balanceBefore < balanceAfter /\
    0 < amountIn /\ amountIn <= balanceOf s (sender msg) /\
    s' = {| userBalances :=
              <[sender msg := balanceOf s (sender msg) - amountIn
                              + (amountIn + (balanceAfter - balanceBefore))]>
                (<[sender msg := balanceOf s (sender msg) - amountIn]>
                   (userBalances s));
            userTransactions :=
              <[sender msg :=
                  transactionsOf s (sender msg) ++
                  [{| timestamp := block_timestamp msg; amountIn := amountIn;
                      profit := balanceAfter - balanceBefore;
                      isExecuteArb := false |}]]>
                (userTransactions s);
            selfBalance := selfBalance s;
            events := events s ++
                      [ArbitrageExecuted (sender msg) balanceBefore balanceAfter
                         (balanceAfter - balanceBefore)] |}.
Proof.
  unfold executeArbitrageFlexible. intros H.
  destruct (flexible_swaps _ _ _ _ _ _ _ _ _ _ s) as [e | [[before after] s1]] eqn:E;
    [discriminate |].
  destruct (before <? after) eqn:Egain; [| discriminate].
  destruct (flexible_settle msg amountIn before after s1) as [e | r] eqn:E2;
    [discriminate |].
  injection H as ->.
  unfold flexible_swaps, IERC20_balanceOf, ISwapRouter_exactInputSingle in E.
  tx_step E as Hpos.
  tx_step E as Hread. injection Hread as <- <-.
  tx_step E as Hbal.
  tx_step E as Hb.
  destruct (erc20_balanceOf tokens BeforeSwaps tokenIn (this env)) as [b0 |] eqn:Eb;
    [| discriminate].
  injection Hb as <- <-.
  tx_step E as Hsub.
  tx_step E as Hwrite. injection Hwrite as <- <-.
  tx_step E as Happ1.
  tx_step E as Hd1.
  tx_step E as Hswap1.
  destruct (exactInputSingle env _) as [out1 |]; [| discriminate].
  injection Hswap1 as <- <-.
  tx_step E as Happ2.
  tx_step E as Hd2.
  tx_step E as Hswap2.
  destruct (exactInputSingle env _) as [out2 |]; [| discriminate].
  injection Hswap2 as <- <-.
  tx_step E as Ha.
  destruct (erc20_balanceOf tokens AfterSwaps tokenIn (this env)) as [a0 |] eqn:Ea;
    [| discriminate].
  injection Ha as <- <-.
  cbn in E. injection E as <- <- <-.
  unfold flexible_settle in E2.
  tx_step E2 as Hprofit.
  tx_step E2 as Hcredit.
  tx_step E2 as Hcur. injection Hcur as <- <-.
  tx_step E2 as Hnew.
  tx_step E2 as Hwrite2. injection Hwrite2 as <- <-.
  tx_step E2 as Hpush. injection Hpush as <- <-.
  cbn in E2. injection E2 as <- <-.
  apply N.ltb_lt in Hpos. apply N.leb_le in Hbal. apply N.ltb_lt in Egain.
  exists b0, a0. split; [reflexivity |]. split; [reflexivity |].
  split; [exact Egain |]. split; [exact Hpos |]. split; [exact Hbal |].
  f_equal. balances.
  destruct (decide (sender msg = sender msg)); [reflexivity | congruence].
Qed.

(** X7. A committed [executeArbitrageFlexible] measured a strictly positive
    gain in the contract's balance of [tokenIn] and credited exactly that
    gain to the caller's ether balance; no other balance moves, the record
    appended is marked as not coming from [executeArb], and the ether the
    contract holds is the same as before.  The balances therefore sum to
    [profit] more with no ether behind it. *)
Theorem flexible_credits_ether_for_tokens (env : Deployment) (tokens : Tokens)
    (msg : Msg) (tokenIn tokenOut : address)
    (feeBuy feeSell amountIn minBuy minSell : N) (s s' : State) :
  executeArbitrageFlexible env tokens msg tokenIn tokenOut feeBuy feeSell amountIn
    minBuy minSell s = inr (tt, s') ->
  exists profit,
    0 < profit /\
    balanceOf s' (sender msg) = balanceOf s (sender msg) + profit /\
    (forall u, u <> sender msg -> balanceOf s' u = balanceOf s u) /\
    selfBalance s' = selfBalance s /\
    totalOwed s' = totalOwed s + profit /\
    transactionsOf s' (sender msg) =
      transactionsOf s (sender msg) ++
      [{| timestamp := block_timestamp msg; amountIn := amountIn;
          profit := profit; isExecuteArb := false |}] /\
    (totalOwed s = selfBalance s -> selfBalance s' < totalOwed s').
Proof.
  intros H. apply flexible_inversion in H.
  destruct H as (before & after & _ & _ & Hgain & Hpos & Hbal & Es').
  exists (after - before).
  assert (Htotal : totalOwed s' = totalOwed s + (after - before)).
  { subst s'. unfold totalOwed. cbn [userBalances].
    pose proof (sum_insert (userBalances s) (sender msg)
                  (balanceOf s (sender msg) - amountIn)) as H1.
    pose proof (sum_insert (<[sender msg := balanceOf s (sender msg) - amountIn]>
                              (userBalances s)) (sender msg)
                  (balanceOf s (sender msg) - amountIn
                   + (amountIn + (after - before)))) as H2.
    rewrite lookup_insert_eq in H2. cbn in H2.
    unfold balanceOf in *. lia. }
  split; [lia |]. split; [| split; [| split; [| split; [| split]]]].
  - subst s'. balances. unfold balanceOf in Hbal.
    destruct (decide (sender msg = sender msg)); [lia | congruence].
  - intros u Hu. subst s'. balances.
    destruct (decide (sender msg = u)); [congruence | reflexivity].
  - subst s'. reflexivity.
  - exact Htotal.
  - subst s'. unfold transactionsOf at 1. cbn [userTransactions].
    rewrite lookup_insert_eq. reflexivity.
  - intros Hexact. rewrite Htotal. subst s'. cbn [selfBalance]. lia.
Qed.

Lemma flexible_credits_ether_for_tokens_witness :
  exists s' profit,
    executeArbitrageFlexible venue gaining from_alice 4 3 3000 3000 1000 0 0 backed
      = inr (tt, s') /\
    0 < profit /\
    balanceOf s' alice = balanceOf backed alice + profit /\
    (forall u, u <> alice -> balanceOf s' u = balanceOf backed u) /\
    selfBalance s' = selfBalance backed /\
    totalOwed s' = totalOwed backed + profit /\
    transactionsOf s' alice =
      transactionsOf backed alice ++
      [{| timestamp := 1700000000; amountIn := 1000;
          profit := profit; isExecuteArb := false |}] /\
    (totalOwed backed = selfBalance backed -> selfBalance s' < totalOwed s').
Proof.
  eexists.
  destruct (flexible_credits_ether_for_tokens venue gaining from_alice 4 3 3000 3000
              1000 0 0 backed
              (snd (match executeArbitrageFlexible venue gaining from_alice 4 3 3000
                            3000 1000 0 0 backed with
                    | inr r => r
                    | inl _ => (tt, backed)
                    end))) as (profit & H).
  - vm_compute. reflexivity.
  - exists profit. split; [vm_compute; reflexivity | exact H].
Defined.

(** *** The transaction logs *)

(** X8. The transaction logs are append-only: whatever operation commits,
    every account's log afterwards starts with its log of before;
    [receive], [deposit] and [withdraw] leave all logs as they are. *)
Theorem logs_only_grow (env : Deployment) (tokens : Tokens) (msg : Msg)
    (amount minProfit tokenIn tokenOut feeBuy feeSell minBuy minSell : N)
    (s s' : State) :
  call (receive msg) s = Committed s' \/
  call (deposit msg) s = Committed s' \/
  call (withdraw env msg amount) s = Committed s' \/
  call (executeArb env msg amount minProfit) s = Committed s' \/
  executeArbitrageFlexible env tokens msg tokenIn tokenOut feeBuy feeSell amount
    minBuy minSell s = inr (tt, s') ->
  (forall u, exists added,
      getUserTransactions s' u = getUserTransactions s u ++ added) /\
  (call (receive msg) s = Committed s' \/ call (deposit msg) s = Committed s' \/
   call (withdraw env msg amount) s = Committed s' ->
   userTransactions s' = userTransactions s).
Proof.
  assert (Hsame : userTransactions s' = userTransactions s ->
                  forall u, exists added,
                    getUserTransactions s' u = getUserTransactions s u ++ added).
  { intros E u. exists []. unfold getUserTransactions, transactionsOf.
    rewrite E, app_nil_r. reflexivity. }
  assert (Hpush : forall ub eth ev t,
             s' = {| userBalances := ub;
                     userTransactions :=
                       <[sender msg := transactionsOf s (sender msg) ++ [t]]>
                         (userTransactions s);
                     selfBalance := eth; events := ev |} ->
             forall u, exists added,
               getUserTransactions s' u = getUserTransactions s u ++ added).
  { intros ub eth ev t -> u. unfold getUserTransactions.
    unfold transactionsOf at 1. cbn [userTransactions].
    destruct (decide (sender msg = u)) as [<- | Hu].
    - rewrite lookup_insert_eq. exists [t]. reflexivity.
    - rewrite lookup_insert_ne by exact Hu. exists []. rewrite app_nil_r. reflexivity. }
  assert (Hplain : call (receive msg) s = Committed s' \/
                   call (deposit msg) s = Committed s' \/
                   call (withdraw env msg amount) s = Committed s' ->
                   userTransactions s' = userTransactions s).
  { unfold call. intros [H | [H | H]].
    - destruct (receive msg s) as [e | [u1 s1]] eqn:E; [discriminate |].
      injection H as ->. apply receive_commits in E. destruct E as [_ ->]. reflexivity.
    - destruct (deposit msg s) as [e | [u1 s1]] eqn:E; [discriminate |].
      injection H as ->. apply deposit_commits in E. destruct E as (_ & _ & ->).
      reflexivity.
    - destruct (withdraw env msg amount s) as [e | [u1 s1]] eqn:E; [discriminate |].
      injection H as ->. apply withdraw_inversion in E.
      destruct E as (_ & _ & _ & ->). reflexivity. }
  intros H. split; [| exact Hplain].
  destruct H as [H | [H | [H | [H | H]]]].
  - apply Hsame, Hplain. left. exact H.
  - apply Hsame, Hplain. right. left. exact H.
  - apply Hsame, Hplain. right. right. exact H.
  - unfold call in H.
    destruct (executeArb env msg amount minProfit s) as [e | [u1 s1]] eqn:E;
      [discriminate |].
    injection H as ->. apply executeArb_inversion in E.
    destruct E as (w & profit & E). cbv zeta in E.
    destruct E as (_ & _ & _ & _ & _ & _ & E). eapply Hpush. exact E.
  - apply flexible_inversion in H.
    destruct H as (b0 & a0 & _ & _ & _ & _ & _ & E). eapply Hpush. exact E.
Qed.

Lemma logs_only_grow_witness :
  exists s',
    call (executeArb venue from_alice 2990 10) ledger0 = Committed s' /\
    (forall u, exists added,
        getUserTransactions s' u = getUserTransactions ledger0 u ++ added).
Proof.
  eexists. split; [vm_compute; reflexivity |].
  apply (logs_only_grow venue gaining from_alice 2990 10 0 0 0 0 0 0 ledger0).
  right. right. right. left. vm_compute. reflexivity.
Defined.

(** X9. The history route adds up what the contract recorded: after a
    committed [executeArb] the caller's [totalProfit] is up by exactly the
    ether the contract gained, and [totalTransactions] by one. *)
Theorem history_follows_executeArb (env : Deployment) (msg : Msg)
    (amountIn minProfit : N) (s s' : State) :
  call (executeArb env msg amountIn minProfit) s = Committed s' ->
  totalProfit (getUserTransactions s' (sender msg)) + selfBalance s
    = totalProfit (getUserTransactions s (sender msg)) + selfBalance s' /\
  totalTransactions (getUserTransactions s' (sender msg))
    = S (totalTransactions (getUserTransactions s (sender msg))).
Proof.
  unfold call. intros H.
  destruct (executeArb env msg amountIn minProfit s) as [e | [u1 s1]] eqn:E;
    [discriminate |].
  injection H as ->. apply executeArb_inversion in E.
  destruct E as (w & profit & E). cbv zeta in E.
  destruct E as (_ & _ & _ & _ & _ & _ & ->).
  unfold getUserTransactions.
  match goal with
  | |- context [transactionsOf ?st (sender msg) = _] => idtac
  | |- context [totalProfit (transactionsOf ?st (sender msg)) + selfBalance s] =>
      assert (Hlog : transactionsOf st (sender msg) =
                     transactionsOf s (sender msg) ++
                     [{| timestamp := block_timestamp msg; amountIn := amountIn;
                         profit := profit; isExecuteArb := true |}])
        by (unfold transactionsOf at 1; cbn [userTransactions];
            rewrite lookup_insert_eq; reflexivity);
      rewrite Hlog
  end.
  unfold totalProfit, totalTransactions. cbn [selfBalance].
  rewrite fold_left_app, length_app. cbn. split; lia.
Qed.

Lemma history_follows_executeArb_witness :
  exists s',
    call (executeArb venue from_alice 2990 10) ledger0 = Committed s' /\
    totalProfit (getUserTransactions s' alice) + selfBalance ledger0
      = totalProfit (getUserTransactions ledger0 alice) + selfBalance s' /\
    totalTransactions (getUserTransactions s' alice)
      = S (totalTransactions (getUserTransactions ledger0 alice)).
Proof.
  eexists. split; [vm_compute; reflexivity |].
  apply (history_follows_executeArb venue from_alice 2990 10 ledger0).
  vm_compute. reflexivity.
Defined.

End ArbfarmExtras.

(* ===================================================================== *)
(** ** More on the decision route                                         *)
(* ===================================================================== *)

Module DecideExtras.

Import Js Decide DecideMore JsProofs DecideProofs.
Local Open Scope Q_scope.

(** *** Rounded ratios against thresholds *)

Lemma fl_ge_5 (x : Q) : 5 <= fl x <-> rounds_to_5 <= x.
Proof.
  pose proof (fl_ge_iff x 5629499534213120 (-50)) as H.
  assert (inject_Z 5629499534213120 * 2 ^ (-50) == 5) as E1 by reflexivity.
  assert ((inject_Z 5629499534213120 - (1 # 2)) * 2 ^ (-50) == rounds_to_5) as E2
    by reflexivity.
  rewrite E1, E2 in H. apply H; [lia | reflexivity].
Qed.

Lemma fl_ge_3 (x : Q) : 3 <= fl x <-> rounds_to_3 <= x.
Proof.
  pose proof (fl_ge_iff x 6755399441055744 (-51)) as H.
  assert (inject_Z 6755399441055744 * 2 ^ (-51) == 3) as E1 by reflexivity.
  assert ((inject_Z 6755399441055744 - (1 # 2)) * 2 ^ (-51) == rounds_to_3) as E2
    by reflexivity.
  rewrite E1, E2 in H. apply H; [lia | reflexivity].
Qed.

Lemma ratio_ge (a b k : Q) : 0 < b -> (k <= a / b <-> k * b <= a).
Proof.
  intros Hb. split; intros H.
  - apply (Qmult_le_compat_r _ _ b) in H; [| apply Qlt_le_weak; exact Hb].
    rewrite Qmult_comm in H. unfold Qdiv in H.
    rewrite <- Qmult_assoc, (Qmult_comm (/ b)), Qmult_inv_r, Qmult_1_r in H.
    + rewrite Qmult_comm. exact H.
    + intros E. rewrite E in Hb. exact (Qlt_irrefl 0 Hb).
  - apply Qle_shift_div_l; assumption.
Qed.

(** The three ways out of [calculateProfitMargin], by the inequalities
    behind the rounded ratio. *)
Lemma margin_cases (b : DecideRequest) :
  (0 < gasCostUsd b /\
   rounds_to_5 * fl (gasCostUsd b) <= fl (netProfitUsd b) /\
   calculateProfitMargin b = safe) \/
  (0 < gasCostUsd b /\
   rounds_to_3 * fl (gasCostUsd b) <= fl (netProfitUsd b) /\
   fl (netProfitUsd b) < rounds_to_5 * fl (gasCostUsd b) /\
   calculateProfitMargin b = acceptable) \/
  ((gasCostUsd b <= 0 \/ fl (netProfitUsd b) < rounds_to_3 * fl (gasCostUsd b)) /\
   calculateProfitMargin b = thin).
Proof.
  unfold calculateProfitMargin.
  destruct (gtb (gasCostUsd b) 0) eqn:Eg.
  - apply gtb_gt in Eg. pose proof (fl_pos _ Eg) as HG.
    unfold fdiv.
    destruct (geb (fl (fl (netProfitUsd b) / fl (gasCostUsd b))) 5) eqn:E5.
    + left. apply geb_ge in E5. apply fl_ge_5 in E5.
      apply ratio_ge in E5; [| exact HG]. auto.
    + apply leb_gt in E5.
      assert (H5 : fl (netProfitUsd b) < rounds_to_5 * fl (gasCostUsd b)).
      { apply Qnot_le_lt. intros H. apply (Qlt_not_le _ _ E5).
        apply fl_ge_5. apply ratio_ge; assumption. }
      destruct (geb (fl (fl (netProfitUsd b) / fl (gasCostUsd b))) 3) eqn:E3.
      * right. left. apply geb_ge in E3. apply fl_ge_3 in E3.
        apply ratio_ge in E3; [| exact HG]. auto.
      * right. right. split; [| reflexivity]. right.
        apply leb_gt in E3. apply Qnot_le_lt. intros H. apply (Qlt_not_le _ _ E3).
        apply fl_ge_3. apply ratio_ge; assumption.
  - apply gtb_le in Eg. right. right. split; [left; exact Eg | reflexivity].
Qed.

(** The gas cost in percent of the net profit, as [inferTimingRisk]
    computes it, when the profit is at least [k] times the cost. *)
Lemma gas_percent_bound (b : DecideRequest) (k : Q) :
  0 < k -> 0 < fl (gasCostUsd b) ->
  k * fl (gasCostUsd b) <= fl (netProfitUsd b) ->
  fmul (fdiv (gasCostUsd b) (netProfitUsd b)) 100 <= fl (fl (/ k) * 100).
Proof.
  intros Hk HG H.
  assert (0 < fl (netProfitUsd b)) as HP.
  { apply Qlt_le_trans with (k * fl (gasCostUsd b)); [| exact H].
    apply Qmult_lt_0_compat; assumption. }
  unfold fmul, fdiv. rewrite fl_idem.
  assert (fl 100 == 100) as -> by (vm_compute; reflexivity).
  apply fl_mono. apply Qmult_le_compat_r; [| discriminate].
  apply fl_mono. apply Qle_shift_div_r; [exact HP |].
  assert (/ k * fl (netProfitUsd b) == fl (netProfitUsd b) / k) as -> by (field; lra).
  apply Qle_shift_div_l; [exact Hk |]. lra.
Qed.

(** X10. [calculateProfitMargin] by its inequalities, the two amounts
    taken as doubles: safe exactly when the gas cost is positive and the
    net profit is at least [5 - 2^-51] times it (from there on the quotient
    rounds to 5), acceptable when it is at least [3 - 2^-52] times it and
    short of that, thin otherwise, so also whenever the gas cost is zero
    or negative.  Five times the gas cost is always enough for safe. *)
Theorem margin_thresholds (b : DecideRequest) :
  (calculateProfitMargin b = safe <->
     0 < gasCostUsd b /\
     rounds_to_5 * fl (gasCostUsd b) <= fl (netProfitUsd b)) /\
  (calculateProfitMargin b = acceptable <->
     0 < gasCostUsd b /\
     rounds_to_3 * fl (gasCostUsd b) <= fl (netProfitUsd b) /\
     fl (netProfitUsd b) < rounds_to_5 * fl (gasCostUsd b)) /\
  (calculateProfitMargin b = thin <->
     gasCostUsd b <= 0 \/ fl (netProfitUsd b) < rounds_to_3 * fl (gasCostUsd b)) /\
  (0 < gasCostUsd b -> 5 * fl (gasCostUsd b) <= fl (netProfitUsd b) ->
     calculateProfitMargin b = safe).
Proof.
  assert (Hr5 : rounds_to_5 < 5) by reflexivity.
  assert (Hr3 : rounds_to_3 < rounds_to_5) by reflexivity.
  assert (Hr0 : 0 < rounds_to_3) by reflexivity.
  assert (Hord : 0 < gasCostUsd b ->
                 rounds_to_3 * fl (gasCostUsd b) < rounds_to_5 * fl (gasCostUsd b)).
  { intros Hg. apply Qmult_lt_compat_r; [apply fl_pos; exact Hg | exact Hr3]. }
  assert (Hfive : 0 < gasCostUsd b ->
                  rounds_to_5 * fl (gasCostUsd b) < 5 * fl (gasCostUsd b)).
  { intros Hg. apply Qmult_lt_compat_r; [apply fl_pos; exact Hg | exact Hr5]. }
  destruct (margin_cases b) as [(Hg & H5 & E) | [(Hg & H3 & H5 & E) | (Hthin & E)]];
    rewrite E.
  - specialize (Hord Hg). specialize (Hfive Hg).
    split; [split; [intros _; split; assumption | reflexivity] |].
    split; [split; [intros H; discriminate H | intros (_ & _ & H); exfalso; lra] |].
    split; [split; [intros H; discriminate H | intros [H | H]; exfalso; lra] |].
    reflexivity.
  - specialize (Hord Hg). specialize (Hfive Hg).
    split; [split; [intros H; discriminate H | intros (_ & H); exfalso; lra] |].
    split; [split; [intros _; repeat split; assumption | reflexivity] |].
    split; [split; [intros H; discriminate H | intros [H | H]; exfalso; lra] |].
    intros _ H. exfalso. lra.
  - split.
    { split; [intros H; discriminate H |]. intros (Hg & H). exfalso.
      specialize (Hord Hg). destruct Hthin as [Hn | Hn]; lra. }
    split.
    { split; [intros H; discriminate H |]. intros (Hg & H & _). exfalso.
      destruct Hthin as [Hn | Hn]; lra. }
    split; [split; [intros _; exact Hthin | reflexivity] |].
    intros Hg H. exfalso. specialize (Hord Hg). specialize (Hfive Hg).
    destruct Hthin as [Hn | Hn]; lra.
Qed.

Lemma margin_thresholds_witness :
  calculateProfitMargin safe_margin = safe /\
  calculateProfitMargin rounded_margin = safe.
Proof.
  split.
  - apply (proj1 (margin_thresholds safe_margin)).
    split; [reflexivity | vm_compute; discriminate].
  - apply (proj1 (margin_thresholds rounded_margin)).
    split; [reflexivity | vm_compute; discriminate].
Defined.

(** The quotient of 5.05 by 1.01 rounds to 5 although, as doubles, the
    profit is less than five times the cost. *)
Example rounded_up_to_safe :
  fl (netProfitUsd rounded_margin) < 5 * fl (gasCostUsd rounded_margin) /\
  fdiv (netProfitUsd rounded_margin) (gasCostUsd rounded_margin) == 5 /\
  decision (result (POST without_key (Complete rounded_margin))) = EXECUTE.
Proof. split; [reflexivity |]. split; vm_compute; reflexivity. Qed.

(** X11. The inferred timing risk and the profit margin never disagree:
    a safe margin comes with a low timing risk, an acceptable margin never
    with a high one, and a high timing risk always with a thin margin. *)
Theorem timing_risk_follows_margin (b : DecideRequest) :
  (calculateProfitMargin b = safe -> inferTimingRisk b = low) /\
  (calculateProfitMargin b = acceptable -> inferTimingRisk b <> high) /\
  (inferTimingRisk b = high -> calculateProfitMargin b = thin).
Proof.
  assert (Hlow : 0 < gasCostUsd b ->
                 rounds_to_5 * fl (gasCostUsd b) <= fl (netProfitUsd b) ->
                 inferTimingRisk b = low).
  { intros Hg H5. pose proof (fl_pos _ Hg) as HG.
    assert (0 < netProfitUsd b) as Hp.
    { apply fl_positive_iff. apply Qlt_le_trans with (rounds_to_5 * fl (gasCostUsd b));
        [| exact H5]. apply Qmult_lt_0_compat; [reflexivity | exact HG]. }
    pose proof (gas_percent_bound b rounds_to_5 eq_refl HG H5) as Hb.
    assert (fl (fl (/ rounds_to_5) * 100) <= 30) as Hc by (vm_compute; discriminate).
    unfold inferTimingRisk. apply gtb_gt in Hp. rewrite Hp.
    assert (gtb (fmul (fdiv (gasCostUsd b) (netProfitUsd b)) 100) 50 = false) as ->
      by (apply gtb_le; lra).
    assert (gtb (fmul (fdiv (gasCostUsd b) (netProfitUsd b)) 100) 30 = false) as ->
      by (apply gtb_le; lra).
    reflexivity. }
  assert (Hnothigh : 0 < gasCostUsd b ->
                     rounds_to_3 * fl (gasCostUsd b) <= fl (netProfitUsd b) ->
                     inferTimingRisk b <> high).
  { intros Hg H3. pose proof (fl_pos _ Hg) as HG.
    assert (0 < netProfitUsd b) as Hp.
    { apply fl_positive_iff. apply Qlt_le_trans with (rounds_to_3 * fl (gasCostUsd b));
        [| exact H3]. apply Qmult_lt_0_compat; [reflexivity | exact HG]. }
    pose proof (gas_percent_bound b rounds_to_3 eq_refl HG H3) as Hb.
    assert (fl (fl (/ rounds_to_3) * 100) <= 50) as Hc by (vm_compute; discriminate).
    unfold inferTimingRisk. apply gtb_gt in Hp. rewrite Hp.
    assert (gtb (fmul (fdiv (gasCostUsd b) (netProfitUsd b)) 100) 50 = false) as ->
      by (apply gtb_le; lra).
    destruct (gtb _ 30); discriminate. }
  destruct (margin_cases b) as [(Hg & H5 & E) | [(Hg & H3 & H5 & E) | (_ & E)]];
    rewrite E; (split; [| split]); intros H; try discriminate H; try reflexivity.
  - apply Hlow; assumption.
  - exfalso. rewrite (Hlow Hg H5) in H. discriminate H.
  - apply Hnothigh; assumption.
  - exfalso. exact (Hnothigh Hg H3 H).
Qed.

Lemma timing_risk_follows_margin_witness : inferTimingRisk safe_margin = low.
Proof.
  apply (timing_risk_follows_margin safe_margin). vm_compute. reflexivity.
Defined.

Lemma fallback_executes_iff t data sr mr tr pm :
  decision (result (fallbackDecision t data sr mr tr pm)) = EXECUTE <->
  5 <= netProfitUsd data /\ sr = low /\ mr = low /\ tr = low /\ pm = safe.
Proof.
  pose proof (all_low_iff sr mr tr) as Hlow.
  pose proof (all_low_not_risky sr mr tr) as Hcalm.
  destruct (fallback_cases t data sr mr tr pm)
    as [(Hr & Hd & _) | [(Hr & Hm & Hd & _) | [(Hr & Hm & He & Hd & _)
       | (Hr & Hm & He & Hd & _)]]]; rewrite Hd; split.
  - intros H. discriminate H.
  - intros (_ & -> & -> & -> & _). specialize (Hcalm eq_refl). congruence.
  - intros H. discriminate H.
  - intros (_ & _ & _ & _ & Hs). congruence.
  - intros _.
    apply andb_true_iff in He. destruct He as [He Hsafe].
    apply andb_true_iff in He. destruct He as [Hnp Hall].
    apply geb_ge in Hnp. apply Hlow in Hall. apply bool_decide_eq_true in Hsafe.
    injection Hall as -> -> ->. auto.
  - intros _. reflexivity.
  - intros H. discriminate H.
  - intros (Hnp & -> & -> & -> & Hs). exfalso.
    apply geb_ge in Hnp. apply (bool_decide_eq_true_2 _) in Hs.
    rewrite Hnp, Hs in He. discriminate He.
Qed.

(** X12. Without a key the route answers EXECUTE exactly when the net
    profit is at least $5, the spread is at most 5%, the three risks (given
    or inferred) are low and the margin is safe; it then never does so on a
    trade whose gas cost is zero, nor on one whose net profit, as a
    double, is under [5 - 2^-51] times the gas cost. *)
Theorem execute_without_advisory (env : Env) (b : DecideRequest) :
  key_missing (GEMINI_API_KEY env) = true ->
  (decision (result (POST env (Complete b))) = EXECUTE <->
     5 <= netProfitUsd b /\ spreadPercent b <= 5 /\
     given_or (slippageRisk b) (inferSlippageRisk b) = low /\
     given_or (mevRisk b) (inferMEVRisk b) = low /\
     given_or (timingRisk b) (inferTimingRisk b) = low /\
     calculateProfitMargin b = safe) /\
  (decision (result (POST env (Complete b))) = EXECUTE ->
     0 < gasCostUsd b /\
     rounds_to_5 * fl (gasCostUsd b) <= fl (netProfitUsd b)).
Proof.
  intros Hkey.
  assert (Hiff : decision (result (POST env (Complete b))) = EXECUTE <->
     5 <= netProfitUsd b /\ spreadPercent b <= 5 /\
     given_or (slippageRisk b) (inferSlippageRisk b) = low /\
     given_or (mevRisk b) (inferMEVRisk b) = low /\
     given_or (timingRisk b) (inferTimingRisk b) = low /\
     calculateProfitMargin b = safe).
  { destruct (Qlt_le_dec 0 (netProfitUsd b)) as [H0 | H0].
    - destruct (Qlt_le_dec (netProfitUsd b) 2) as [H2 | H2].
      + rewrite (POST_second_check env b H0 H2). cbn. split.
        * intros H. discriminate H.
        * intros (H5 & _). lra.
      + destruct (Qlt_le_dec 5 (spreadPercent b)) as [Hs | Hs].
        * rewrite (POST_third_check env b H2 Hs). cbn. split.
          -- intros H. discriminate H.
          -- intros (_ & Hs' & _). lra.
        * rewrite (POST_falls_back env b (conj H2 Hs) (or_introl Hkey)).
          unfold fallback_for. rewrite fallback_executes_iff. tauto.
    - rewrite (POST_first_check env b H0). cbn. split.
      + intros H. discriminate H.
      + intros (H5 & _). lra. }
  split; [exact Hiff |].
  intros H. apply Hiff in H. destruct H as (_ & _ & _ & _ & _ & Hsafe).
  destruct (margin_cases b) as [(Hg & H5 & _) | [(_ & _ & _ & E) | (_ & E)]];
    [auto | congruence | congruence].
Qed.

Lemma execute_without_advisory_witness :
  decision (result (POST without_key (Complete scenarioB))) = EXECUTE /\
  0 < gasCostUsd scenarioB /\
  rounds_to_5 * fl (gasCostUsd scenarioB) <= fl (netProfitUsd scenarioB).
Proof.
  pose proof (execute_without_advisory without_key scenarioB eq_refl) as [Hiff Hgas].
  assert (H : decision (result (POST without_key (Complete scenarioB))) = EXECUTE)
    by (vm_compute; reflexivity).
  split; [exact H | exact (Hgas H)].
Defined.

(** X13. On every path the confidence sent is a number between 0 and 1, or
    not a number at all; unless the response is built from a parsed
    advisory object, the confidence is a number, the decision is EXECUTE or
    SKIP and the reason is a non-empty string. *)
Theorem responses_are_well_formed (env : Env) (request : RequestBody) :
  let d := result (POST env request) in
  (confidence d = NaN \/ exists c, confidence d = Finite c /\ 0 <= c /\ c <= 1) /\
  ((forall fields, advisory env <> Parsed fields) ->
     (exists c, confidence d = Finite c /\ 0 <= c /\ c <= 1) /\
     (decision d = EXECUTE \/ decision d = SKIP) /\
     nonempty_text (reason d)).
Proof.
  cbv zeta.
  assert (Hconst : forall r c why,
             0 <= c -> c <= 1 -> why <> EmptyString ->
             result r = {| decision := SKIP; reason := JString why;
                           confidence := Finite c;
                           riskAnalysis := riskAnalysis (result r) |} ->
             (confidence (result r) = NaN \/
              exists c, confidence (result r) = Finite c /\ 0 <= c /\ c <= 1) /\
             ((forall fields, advisory env <> Parsed fields) ->
              (exists c, confidence (result r) = Finite c /\ 0 <= c /\ c <= 1) /\
              (decision (result r) = EXECUTE \/ decision (result r) = SKIP) /\
              nonempty_text (reason (result r)))).
  { intros r c why H0 H1 Hwhy E. rewrite E. cbn.
    split; [right; exists c; auto |]. intros _.
    split; [exists c; auto |]. split; [right; reflexivity |].
    exists why. auto. }
  assert (Hfb : forall t data sr mr tr pm,
             let r := fallbackDecision t data sr mr tr pm in
             (exists c, confidence (result r) = Finite c /\ 0 <= c /\ c <= 1) /\
             (decision (result r) = EXECUTE \/ decision (result r) = SKIP) /\
             nonempty_text (reason (result r))).
  { intros t data sr mr tr pm. cbv zeta.
    split; [| split; [| apply fallback_reason_nonempty]].
    - destruct (fallback_cases t data sr mr tr pm)
        as [(_ & _ & Hc) | [(_ & _ & _ & Hc) | [(_ & _ & _ & _ & Hc)
           | (_ & _ & _ & _ & Hc)]]]; rewrite Hc; eexists;
        (split; [reflexivity |]); split; apply Qle_bool_iff; reflexivity.
    - destruct (fallback_cases t data sr mr tr pm)
        as [(_ & Hd & _) | [(_ & _ & Hd & _) | [(_ & _ & _ & Hd & _)
           | (_ & _ & _ & Hd & _)]]]; rewrite Hd; auto. }
  destruct request as [message | | b].
  - apply (Hconst _ 0 "Error processing decision request"%string);
      [apply Qle_refl | apply Qle_bool_iff; reflexivity | discriminate | reflexivity].
  - apply (Hconst _ 0 "Missing required simulation data"%string);
      [apply Qle_refl | apply Qle_bool_iff; reflexivity | discriminate | reflexivity].
  - destruct (Qlt_le_dec 0 (netProfitUsd b)) as [H0 | H0].
    + destruct (Qlt_le_dec (netProfitUsd b) 2) as [H2 | H2].
      * rewrite (POST_second_check env b H0 H2).
        apply (Hconst _ 0.95 "Net profit below $2 minimum threshold"%string);
          [apply Qle_bool_iff; reflexivity | apply Qle_bool_iff; reflexivity
          | discriminate | reflexivity].
      * destruct (Qlt_le_dec 5 (spreadPercent b)) as [Hs | Hs].
        -- rewrite (POST_third_check env b H2 Hs).
           apply (Hconst _ 0.9
                    "Spread >5% appears anomalous - possible bad data"%string);
             [apply Qle_bool_iff; reflexivity | apply Qle_bool_iff; reflexivity
             | discriminate | reflexivity].
        -- rewrite (POST_past_gate env b (conj H2 Hs)).
           destruct (key_missing (GEMINI_API_KEY env)).
           ++ unfold fallback_for.
              destruct (Hfb (now env) b
                          (given_or (slippageRisk b) (inferSlippageRisk b))
                          (given_or (mevRisk b) (inferMEVRisk b))
                          (given_or (timingRisk b) (inferTimingRisk b))
                          (calculateProfitMargin b)) as (Hc & Hd & Hr).
              split; [right; exact Hc | intros _; auto].
           ++ destruct (advisory env) as [| | | fields] eqn:Ea.
              ** unfold fallback_for.
                 destruct (Hfb (now env) b
                             (given_or (slippageRisk b) (inferSlippageRisk b))
                             (given_or (mevRisk b) (inferMEVRisk b))
                             (given_or (timingRisk b) (inferTimingRisk b))
                             (calculateProfitMargin b)) as (Hc & Hd & Hr).
                 split; [right; exact Hc | intros _; auto].
              ** unfold fallback_for.
                 destruct (Hfb (now env) b
                             (given_or (slippageRisk b) (inferSlippageRisk b))
                             (given_or (mevRisk b) (inferMEVRisk b))
                             (given_or (timingRisk b) (inferTimingRisk b))
                             (calculateProfitMargin b)) as (Hc & Hd & Hr).
                 split; [right; exact Hc | intros _; auto].
              ** unfold fallback_for.
                 destruct (Hfb (now env) b
                             (given_or (slippageRisk b) (inferSlippageRisk b))
                             (given_or (mevRisk b) (inferMEVRisk b))
                             (given_or (timingRisk b) (inferTimingRisk b))
                             (calculateProfitMargin b)) as (Hc & Hd & Hr).
                 split; [right; exact Hc | intros _; auto].
              ** split; [apply clamp_range |].
                 intros Hno. exfalso. exact (Hno fields eq_refl).
    + rewrite (POST_first_check env b H0).
      apply (Hconst _ 1.0 "Net profit is negative or zero"%string);
        [apply Qle_bool_iff; reflexivity | apply Qle_bool_iff; reflexivity
        | discriminate | reflexivity].
Qed.

Lemma responses_are_well_formed_witness :
  (exists c, confidence (result (POST without_key MissingFields)) = Finite c
             /\ 0 <= c /\ c <= 1) /\
  (decision (result (POST without_key MissingFields)) = EXECUTE \/
   decision (result (POST without_key MissingFields)) = SKIP) /\
  nonempty_text (reason (result (POST without_key MissingFields))).
Proof.
  apply (responses_are_well_formed without_key MissingFields).
  intros fields. vm_compute. discriminate.
Defined.

(** X14. The debug page never gets a decision: the body it posts names the
    spread [spread], not [spreadPercent], so whatever the simulation held
    the route answers 400, "Missing required simulation data", SKIP with
    confidence 0. *)
Theorem debug_page_is_always_rejected (env : Env) (sim : Simulation) :
  exists r,
    serve env (fetchDecision_body sim) = Some r /\
    r = POST env MissingFields /\
    status r = 400%N /\ success r = false /\
    decision (result r) = SKIP /\
    reason (result r) = JString "Missing required simulation data" /\
    confidence (result r) = Finite 0 /\
    error r = Some "Missing required fields"%string.
Proof.
  eexists. split; [| repeat split].
  unfold serve, read_body.
  assert (Hnone : property "spreadPercent" (fetchDecision_body sim) = None).
  { unfold fetchDecision_body.
    destruct sim as [a1 a2 a3 a4 a5 a6 a7]; cbn [sim_spreadPct sim_gasCostUsd
      sim_slippageUsd sim_feesUsd sim_netProfitUsd sim_liquidityDepth sim_amountInEth].
    destruct a1, a2, a3, a4, a5, a6, a7; reflexivity. }
  rewrite Hnone.
  destruct (property "netProfitUsd" (fetchDecision_body sim)); reflexivity.
Qed.

(** The same simulation posted under the names the route reads is
    answered. *)
Lemma debug_page_is_always_rejected_witness :
  exists r, serve without_key (fetchDecision_body full_simulation) = Some r /\
            status r = 400%N.
Proof.
  destruct (debug_page_is_always_rejected without_key full_simulation)
    as (r & Hr & _ & Hs & _).
  exists r. split; [exact Hr | exact Hs].
Defined.

(** With the key the route reads, the same figures are accepted. *)
Example renamed_body_is_read :
  status <$> serve without_key
    [ ("spreadPercent"%string, JNumber 0.4); ("gasCostUsd"%string, JNumber 1);
      ("slippageUsd"%string, JNumber 0.5); ("feesUsd"%string, JNumber 0.2);
      ("netProfitUsd"%string, JNumber 6); ("tradeSizeUsd"%string, JNumber 3500);
      ("liquidityUsd"%string, JNumber 1000000) ] = Some 200%N.
Proof. vm_compute. reflexivity. Qed.

End DecideExtras.

(* ===================================================================== *)
(** ** Further properties of the estimators                               *)
(* ===================================================================== *)

Module EstimateExtras.

Import Js Estimate JsProofs.
Local Open Scope Q_scope.

Lemma ltb_false_nonneg (x : Q) : ltb x 0 = false <-> 0 <= x.
Proof.
  unfold ltb. rewrite negb_false_iff. apply Qle_bool_iff.
Qed.

Lemma ltb_true_neg (x : Q) : ltb x 0 = true <-> x < 0.
Proof.
  unfold ltb. rewrite negb_true_iff. split.
  - intros H. apply Qnot_le_lt. intros Hle. apply Qle_bool_iff in Hle. congruence.
  - intros H. destruct (Qle_bool 0 x) eqn:E; [|reflexivity].
    apply Qle_bool_iff in E. lra.
Qed.

Lemma cents_of (n : Z) : n # Pos.of_nat (10 ^ 2) == inject_Z n * (1 # 100).
Proof.
  change (Pos.of_nat (10 ^ 2)) with 100%positive.
  unfold Qeq, Qmult, inject_Z. simpl. lia.
Qed.

(** The rounding of a non-negative number to cents. *)
Lemma scaled_bounds (y : Q) :
  0 <= y ->
  let n := Qfloor (y * inject_Z (10 ^ Z.of_nat 2) + (1 # 2)) in
  (0 <= n)%Z /\ inject_Z n * (1 # 100) - y <= 1 # 200 /\ y - inject_Z n * (1 # 100) <= 1 # 200.
Proof.
  intros Hy n.
  change (inject_Z (10 ^ Z.of_nat 2)) with 100 in n.
  pose proof (Qfloor_le (y * 100 + (1 # 2))) as Hlo.
  pose proof (Qlt_floor (y * 100 + (1 # 2))) as Hhi.
  fold n in Hlo, Hhi.
  rewrite inject_Z_plus in Hhi. change (inject_Z 1) with 1 in Hhi.
  split; [|split].
  - change 0%Z with (Qfloor 0). apply Qfloor_resp_le. lra.
  - lra.
  - lra.
Qed.

Lemma scaled_pos (x : Q) :
  0 <= x -> toFixed_scaled x 2 = Qfloor (x * inject_Z (10 ^ Z.of_nat 2) + (1 # 2)).
Proof.
  intros Hx. unfold toFixed_scaled. apply Qfloor_comp.
  rewrite Qabs_pos by exact Hx. reflexivity.
Qed.

Lemma scaled_neg (x : Q) :
  x <= 0 -> toFixed_scaled x 2 = Qfloor (- x * inject_Z (10 ^ Z.of_nat 2) + (1 # 2)).
Proof.
  intros Hx. unfold toFixed_scaled. apply Qfloor_comp.
  rewrite Qabs_neg by exact Hx. reflexivity.
Qed.

Lemma toFixed_value_nonneg (x : Q) : 0 <= x -> 0 <= toFixed_value x 2.
Proof.
  intros Hx. unfold toFixed_value.
  apply ltb_false_nonneg in Hx as Hs. rewrite Hs.
  rewrite scaled_pos by exact Hx.
  destruct (scaled_bounds x Hx) as (Hn & _ & _).
  rewrite cents_of.
  assert (0 <= inject_Z (Qfloor (x * inject_Z (10 ^ Z.of_nat 2) + (1 # 2)))) as H0.
  { change 0 with (inject_Z 0). rewrite <- Zle_Qle. exact Hn. }
  lra.
Qed.

Lemma toFixed_value_close (x : Q) : Qabs (toFixed_value x 2 - x) <= 1 # 200.
Proof.
  unfold toFixed_value. rewrite cents_of.
  destruct (ltb x 0) eqn:Hs.
  - apply ltb_true_neg in Hs.
    assert (0 <= - x) as Hx by lra.
    rewrite scaled_neg by lra.
    destruct (scaled_bounds (- x) Hx) as (_ & H1 & H2).
    apply Qabs_Qle_condition. split; lra.
  - apply ltb_false_nonneg in Hs.
    rewrite scaled_pos by exact Hs.
    destruct (scaled_bounds x Hs) as (_ & H1 & H2).
    apply Qabs_Qle_condition. split; lra.
Qed.

(** A number of whole cents prints unchanged. *)
Lemma floor_half (m : Z) : Qfloor (inject_Z m + (1 # 2)) = m.
Proof.
  assert (inject_Z m + (1 # 2) == (2 * m + 1) # 2) as E.
  { unfold Qeq, Qplus, inject_Z. simpl. lia. }
  rewrite (Qfloor_comp _ _ E). unfold Qfloor.
  symmetry. apply (Z.div_unique _ _ m 1); lia.
Qed.

Lemma whole_cents (q : Q) (k : Z) :
  q == inject_Z k * (1 # 100) -> toFixed_value q 2 == q.
Proof.
  intros E. unfold toFixed_value. rewrite cents_of.
  destruct (ltb q 0) eqn:Hs.
  - apply ltb_true_neg in Hs.
    rewrite scaled_neg by lra.
    change (inject_Z (10 ^ Z.of_nat 2)) with 100.
    assert (- q * 100 + (1 # 2) == inject_Z (- k) + (1 # 2)) as E'.
    { rewrite inject_Z_opp. rewrite E. ring. }
    rewrite (Qfloor_comp _ _ E'), floor_half, inject_Z_opp, E. ring.
  - apply ltb_false_nonneg in Hs.
    rewrite scaled_pos by exact Hs.
    change (inject_Z (10 ^ Z.of_nat 2)) with 100.
    assert (q * 100 + (1 # 2) == inject_Z k + (1 # 2)) as E'.
    { rewrite E. ring. }
    rewrite (Qfloor_comp _ _ E'), floor_half, E. ring.
Qed.

Lemma is_whole_cents (x : Q) : exists k : Z, toFixed_value x 2 == inject_Z k * (1 # 100).
Proof.
  unfold toFixed_value.
  destruct (ltb x 0).
  - exists (- toFixed_scaled x 2)%Z. rewrite cents_of, inject_Z_opp. ring.
  - exists (toFixed_scaled x 2). rewrite cents_of. ring.
Qed.

Lemma getEthPriceUsd_nonneg (slot0 : option N) : 0 <= getEthPriceUsd slot0.
Proof.
  destruct slot0 as [s|]; cbn [getEthPriceUsd]; [| discriminate].
  apply fmul_nonneg; [| discriminate].
  assert (0 <= fdiv (inject_Z (Z.of_N s)) (2 ^ 96)) as Hr.
  { apply fdiv_nonneg; [| reflexivity].
    change 0 with (inject_Z 0). rewrite <- Zle_Qle. lia. }
  apply fmul_nonneg; exact Hr.
Qed.

(** The price is a double. *)
Lemma getEthPriceUsd_double (slot0 : option N) :
  fl (getEthPriceUsd slot0) == getEthPriceUsd slot0.
Proof.
  destruct slot0 as [s|]; cbn [getEthPriceUsd].
  - unfold fmul at 1. apply fl_idem.
  - vm_compute. reflexivity.
Qed.

Lemma formatEther_nonneg (n : N) : 0 <= formatEther (Z.of_N n).
Proof.
  unfold formatEther, Qle. simpl. lia.
Qed.

Lemma formatEther_plus (a b : Z) : formatEther (a + b) == formatEther a + formatEther b.
Proof.
  unfold formatEther, Qeq, Qplus. simpl. lia.
Qed.

Lemma gas_report_priced (gasEstimate : N) (feeData : FeeData) (ethPriceUsd : Q) :
  0 <= ethPriceUsd -> fl ethPriceUsd == ethPriceUsd ->
  let r := gas_report gasEstimate feeData ethPriceUsd in
  0 <= gasCostUsd r /\
  Qabs (gasCostUsd r - fmul (gasCostEth r) ethPriceUsd) <= 1 # 200 /\
  Qabs (gasCostUsd r - gasCostEth r * ethPriceUsd)
    <= (1 # 200) + gasCostEth r * ethPriceUsd * (1 # 2251799813685248).
Proof.
  intros Hp Ep. cbv zeta. cbn [gas_report gasCostEth gasCostUsd].
  set (a := formatEther (Z.of_N (gasEstimate * gasPrice feeData))).
  assert (0 <= a) as Ha by apply formatEther_nonneg.
  pose proof (toFixed_value_close (fmul a ethPriceUsd)) as C1.
  pose proof (fmul_close a ethPriceUsd Ha Hp Ep) as C2.
  split; [| split].
  - apply toFixed_value_nonneg. apply fmul_nonneg; assumption.
  - exact C1.
  - apply Qabs_Qle_condition in C1. destruct C1 as [C1a C1b].
    apply Qabs_Qle_condition in C2. destruct C2 as [C2a C2b].
    set (u := toFixed_value (fmul a ethPriceUsd) 2) in *.
    set (m := fmul a ethPriceUsd) in *. set (x := a * ethPriceUsd) in *.
    apply Qabs_Qle_condition. split; lra.
Qed.

(** X15.  Both legs of [calculateCompleteFlowGasFees]
    ([calculateBaseDepositGasFees], [calculateArbitrumSwapGasFees]), whatever
    the pool answered to either read: the cost in ether is estimate times
    gas price, and the cost in USD is never negative and lies within half
    a cent of the double product of that cost and the price the leg read
    itself, hence within half a cent and a relative [2^-51] of their exact
    product. *)
Theorem gas_legs_are_priced_to_the_cent (c : Cycle) :
  let flow := calculateCompleteFlowGasFees c in
  let deposit := step1_deposit flow in
  let swap := step2_swap flow in
  let deposit_price := getEthPriceUsd (slot0_at c DepositGasRead) in
  let swap_price := getEthPriceUsd (slot0_at c SwapGasRead) in
  gasCostEth deposit
    == formatEther (Z.of_N (deposit_gasEstimate c * gasPrice (mainnet_feeData c))) /\
  gasCostEth swap
    == formatEther (Z.of_N (swap_gasEstimate c * gasPrice (arbitrum_feeData c))) /\
  0 <= gasCostUsd deposit /\
  0 <= gasCostUsd swap /\
  Qabs (gasCostUsd deposit - fmul (gasCostEth deposit) deposit_price) <= 1 # 200 /\
  Qabs (gasCostUsd swap - fmul (gasCostEth swap) swap_price) <= 1 # 200 /\
  Qabs (gasCostUsd deposit - gasCostEth deposit * deposit_price)
    <= (1 # 200) + gasCostEth deposit * deposit_price * (1 # 2251799813685248) /\
  Qabs (gasCostUsd swap - gasCostEth swap * swap_price)
    <= (1 # 200) + gasCostEth swap * swap_price * (1 # 2251799813685248).
Proof.
  cbv zeta.
  cbn [calculateCompleteFlowGasFees step1_deposit step2_swap].
  unfold deposit_leg, swap_leg, calculateBaseDepositGasFees,
    calculateArbitrumSwapGasFees.
  destruct (gas_report_priced (deposit_gasEstimate c) (mainnet_feeData c)
              (getEthPriceUsd (slot0_at c DepositGasRead))
              (getEthPriceUsd_nonneg _) (getEthPriceUsd_double _)) as (Hd0 & Hd & Hd').
  destruct (gas_report_priced (swap_gasEstimate c) (arbitrum_feeData c)
              (getEthPriceUsd (slot0_at c SwapGasRead))
              (getEthPriceUsd_nonneg _) (getEthPriceUsd_double _)) as (Hs0 & Hs & Hs').
  split; [reflexivity|]. split; [reflexivity|].
  split; [exact Hd0|]. split; [exact Hs0|]. split; [exact Hd |].
  split; [exact Hs |]. split; [exact Hd' | exact Hs'].
Qed.

Lemma gas_legs_are_priced_to_the_cent_witness :
  0 <= gasCostUsd (step1_deposit (calculateCompleteFlowGasFees drifting)) /\
  0 <= gasCostUsd (step2_swap (calculateCompleteFlowGasFees drifting)).
Proof.
  destruct (gas_legs_are_priced_to_the_cent drifting) as (_ & _ & Hd & Hs & _).
  split; [exact Hd | exact Hs].
Defined.

(** A gas cost of 0.00043 ETH at 3500 is printed as 1.50: the product of
    the two doubles lies just below the 1.505 of the exact product. *)
Example cents_follow_the_double_product :
  toFixed_value (fmul 0.00043 3500) 2 == 1.50 /\
  toFixed_value (0.00043 * 3500) 2 == 1.51.
Proof. split; vm_compute; reflexivity. Qed.

(** Two amounts of whole cents that are less than a cent apart are the
    same amount. *)
Lemma cents_apart (j k : Z) :
  Qabs (inject_Z j * (1 # 100) - inject_Z k * (1 # 100)) < 1 # 100 -> j = k.
Proof.
  intros H. apply Qabs_Qlt_condition in H. destruct H as [H1 H2].
  assert (inject_Z (j - k) < inject_Z 1) as A.
  { rewrite inject_Z_sub. change (inject_Z 1) with 1. lra. }
  assert (inject_Z (-1) < inject_Z (j - k)) as B.
  { rewrite inject_Z_sub. change (inject_Z (-1)) with (-1). lra. }
  rewrite <- Zlt_Qlt in A, B. lia.
Qed.

(** The sum of two amounts of whole cents, added as doubles and printed
    with two decimals, is their sum as long as it stays below ten
    trillion. *)
Lemma sum_of_cents (d s : Q) (kd ks : Z) :
  d == inject_Z kd * (1 # 100) -> s == inject_Z ks * (1 # 100) ->
  0 <= d -> 0 <= s -> d + s <= 10000000000000 ->
  toFixed_value (fadd d s) 2 == d + s.
Proof.
  intros Hd Hs Hd0 Hs0 Hle.
  destruct (fl_bounds d Hd0) as [D0 D1]. destruct (fl_bounds s Hs0) as [S0 S1].
  assert (0 <= fl d + fl s) as Hsum.
  { pose proof (fl_nonneg d Hd0). pose proof (fl_nonneg s Hs0). lra. }
  destruct (fl_bounds _ Hsum) as [F0 F1]. fold (fadd d s) in F0, F1.
  pose proof (toFixed_value_close (fadd d s)) as C.
  apply Qabs_Qle_condition in C. destruct C as [C0 C1].
  destruct (is_whole_cents (fadd d s)) as [k Hk].
  set (x := fadd d s) in *. set (r := toFixed_value x 2) in *.
  set (fd := fl d) in *. set (fs := fl s) in *.
  assert (k = (kd + ks)%Z) as ->.
  { apply cents_apart. rewrite <- Hk, inject_Z_plus.
    assert (inject_Z kd * (1 # 100) + inject_Z ks * (1 # 100) == d + s) as E
      by (rewrite Hd, Hs; reflexivity).
    assert ((inject_Z kd + inject_Z ks) * (1 # 100) == d + s) as -> by (rewrite <- E; ring).
    apply Qabs_Qlt_condition. split; lra. }
  rewrite Hk, inject_Z_plus, Hd, Hs. ring.
Qed.

(** X16.  [calculateCompleteFlowGasFees]: as long as the two legs' USD
    figures stay below ten trillion together, the USD total is exactly
    their sum (adding two amounts of whole cents as doubles and printing
    the sum loses nothing there), and it is at least each of them. *)
Theorem total_gas_usd_is_the_sum (c : Cycle) :
  let flow := calculateCompleteFlowGasFees c in
  gasCostUsd (step1_deposit flow) + gasCostUsd (step2_swap flow) <= 10000000000000 ->
  totalGasCostUsd flow ==
    gasCostUsd (step1_deposit flow) + gasCostUsd (step2_swap flow) /\
  gasCostUsd (step1_deposit flow) <= totalGasCostUsd flow /\
  gasCostUsd (step2_swap flow) <= totalGasCostUsd flow.
Proof.
  cbv zeta.
  cbn [calculateCompleteFlowGasFees totalGasCostUsd step1_deposit step2_swap].
  set (d := gasCostUsd (deposit_leg c)).
  set (s := gasCostUsd (swap_leg c)).
  intros Hle.
  assert (exists k, d == inject_Z k * (1 # 100)) as [kd Hd] by apply is_whole_cents.
  assert (exists k, s == inject_Z k * (1 # 100)) as [ks Hs] by apply is_whole_cents.
  assert (0 <= d) as Hd0.
  { apply toFixed_value_nonneg. apply fmul_nonneg;
      [apply formatEther_nonneg | apply getEthPriceUsd_nonneg]. }
  assert (0 <= s) as Hs0.
  { apply toFixed_value_nonneg. apply fmul_nonneg;
      [apply formatEther_nonneg | apply getEthPriceUsd_nonneg]. }
  rewrite (sum_of_cents d s kd ks Hd Hs Hd0 Hs0 Hle).
  split; [reflexivity|]. split; lra.
Qed.

Lemma total_gas_usd_is_the_sum_witness :
  totalGasCostUsd (calculateCompleteFlowGasFees drifting) ==
    gasCostUsd (step1_deposit (calculateCompleteFlowGasFees drifting))
    + gasCostUsd (step2_swap (calculateCompleteFlowGasFees drifting)).
Proof.
  destruct (total_gas_usd_is_the_sum drifting) as (H & _).
  - vm_compute. discriminate.
  - exact H.
Defined.

(** Far above that the doubles no longer tell the cents apart: two legs of
    910,000,000,000,000.13 USD total 1,820,000,000,000,000.25. *)
Example cents_are_lost_on_huge_totals :
  let c := {| amountInWei := 1000000000000000000;
              deposit_gasEstimate := 13000000000000001000;
              mainnet_feeData := fees20;
              swap_gasEstimate := 13000000000000001000;
              arbitrum_feeData := fees20;
              base_feeData := fees20;
              across_totalRelayFee := None;
              across_slippage_fetch := FetchThrows;
              slot0_at := fun _ => None |} in
  let flow := calculateCompleteFlowGasFees c in
  gasCostUsd (step1_deposit flow) == 910000000000000.13 /\
  gasCostUsd (step2_swap flow) == 910000000000000.13 /\
  totalGasCostUsd flow == 1820000000000000.25.
Proof. cbv zeta. repeat split; vm_compute; reflexivity. Qed.

(** X17.  [calculateAcrossBridgeFees] when the fee service does not
    answer: ten basis points are charged, rounded down, so the fee is at
    most a thousandth of the amount, the amount received is not negative,
    and fee and amount received add up to the amount sent. *)
Theorem bridge_default_fee (c : Cycle) :
  across_totalRelayFee c = None ->
  let fees := calculateAcrossBridgeFees c in
  relayerFeeBps fees = 10%N /\
  relayerFeeEth fees == formatEther (Z.of_N (amountInWei c * 10 / 10000)) /\
  relayerFeeEth fees * 1000 <= formatEther (Z.of_N (amountInWei c)) /\
  (0 <= outputAmount fees)%Z /\
  formatEther (outputAmount fees) + relayerFeeEth fees
    == formatEther (Z.of_N (amountInWei c)).
Proof.
  intros Hnone. cbv zeta.
  cbn [calculateAcrossBridgeFees relayerFeeBps relayerFeeEth outputAmount].
  rewrite Hnone. cbn [default].
  assert (amountInWei c * 10 / 10000 * 1000 <= amountInWei c)%N as Hfee.
  { pose proof (N.Div0.mul_div_le (amountInWei c * 10) 10000) as H. lia. }
  split; [reflexivity|]. split; [reflexivity|].
  split; [|split].
  - unfold formatEther, Qle, Qmult. simpl. lia.
  - lia.
  - rewrite <- formatEther_plus. unfold formatEther, Qeq. simpl. lia.
Qed.

Lemma bridge_default_fee_witness :
  let c := {| amountInWei := 1000000000000000000;
              deposit_gasEstimate := 100000; mainnet_feeData := fees20;
              swap_gasEstimate := 100000; arbitrum_feeData := fees20;
              base_feeData := fees20;
              across_totalRelayFee := None;
              across_slippage_fetch := FetchThrows;
              slot0_at := fun _ => Some near3000 |} in
  relayerFeeBps (calculateAcrossBridgeFees c) = 10%N /\
  outputAmount (calculateAcrossBridgeFees c) = 999000000000000000%Z.
Proof.
  intros c.
  destruct (bridge_default_fee c eq_refl) as (H1 & _).
  split; [exact H1 | reflexivity].
Defined.



(** A reply without a total: no slippage is reported on one ether, and a
    thousandth of it is charged as the relayer fee. *)
Example empty_reply_splits_the_two :
  let c := {| amountInWei := 1000000000000000000;
              deposit_gasEstimate := 100000; mainnet_feeData := fees20;
              swap_gasEstimate := 100000; arbitrum_feeData := fees20;
              base_feeData := fees20;
              across_totalRelayFee := None;
              across_slippage_fetch :=
                Answered {| totalRelayFee_total := None; totalRelayFee_pct := None;
                            relayerGasFee_total := None;
                            relayerCapitalFee_total := None |};
              slot0_at := fun _ => None |} in
  (slippage_amountEth <$> calculateAcrossBridgeSlippage c) = Some (0 # 1000000000000000000) /\
  (totalSlippageBps <$> calculateAcrossBridgeSlippage c) = Some 0%N /\
  relayerFeeBps (calculateAcrossBridgeFees c) = 10%N /\
  relayerFeeEth (calculateAcrossBridgeFees c) == 0.001.
Proof. cbv zeta. repeat split; vm_compute; reflexivity. Qed.

End EstimateExtras.

(* ===================================================================== *)
(** ** Properties of the slippage and liquidity services                  *)
(* ===================================================================== *)

Module ServicesExtras.

Import Js Services JsProofs.
Local Open Scope Q_scope.

Lemma not_null_app (a b : list slot) : not_null (a ++ b) = not_null a ++ not_null b.
Proof.
  induction a as [|[| |info] a IH]; cbn [not_null app]; rewrite ?IH; reflexivity.
Qed.

Lemma not_null_length (results : list slot) :
  (length (not_null results) <= length results)%nat.
Proof.
  induction results as [|[| |info] rest IH]; cbn [not_null length]; lia.
Qed.

(** Fetching in batches gives what one pass over the ticks gives. *)
Lemma in_batches_flat (ticks : Z -> tick_read) (batchSize : nat) :
  (0 < batchSize)%nat ->
  forall (fuel : nat) (l : list Z),
    (length l <= fuel)%nat ->
    in_batches fuel batchSize ticks l = not_null (map (read_tick ticks) l).
Proof.
  intros Hpos fuel. induction fuel as [|fuel IH]; intros l Hlen.
  - destruct l; [reflexivity | cbn in Hlen; lia].
  - destruct l as [|t l']; [reflexivity|].
    cbn [in_batches]. set (l := t :: l') in *.
    rewrite IH.
    + rewrite <- not_null_app, <- map_app, firstn_skipn. reflexivity.
    + rewrite length_skipn. subst l. cbn [length] in *. lia.
Qed.

Lemma getLiquidityDepth_unfold (ticks : Z -> tick_read) (lo hi sp : Z) (all : list Z) :
  ticksData lo hi sp = Some all ->
  getLiquidityDepth ticks lo hi sp
    = Some (not_null (map (read_tick ticks) (firstn 40 all))).
Proof.
  intros H. unfold getLiquidityDepth. rewrite H.
  rewrite in_batches_flat by lia. reflexivity.
Qed.

(** Which of the kept slots are [undefined]. *)
Lemma all_defined_iff (ticks : Z -> tick_read) (l : list Z) :
  forallb (fun t => match t with Some _ => true | None => false end)
    (not_null (map (read_tick ticks) l)) = true <->
  Forall (fun t => match ticks t with
                   | ReadThrows => True
                   | ReadInfo info => (0 < liquidityGross info)%N
                   end) l.
Proof.
  induction l as [|t l IH].
  - cbn. split; [constructor | reflexivity].
  - cbn [map not_null]. unfold read_tick at 1.
    destruct (ticks t) as [|info] eqn:E.
    + rewrite IH. split.
      * intros H. constructor; [rewrite E; exact I | exact H].
      * intros H. inversion H; assumption.
    + destruct (0 <? liquidityGross info)%N eqn:Hpos.
      * cbn [forallb]. rewrite andb_true_l, IH. apply N.ltb_lt in Hpos. split.
        -- intros H. constructor; [rewrite E; exact Hpos | exact H].
        -- intros H. inversion H; assumption.
      * cbn [forallb]. rewrite andb_false_l. apply N.ltb_ge in Hpos. split.
        -- discriminate.
        -- intros H. inversion H as [|? ? Ht _]. rewrite E in Ht. lia.
Qed.

(** X19.  [calculateSlippage] for a positive amount, a positive tick price
    and a quote that is not negative: the expected output is positive;
    the slippage is positive exactly when the quoter returns less than the
    expected output and zero exactly when it returns the expected output;
    the slippage percentage is positive exactly when the slippage is;
    neither the slippage percentage nor the price impact exceeds 100. *)
Theorem slippage_follows_the_quote (amountIn tickPrice quoted : Q)
    (isToken0Input : bool) :
  0 < amountIn ->
  0 < tickPrice ->
  0 <= quoted ->
  let r := calculateSlippage amountIn isToken0Input tickPrice quoted in
  0 < expectedAmountOut r /\
  (0 < slippage_amount r <-> actualAmountOut r < expectedAmountOut r) /\
  (slippage_amount r == 0 <-> actualAmountOut r == expectedAmountOut r) /\
  (0 < slippage_percentage r <-> 0 < slippage_amount r) /\
  slippage_percentage r <= 100 /\
  priceImpact_percentage r <= 100.
Proof.
  intros Ha Hp Hq. cbv zeta.
  cbn [calculateSlippage priceImpact_percentage slippage_percentage executionPrice
       actualAmountOut expectedAmountOut slippage_amount].
  set (priceRatio := if isToken0Input then fl tickPrice else fdiv 1 tickPrice).
  assert (0 < priceRatio) as Hr.
  { unfold priceRatio. destruct isToken0Input; [apply fl_pos; exact Hp |].
    apply fdiv_pos_iff; [exact Hp | reflexivity]. }
  assert (fl priceRatio == priceRatio) as Er.
  { unfold priceRatio. destruct isToken0Input; [| unfold fdiv]; apply fl_idem. }
  set (e := fmul amountIn priceRatio).
  assert (0 < e) as He.
  { unfold e, fmul. apply fl_pos. apply Qmult_lt_0_compat; apply fl_pos; assumption. }
  assert (fl e == e) as Ee by (unfold e, fmul; apply fl_idem).
  set (q := fl quoted).
  assert (0 <= q) as Hq' by (apply fl_nonneg; exact Hq).
  assert (fl q == q) as Eq by (apply fl_idem).
  assert (fsub e q == fl (e - q)) as Es by (unfold fsub; rewrite Ee, Eq; reflexivity).
  split; [exact He |]. split.
  { rewrite Es, fl_positive_iff. split; intros H; lra. }
  split.
  { rewrite Es, fl_zero_iff. split; intros H; lra. }
  split; [apply percent_pos_iff; exact He |]. split.
  - apply percent_le_100; [exact He |].
    rewrite Es, fl_idem. apply fl_mono. lra.
  - apply percent_le_100; [exact Hr |].
    unfold fsub. rewrite fl_idem. apply fl_mono.
    assert (0 <= fl (fdiv q amountIn)); [| lra].
    apply fl_nonneg. apply fdiv_nonneg; assumption.
Qed.

Lemma slippage_follows_the_quote_witness :
  0 < slippage_amount (calculateSlippage 2 true 3000 5970) /\
  slippage_percentage (calculateSlippage 2 true 3000 5970) <= 100.
Proof.
  destruct (slippage_follows_the_quote 2 3000 5970 true) as (_ & Hs & _ & _ & Hp & _).
  - reflexivity.
  - reflexivity.
  - discriminate.
  - split; [apply Hs; vm_compute; reflexivity | exact Hp].
Defined.

(** The price impact and the slippage percentage are the same quantity on
    paper and part in the last digits: 3 ether at a tick price of 2999.5
    quoted at 8990. *)
Example price_impact_is_not_the_slippage :
  let r := calculateSlippage 3 true 2999.5 8990 in
  slippage_percentage r == 6806573865893065 # 72057594037927936 /\
  priceImpact_percentage r == 6806573865893429 # 72057594037927936.
Proof. cbv zeta. split; vm_compute; reflexivity. Qed.

(** X20.  [categorizeLiquidityDepth] on tick data without holes: the pool
    is 'high' exactly when it holds 5M USD with at least 10 ticks or 1M USD
    with at least 30 ticks, 'low' exactly when it holds less than 1M USD
    with fewer than 10 ticks, and 'mid' in between; the liquidity summed
    over the ticks has no part in it. *)
Theorem depth_categories (liquidityUSD : Q) (ticksWithLiquidity : nat)
    (tickData : list (option TickInfo)) :
  Forall (fun t => t <> None) tickData ->
  exists d : depth,
    categorizeLiquidityDepth liquidityUSD ticksWithLiquidity tickData = Some d /\
    (d = depth_high <->
       (5000000 <= liquidityUSD /\ (10 <= ticksWithLiquidity)%nat) \/
       (1000000 <= liquidityUSD /\ (30 <= ticksWithLiquidity)%nat)) /\
    (d = depth_low <->
       liquidityUSD < 1000000 /\ (ticksWithLiquidity < 10)%nat).
Proof.
  intros Hall. unfold categorizeLiquidityDepth.
  assert (forallb (fun t : option TickInfo =>
            match t with Some _ => true | None => false end) tickData = true) as ->.
  { apply forallb_forall. intros t Ht.
    rewrite List.Forall_forall in Hall. specialize (Hall t Ht).
    destruct t; [reflexivity | congruence]. }
  eexists. split; [reflexivity|].
  unfold geb, leb.
  destruct (Qle_bool 5000000 liquidityUSD) eqn:H5;
    [apply Qle_bool_iff in H5
    |assert (~ 5000000 <= liquidityUSD) as N5
       by (intros Hle; apply Qle_bool_iff in Hle; congruence); clear H5];
    (destruct (Qle_bool 1000000 liquidityUSD) eqn:H1;
     [apply Qle_bool_iff in H1
     |assert (~ 1000000 <= liquidityUSD) as N1
        by (intros Hle; apply Qle_bool_iff in Hle; congruence); clear H1]);
    (destruct (30 <=? ticksWithLiquidity)%nat eqn:T30;
     [apply Nat.leb_le in T30 | apply Nat.leb_gt in T30]);
    (destruct (10 <=? ticksWithLiquidity)%nat eqn:T10;
     [apply Nat.leb_le in T10 | apply Nat.leb_gt in T10]);
    cbn;
    (split; split; intros H;
     first [ discriminate H
           | reflexivity
           | exfalso; lia
           | exfalso; lra
           | left; split; [lra | lia]
           | right; split; [lra | lia]
           | split; [lra | lia]
           | destruct H as [[Ha Hb]|[Ha Hb]]; exfalso; first [lia | lra]
           | destruct H as [Ha Hb]; exfalso; first [lia | lra] ]).
Qed.

Lemma depth_categories_witness :
  exists d : depth,
    categorizeLiquidityDepth 6000000 12 [] = Some d /\ d = depth_high.
Proof.
  destruct (depth_categories 6000000 12 []) as (d & Hd & Hhigh & _).
  - constructor.
  - exists d. split; [exact Hd|]. apply Hhigh. left. split.
    + unfold Qle. simpl. lia.
    + lia.
Defined.

(** X21.  [getLiquidityDepth] with a positive tick spacing returns at most
    40 slots; fetching in batches of ten gives what one pass over the
    first 40 ticks gives; and a slot is kept for every tick that could be
    read, with or without liquidity: only the ticks whose read threw are
    dropped. *)
Theorem getLiquidityDepth_keeps_every_tick_read (ticks : Z -> tick_read)
    (tickLower tickUpper tickSpacing : Z) :
  (0 < tickSpacing)%Z ->
  exists (all : list Z) (data : list (option TickInfo)),
    ticksData tickLower tickUpper tickSpacing = Some all /\
    getLiquidityDepth ticks tickLower tickUpper tickSpacing = Some data /\
    data = not_null (map (read_tick ticks) (firstn 40 all)) /\
    (length data <= 40)%nat /\
    length data =
      length (List.filter (fun t => match ticks t with
                               | ReadThrows => false
                               | ReadInfo _ => true
                               end) (firstn 40 all)).
Proof.
  intros Hsp.
  assert (exists all, ticksData tickLower tickUpper tickSpacing = Some all) as [all Hall].
  { unfold ticksData. destruct (tickUpper <? tickLower)%Z; [eexists; reflexivity|].
    destruct (tickSpacing <=? 0)%Z eqn:E; [apply Z.leb_le in E; lia|].
    eexists; reflexivity. }
  exists all. eexists. split; [exact Hall|].
  split; [apply getLiquidityDepth_unfold; exact Hall|].
  split; [reflexivity|]. split.
  - etransitivity; [apply not_null_length|].
    rewrite length_map, length_firstn. lia.
  - induction (firstn 40 all) as [|t l IH]; [reflexivity|].
    cbn [map not_null List.filter]. unfold read_tick at 1.
    destruct (ticks t) as [|info].
    + exact IH.
    + destruct (0 <? liquidityGross info)%N; cbn [length]; rewrite IH; reflexivity.
Qed.

Lemma getLiquidityDepth_keeps_every_tick_read_witness :
  exists data : list (option TickInfo),
    getLiquidityDepth sparse 0 2400 60 = Some data /\ length data = 40%nat.
Proof.
  destruct (getLiquidityDepth_keeps_every_tick_read sparse 0 2400 60)
    as (all & data & Hall & Hdata & _ & _ & Hlen).
  - lia.
  - exists data. split; [exact Hdata|].
    rewrite Hlen. injection Hall as <-. reflexivity.
Defined.

(** X22.  [getETHLiquidity] passes what [getLiquidityDepth] returns to
    [categorizeLiquidityDepth]: a category comes out exactly when every
    one of the first 40 ticks that could be read holds liquidity.  One
    readable tick without liquidity leaves an [undefined] slot and the
    categorisation throws. *)
Theorem depth_category_needs_liquidity_everywhere (ticks : Z -> tick_read)
    (liquidityUSD : Q) (tickLower tickUpper tickSpacing : Z) (all : list Z) :
  ticksData tickLower tickUpper tickSpacing = Some all ->
  (depthCategory ticks liquidityUSD tickLower tickUpper tickSpacing <> None <->
   Forall (fun t => match ticks t with
                    | ReadThrows => True
                    | ReadInfo info => (0 < liquidityGross info)%N
                    end) (firstn 40 all)).
Proof.
  intros Hall. unfold depthCategory.
  rewrite (getLiquidityDepth_unfold _ _ _ _ _ Hall).
  rewrite <- all_defined_iff. unfold categorizeLiquidityDepth.
  destruct (forallb _ _); split; intros H; congruence.
Qed.

Lemma depth_category_needs_liquidity_everywhere_witness :
  depthCategory dense 6000000 0 2400 60 <> None /\
  depthCategory sparse 6000000 0 2400 60 = None.
Proof.
  split.
  - eapply depth_category_needs_liquidity_everywhere; [reflexivity|].
    apply Forall_forall. intros t _. cbn. lia.
  - reflexivity.
Defined.

End ServicesExtras.

(* ===================================================================== *)
(** ** Properties of the other routes                                     *)
(* ===================================================================== *)

Module RoutesExtras.

Import Js Routes JsProofs.
Local Open Scope Q_scope.

(** X23.  The detection route, whatever the library functions compute:
    the venue it buys on is never the one it sells on, the buy price is
    never above the sell price, it buys on Base exactly when Base is
    strictly cheaper (on equal prices it buys on Arbitrum), and an
    opportunity is reported found exactly when it is actionable; a failed
    fetch answers 500 with nothing found. *)
Theorem detect_buys_where_it_is_cheaper
    (calculateSpread : Q -> Q -> Q) (isActionableSpread : Q -> Q -> bool)
    (classifyLiquidity : N -> liquidity_class)
    (fetched : option (PoolData * PoolData)) :
  let r := detect calculateSpread isActionableSpread classifyLiquidity fetched in
  let o := opportunity r in
  buyChain o <> sellChain o /\
  buyPrice o <= sellPrice o /\
  found o = actionable o /\
  (forall b a, fetched = Some (b, a) ->
     status r = 200%N /\
     (buyChain o = base <-> price b < price a) /\
     (buyPrice o == price b \/ buyPrice o == price a) /\
     spreadPct o = calculateSpread (price b) (price a)) /\
  (fetched = None -> status r = 500%N /\ success r = false /\ found o = false).
Proof.
  cbv zeta. destruct fetched as [[b a]|]; cbn [detect opportunity status success
    buyChain sellChain buyPrice sellPrice found actionable spreadPct].
  - destruct (ltb (price b) (price a)) eqn:E.
    + apply DecideProofs.ltb_lt in E.
      split; [discriminate|]. split; [lra|]. split; [reflexivity|].
      split; [|discriminate].
      intros b' a' [= <- <-]. split; [reflexivity|]. split; [tauto|].
      split; [left; reflexivity | reflexivity].
    + apply DecideProofs.ltb_ge in E.
      split; [discriminate|]. split; [lra|]. split; [reflexivity|].
      split; [|discriminate].
      intros b' a' [= <- <-]. split; [reflexivity|]. split.
      * split; [discriminate | intros H; exfalso; lra].
      * split; [right; reflexivity | reflexivity].
  - split; [discriminate|]. split; [lra|]. split; [reflexivity|].
    split; [discriminate|]. intros _. repeat split.
Qed.

Lemma detect_buys_where_it_is_cheaper_witness :
  let spread := fun b a : Q => (a - b) / b * 100 in
  let r := detect spread (fun s m => leb m s) (fun _ => liquidity_medium)
             (Some ({| price := 2460; liquidity := 10 |},
                    {| price := 2450; liquidity := 20 |})) in
  buyChain (opportunity r) = arbitrum /\ sellChain (opportunity r) = base /\
  buyPrice (opportunity r) <= sellPrice (opportunity r).
Proof.
  intros spread r.
  destruct (detect_buys_where_it_is_cheaper spread (fun s m => leb m s)
              (fun _ => liquidity_medium)
              (Some ({| price := 2460; liquidity := 10 |},
                     {| price := 2450; liquidity := 20 |})))
    as (_ & Hle & _).
  split; [reflexivity|]. split; [reflexivity | exact Hle].
Defined.

(** The least and the greatest factor the mock can draw: the doubles next
    to 1.001 and 1.003. *)
Definition least_factor : Q := 4508103226997866 # 4503599627370496.
Definition greatest_factor : Q := 4517110426252607 # 4503599627370496.

(** The mock's Base price, by the first draw. *)
Lemma mock_base_range (random1 : Q) :
  0 <= random1 < 1 ->
  2450 <= fadd 2450 (fmul random1 50) <= 2500 /\
  fl (fadd 2450 (fmul random1 50)) == fadd 2450 (fmul random1 50).
Proof.
  intros [H0 H1].
  assert (fl 0 == 0) as E0 by reflexivity.
  assert (fl 1 == 1) as E1 by (vm_compute; reflexivity).
  assert (fl 50 == 50) as E50 by (vm_compute; reflexivity).
  assert (fl 2450 == 2450) as E2450 by (vm_compute; reflexivity).
  assert (fl 2500 == 2500) as E2500 by (vm_compute; reflexivity).
  assert (0 <= fl random1 <= 1) as [Hr0 Hr1].
  { split; [apply fl_nonneg; exact H0 | apply fl_le_double; [exact E1 | lra]]. }
  assert (0 <= fmul random1 50 <= 50) as [Hp0 Hp1].
  { unfold fmul. rewrite E50. split.
    - apply fl_nonneg. lra.
    - apply fl_le_double; [exact E50 | lra]. }
  split; [| unfold fadd; apply fl_idem].
  unfold fadd. rewrite E2450. unfold fmul at 1 2. rewrite fl_idem.
  fold (fmul random1 50). split.
  - apply fl_ge_double; [exact E2450 | lra].
  - apply fl_le_double; [exact E2500 | lra].
Qed.

(** The factor from the Base price to the Arbitrum price, by the second
    draw. *)
Lemma mock_factor_range (random2 : Q) :
  0 <= random2 < 1 ->
  least_factor <= fadd 1 (fadd 0.001 (fmul random2 0.002)) <= greatest_factor /\
  fl (fadd 1 (fadd 0.001 (fmul random2 0.002)))
  == fadd 1 (fadd 0.001 (fmul random2 0.002)).
Proof.
  intros [H0 H1].
  assert (fl 1 == 1) as E1 by (vm_compute; reflexivity).
  assert (0 <= fl random2 <= 1) as [Hr0 Hr1].
  { split; [apply fl_nonneg; exact H0 | apply fl_le_double; [exact E1 | lra]]. }
  set (k := fl 0.002).
  assert (0 < k) as Hk by (vm_compute; reflexivity).
  assert (fl k == k) as Ek by (apply fl_idem).
  assert (0 <= fmul random2 0.002 <= k) as [Hp0 Hp1].
  { unfold fmul. fold k. split.
    - apply fl_nonneg. apply Qmult_le_0_compat; lra.
    - apply fl_le_double; [exact Ek |].
      assert (fl random2 * k <= 1 * k); [| lra].
      apply Qmult_le_compat_r; lra. }
  set (p := fmul random2 0.002) in *.
  assert (fl p == p) as Ep by (unfold p, fmul; apply fl_idem).
  set (lo := fadd 0.001 0). set (hi := fadd 0.001 k).
  assert (lo <= fadd 0.001 p <= hi) as [Hs0 Hs1].
  { unfold lo, hi, fadd. rewrite Ep, Ek.
    assert (fl 0 == 0) as -> by reflexivity.
    split; apply fl_mono; lra. }
  set (sp := fadd 0.001 p) in *.
  assert (fl sp == sp) as Es by (unfold sp, fadd; apply fl_idem).
  assert (fl lo == lo) as Elo by (unfold lo, fadd; apply fl_idem).
  assert (fl hi == hi) as Ehi by (unfold hi, fadd; apply fl_idem).
  assert (fadd 1 lo == least_factor) as El by (vm_compute; reflexivity).
  assert (fadd 1 hi == greatest_factor) as Eh by (vm_compute; reflexivity).
  fold sp.
  split; [| unfold fadd; apply fl_idem].
  rewrite <- El, <- Eh. unfold fadd at 1 2 4. rewrite Es, Elo, Ehi, E1.
  split; apply fl_mono; lra.
Qed.

(** The spread the update reports between a Base price [b] and [b] times a
    factor [f] the mock can draw. *)
Lemma spread_of_factor (b f : Q) :
  2450 <= b <= 2500 -> fl b == b ->
  least_factor <= f <= greatest_factor -> fl f == f ->
  b < fmul b f /\
  0 < Qabs (fsub (fmul b f) b) /\
  0.099999999999 <= fmul (fdiv (Qabs (fsub (fmul b f) b)) b) 100 <= 0.300000000001.
Proof.
  intros [Hb0 Hb1] Eb [Hf0 Hf1] Ef.
  set (u := 1 # 9007199254740992).
  set (c1 := least_factor * (1 - u) - 1).
  set (c2 := greatest_factor * (1 + u) - 1).
  assert (0 < c1) as Hc1 by (vm_compute; reflexivity).
  assert (0 < least_factor) as Hl by (vm_compute; reflexivity).
  (* the Arbitrum price *)
  assert (fmul b f == fl (b * f)) as Ea by (unfold fmul; rewrite Eb, Ef; reflexivity).
  assert (b * least_factor <= b * f <= b * greatest_factor) as [Hbf0 Hbf1].
  { split; (rewrite !(Qmult_comm b); apply Qmult_le_compat_r; lra). }
  assert (0 <= b * f) as Hbf by (apply Qmult_le_0_compat; lra).
  destruct (fl_bounds (b * f) Hbf) as [Ha0 Ha1]. fold u in Ha0, Ha1.
  rewrite <- Ea in Ha0, Ha1. set (a := fmul b f) in *.
  assert (fl a == a) as Eaa by (unfold a, fmul; apply fl_idem).
  assert (b * c1 <= a - b <= b * c2) as [Hd0 Hd1].
  { unfold c1, c2. split.
    - assert (b * least_factor * (1 - u) <= b * f * (1 - u)).
      { apply Qmult_le_compat_r; [exact Hbf0 | vm_compute; discriminate]. }
      lra.
    - assert (b * f * (1 + u) <= b * greatest_factor * (1 + u)).
      { apply Qmult_le_compat_r; [exact Hbf1 | vm_compute; discriminate]. }
      lra. }
  assert (0 < b * c1) as Hbc1 by (apply Qmult_lt_0_compat; lra).
  assert (b < a) as Hlt by lra.
  (* their difference *)
  assert (fsub a b == fl (a - b)) as Ed by (unfold fsub; rewrite Eaa, Eb; reflexivity).
  assert (0 <= a - b) as Hab by lra.
  destruct (fl_bounds (a - b) Hab) as [Hs0 Hs1]. fold u in Hs0, Hs1.
  rewrite <- Ed in Hs0, Hs1.
  assert (0 < fsub a b) as Hdpos by (rewrite Ed; apply fl_pos; lra).
  set (d := fsub a b) in *.
  assert (Qabs d == d) as Eabs by (apply Qabs_pos; lra).
  assert (fl d == d) as Edd by (unfold d, fsub; apply fl_idem).
  assert (b * (c1 * (1 - u)) <= d <= b * (c2 * (1 + u))) as [Hdd0 Hdd1].
  { split.
    - assert (b * c1 * (1 - u) <= (a - b) * (1 - u)).
      { apply Qmult_le_compat_r; [exact Hd0 | vm_compute; discriminate]. }
      lra.
    - assert ((a - b) * (1 + u) <= b * c2 * (1 + u)).
      { apply Qmult_le_compat_r; [exact Hd1 | vm_compute; discriminate]. }
      lra. }
  (* the share of the Base price *)
  assert (c1 * (1 - u) <= d / b <= c2 * (1 + u)) as [Hq0 Hq1].
  { split.
    - apply Qle_shift_div_l; [lra |]. rewrite Qmult_comm. exact Hdd0.
    - apply Qle_shift_div_r; [lra |]. rewrite Qmult_comm. exact Hdd1. }
  assert (fdiv (Qabs d) b == fl (d / b)) as Eq.
  { unfold fdiv. rewrite Eabs, Edd, Eb. reflexivity. }
  assert (fl 100 == 100) as E100 by (vm_compute; reflexivity).
  assert (fmul (fdiv (Qabs d) b) 100 == fl (fl (d / b) * 100)) as Ep.
  { unfold fmul. rewrite Eq, fl_idem, E100. reflexivity. }
  pose proof (fl_mono _ _ Hq0) as Hm0. pose proof (fl_mono _ _ Hq1) as Hm1.
  assert (fl (fl (c1 * (1 - u)) * 100) <= fl (fl (d / b) * 100)) as Hp0.
  { apply fl_mono. lra. }
  assert (fl (fl (d / b) * 100) <= fl (fl (c2 * (1 + u)) * 100)) as Hp1.
  { apply fl_mono. lra. }
  assert (0.099999999999 <= fl (fl (c1 * (1 - u)) * 100)) as Hlo
    by (vm_compute; discriminate).
  assert (fl (fl (c2 * (1 + u)) * 100) <= 0.300000000001) as Hhi
    by (vm_compute; discriminate).
  split; [exact Hlt |]. split; [rewrite Eabs; exact Hdpos |].
  rewrite Ep. split; lra.
Qed.

(** X24.  [fetchPrices] when the pools cannot be used (a fetch threw, or a
    price is zero): for draws in [0, 1) the update carries the warning, a
    Base price from 2450 to 2500, an Arbitrum price above it, so always
    the direction 'base-cheaper', and a spread from 0.1 to 0.3 percent up
    to the rounding of the doubles, which puts it within [10^-12] of that
    range and not always inside it. *)
Theorem mock_prices_always_favour_base (pools : option (Q * Q)) (random1 random2 : Q) :
  match pools with
  | Some (b, a) => b == 0 \/ a == 0
  | None => True
  end ->
  0 <= random1 < 1 ->
  0 <= random2 < 1 ->
  let u := fetchPrices pools random1 random2 in
  warning u = true /\
  2450 <= base_price u <= 2500 /\
  base_price u < arbitrum_price u /\
  spread_direction u = base_cheaper /\
  0 < spread_absolute u /\
  0.099999999999 <= spread_percentage u <= 0.300000000001.
Proof.
  intros Hpools Hr1 Hr2. cbv zeta. unfold fetchPrices.
  assert (match pools with
          | Some (b, a) => if Qeq_bool b 0 || Qeq_bool a 0 then None else Some (b, a)
          | None => None
          end = None) as ->.
  { destruct pools as [[b a]|]; [|reflexivity].
    destruct Hpools as [H|H]; apply Qeq_bool_iff in H; rewrite H;
      [reflexivity | rewrite orb_true_r; reflexivity]. }
  cbn [warning base_price arbitrum_price spread_direction spread_percentage
       spread_absolute].
  destruct (mock_base_range random1 Hr1) as [Hb Eb].
  destruct (mock_factor_range random2 Hr2) as [Hf Ef].
  destruct (spread_of_factor _ _ Hb Eb Hf Ef) as (Hlt & Habs & Hpct).
  split; [reflexivity |]. split; [exact Hb |]. split; [exact Hlt |].
  split; [| split; [exact Habs | exact Hpct]].
  apply DecideProofs.ltb_lt in Hlt. rewrite Hlt. reflexivity.
Qed.

Lemma mock_prices_always_favour_base_witness :
  spread_direction (fetchPrices None (1 # 2) (1 # 2)) = base_cheaper /\
  spread_percentage (fetchPrices None (1 # 2) (1 # 2)) <= 0.300000000001.
Proof.
  destruct (mock_prices_always_favour_base None (1 # 2) (1 # 2))
    as (_ & _ & _ & Hd & _ & _ & Hp).
  - exact I.
  - split; [discriminate | reflexivity].
  - split; [discriminate | reflexivity].
  - split; [exact Hd | exact Hp].
Defined.

(** With both draws at zero the spread comes out just below 0.1 percent,
    and a first draw next to 1 gives a Base price of 2500. *)
Example mock_spread_below_a_tenth :
  spread_percentage (fetchPrices None 0 0) == 7205759403792259 # 72057594037927936 /\
  spread_percentage (fetchPrices None 0 0) < 0.1 /\
  base_price (fetchPrices None (9007199254740991 # 9007199254740992) 0) == 2500.
Proof. repeat split; vm_compute; reflexivity. Qed.

(** X25.  The two routes that take an [amount]: whatever the bridging-fees
    route rejects, the estimate route rejects too, and they part exactly
    on a truthy amount in which [parseFloat] reads no number: the estimate
    route answers 400, the bridging-fees route hands it to its
    estimator. *)
Theorem bridging_fees_lets_a_non_number_through (amount : amount_input)
    (estimators_throw : bool) :
  (bridging_fees_status amount estimators_throw = 400%N ->
   estimate_status amount estimators_throw = 400%N) /\
  (estimate_status amount estimators_throw <> bridging_fees_status amount estimators_throw
   <-> amount = Truthy PNaN) /\
  (estimate_status amount estimators_throw = 200%N <->
   estimators_throw = false /\
   exists p, amount = Truthy p /\
     match p with
     | PNaN => False
     | PInfinity negative => negative = false
     | PFinite q => 0 < q
     end).
Proof.
  unfold bridging_fees_status, estimate_status.
  destruct amount as [|[|negative|q]];
    cbn [estimate_rejects bridging_fees_rejects isNaN not_positive orb].
  - split; [reflexivity|]. split.
    + split; [congruence | discriminate].
    + split; [discriminate|]. intros (_ & p & [=] & _).
  - split; [destruct estimators_throw; discriminate|]. split.
    + split; [reflexivity|]. intros _. destruct estimators_throw; discriminate.
    + split; [discriminate|]. intros (_ & p & [= <-] & []).
  - destruct negative, estimators_throw; cbn.
    all: split; [try reflexivity; try discriminate|].
    all: split; [split; [congruence | discriminate]|].
    all: split; [try discriminate; try (intros _; split; [reflexivity|];
                   eexists; split; reflexivity)|].
    all: try (intros (Ht & p & [= <-] & Hn); congruence).
    all: try reflexivity.
  - unfold leb. destruct (Qle_bool q 0) eqn:E.
    + apply Qle_bool_iff in E. split; [reflexivity|]. split.
      * split; [congruence | discriminate].
      * split; [discriminate|]. intros (_ & p & [= <-] & Hq). lra.
    + assert (0 < q) as Hq.
      { apply Qnot_le_lt. intros Hle. apply Qle_bool_iff in Hle. congruence. }
      destruct estimators_throw.
      * split; [discriminate|]. split.
        -- split; [congruence | discriminate].
        -- split; [discriminate|]. intros (Ht & _). discriminate.
      * split; [discriminate|]. split.
        -- split; [congruence | discriminate].
        -- split; [|reflexivity]. intros _. split; [reflexivity|].
           eexists; split; [reflexivity | exact Hq].
Qed.

Lemma bridging_fees_lets_a_non_number_through_witness :
  estimate_status (Truthy PNaN) false = 400%N /\
  bridging_fees_status (Truthy PNaN) false = 200%N /\
  estimate_status (Truthy PNaN) false <> bridging_fees_status (Truthy PNaN) false.
Proof.
  destruct (bridging_fees_lets_a_non_number_through (Truthy PNaN) false)
    as (_ & Hdiff & _).
  split; [reflexivity|]. split; [reflexivity|]. apply Hdiff. reflexivity.
Defined.

(** The route's two prices are 14 USD apart. *)
Lemma route_price_difference :
  fsub Estimate.sellPrice Estimate.buyPrice == 14.
Proof. vm_compute. reflexivity. Qed.

(** X26.  The estimate route on a positive amount, with its fixed prices:
    the gross profit is the double product of the amount and 14 USD,
    positive and within a relative [2^-51] of 14 USD per ether; the spread
    is the same double, next to 200/499 percent, whatever the amount; the
    costs are added from the left; the trade nets a profit exactly when
    the costs so added are below the gross profit, and the margin does
    not exceed 100 percent when they are not negative. *)
Theorem estimate_breaks_even_at_14_usd_per_ether (amountFloat : Q) (f : Figures) :
  0 < amountFloat ->
  let s := simulate amountFloat f in
  sim_grossProfitUsd s == fmul amountFloat 14 /\
  0 < sim_grossProfitUsd s /\
  Qabs (sim_grossProfitUsd s - 14 * amountFloat)
    <= 14 * amountFloat * (1 # 2251799813685248) /\
  sim_spreadPercent s == 902524975424949 # 2251799813685248 /\
  sim_totalCostsUsd s ==
    fadd (fadd (fadd (fig_gasCostUsd f)
                  (fadd (fig_bridgeSlippageUsd f) (fig_ammSlippageUsd f)))
            (fig_feesUsd f))
      (fig_bridgingFeesUsd f) /\
  sim_netProfitUsd s == fl (sim_grossProfitUsd s - sim_totalCostsUsd s) /\
  (0 < sim_netProfitUsd s <-> sim_totalCostsUsd s < sim_grossProfitUsd s) /\
  (0 <= sim_totalCostsUsd s -> sim_profitMarginPct s <= 100).
Proof.
  intros Hpos. cbv zeta.
  cbn [simulate sim_grossProfitUsd sim_spreadPercent sim_totalCostsUsd
       sim_netProfitUsd sim_profitMarginPct sim_roiPct].
  assert (fl 14 == 14) as E14 by (vm_compute; reflexivity).
  assert (Estimate.grossProfitUsd amountFloat == fmul amountFloat 14) as Hg.
  { unfold Estimate.grossProfitUsd. rewrite route_price_difference. reflexivity. }
  assert (0 < Estimate.grossProfitUsd amountFloat) as Hg0.
  { rewrite Hg. unfold fmul. apply fl_pos. rewrite E14.
    apply Qmult_lt_0_compat; [apply fl_pos; exact Hpos | reflexivity]. }
  assert (fl (Estimate.grossProfitUsd amountFloat) == Estimate.grossProfitUsd amountFloat)
    as Eg by (unfold Estimate.grossProfitUsd, fmul; apply fl_idem).
  set (g := Estimate.grossProfitUsd amountFloat) in *.
  set (costs := fadd (fadd (fadd (fig_gasCostUsd f)
                              (fadd (fig_bridgeSlippageUsd f) (fig_ammSlippageUsd f)))
                        (fig_feesUsd f))
                  (fig_bridgingFeesUsd f)).
  assert (fl costs == costs) as Ec by (unfold costs, fadd; apply fl_idem).
  assert (fsub g costs == fl (g - costs)) as En.
  { unfold fsub. rewrite Eg, Ec. reflexivity. }
  split; [exact Hg |]. split; [exact Hg0 |]. split.
  { rewrite Hg.
    assert (14 * amountFloat == amountFloat * 14) as -> by ring.
    apply fmul_close; [lra | discriminate | exact E14]. }
  split; [vm_compute; reflexivity |]. split; [reflexivity |].
  split; [exact En |]. split.
  { rewrite En, fl_positive_iff. split; intros H; lra. }
  intros Hc.
  assert (gtb g 0 = true) as -> by (apply DecideProofs.gtb_gt; exact Hg0).
  apply percent_le_100; [exact Hg0 |].
  rewrite En, fl_idem. apply fl_mono. lra.
Qed.

Lemma estimate_breaks_even_at_14_usd_per_ether_witness :
  let f := {| fig_gasCostUsd := 1; fig_bridgeSlippagePercent := 0.05;
              fig_ammSlippagePercent := 0.3; fig_bridgeSlippageUsd := 2;
              fig_ammSlippageUsd := 3; fig_feesUsd := 1;
              fig_bridgingFeesUsd := 2 |} in
  sim_grossProfitUsd (simulate 1 f) == 14 /\ 0 < sim_netProfitUsd (simulate 1 f).
Proof.
  intros f.
  destruct (estimate_breaks_even_at_14_usd_per_ether 1 f)
    as (Hg & _ & _ & _ & _ & _ & Hn & _).
  - reflexivity.
  - split; [rewrite Hg; vm_compute; reflexivity |].
    apply Hn. vm_compute. reflexivity.
Defined.

(** A tenth of an ether grosses the double next to 1.4, not 1.4. *)
Example a_tenth_of_an_ether :
  Estimate.grossProfitUsd 0.1 == 6305039478318695 # 4503599627370496 /\
  ~ Estimate.grossProfitUsd 0.1 == 1.4.
Proof. split; [vm_compute; reflexivity | vm_compute; discriminate]. Qed.

End RoutesExtras.

